(** * India forestry analytics: the reconciliation pipeline of preprocessing.py

    A shallow embedding of [load_data] and its two helpers,
    [clean_state_name] and [clean_numeric], with the pieces of Python and
    pandas they call: [str.strip], [str.title], [str.replace], [float],
    [dict.get], [pd.isna], [pd.read_csv] (as a lookup in a file store),
    column selection and assignment, [Series.apply], [pd.merge(how='left')]
    and [DataFrame.fillna]; and of the callers of [load_data]: the cached
    [get_data] of app.py with the map layer and the drill-down of its map
    page, and the map check of debug_map.py. *)

From Stdlib Require Import ZArith NArith List String Ascii Bool Lia.
From Stdlib Require Import Floats.SpecFloat.
From stdpp Require Import gmap strings list fin_maps.

Open Scope list_scope.
Open Scope nat_scope.

(** ** Python strings

    A Python [str] is a sequence of Unicode code points.  The character
    tables below are complete on ASCII.  Outside ASCII the white-space table
    is complete, and the case tables hold the rows of the two code points the
    development evaluates (U+01F0 and U+030C); theorems that depend on the
    case tables are stated for ASCII strings. *)

Module Unicode.

Definition str := list N.

(** A literal: the code points of an ASCII string constant. *)
Definition u (s : string) : str := map N_of_ascii (list_ascii_of_string s).

Definition ascii_char (c : N) : bool := (c <? 128)%N.
Definition ascii_str (s : str) : bool := forallb ascii_char s.

Definition between (lo hi c : N) : bool := ((lo <=? c) && (c <=? hi))%N.

(** [Py_UNICODE_ISSPACE]: the characters [str.strip()] removes. *)
Definition is_space (c : N) : bool :=
  between 0x09 0x0D c || between 0x1C 0x20 c
  || (c =? 0x85)%N || (c =? 0xA0)%N || (c =? 0x1680)%N
  || between 0x2000 0x200A c || (c =? 0x2028)%N || (c =? 0x2029)%N
  || (c =? 0x202F)%N || (c =? 0x205F)%N || (c =? 0x3000)%N.

Definition is_upper_ascii (c : N) : bool := between 0x41 0x5A c.
Definition is_lower_ascii (c : N) : bool := between 0x61 0x7A c.
Definition is_digit (c : N) : bool := between 0x30 0x39 c.

(** [_PyUnicode_IsCased]. U+01F0 (j with caron) is a lower-case letter,
    U+030C (combining caron) is a mark. *)
Definition is_cased (c : N) : bool :=
  is_upper_ascii c || is_lower_ascii c || (c =? 0x1F0)%N.

(** [_PyUnicode_ToTitleFull]: U+01F0 has the two-character title-case
    mapping U+004A U+030C (SpecialCasing.txt). *)
Definition to_title (c : N) : str :=
  if is_lower_ascii c then [(c - 32)%N]
  else if (c =? 0x1F0)%N then [0x4A; 0x30C]%N
  else [c].

(** [lower_ucs4]. *)
Definition to_lower (c : N) : str :=
  if is_upper_ascii c then [(c + 32)%N] else [c].

(** [str.strip()] with no argument. *)
Fixpoint lstrip (s : str) : str :=
  match s with
  | c :: r => if is_space c then lstrip r else s
  | [] => []
  end.

Definition rstrip (s : str) : str := rev (lstrip (rev s)).

Definition strip (s : str) : str := rstrip (lstrip s).

(** [str.title()]: CPython's [do_title] loop. *)
Fixpoint do_title (previous_is_cased : bool) (s : str) : str :=
  match s with
  | [] => []
  | c :: r =>
      (if previous_is_cased then to_lower c else to_title c)
        ++ do_title (is_cased c) r
  end.

Definition title (s : str) : str := do_title false s.

(** [s.replace(old, '')] for a one-character [old]. *)
Definition remove_char (old : N) (s : str) : str :=
  filter (fun c => c ≠ old) s.

End Unicode.

Import Unicode.

(** ** Python floats

    A [float] is an IEEE 754 binary64 value, here a [spec_float] with
    precision 53 and maximal exponent 1024. *)

Module PyFloat.

Definition prec : Z := 53.
Definition emax : Z := 1024.

Definition zero : spec_float := S754_zero false.

Definition is_finite (x : spec_float) : bool :=
  match x with
  | S754_zero _ | S754_finite _ _ _ => true
  | S754_infinity _ | S754_nan => false
  end.

(** The binary64 value nearest to [(-1)^neg * m * 10^e] (ties to even);
    an overflow gives an infinity and an underflow a signed zero, as
    [_Py_dg_strtod] does. *)
Definition of_decimal (neg : bool) (m : Z) (e : Z) : spec_float :=
  match m with
  | Zpos p =>
      match e with
      | Zneg k =>
          let '(q, e', l) :=
            SFdiv_core_binary prec emax (Zpos p) 0 (10 ^ Zpos k) 0 in
          binary_round_aux prec emax neg q e' l
      | _ => binary_round prec emax neg (Pos.mul p (Z.to_pos (10 ^ e))) 0
      end
  | _ => S754_zero neg
  end.

(** The value of a run of decimal digits. *)
Definition digits_value (ds : str) : Z :=
  fold_left (fun acc c => (10 * acc + (Z.of_N c - 48))%Z) ds 0%Z.

Fixpoint span_digits (s : str) : str * str :=
  match s with
  | c :: r =>
      if is_digit c then let '(ds, rest) := span_digits r in (c :: ds, rest)
      else ([], s)
  | [] => ([], [])
  end.

Definition take_sign (s : str) : bool * str :=
  match s with
  | c :: r =>
      if (c =? 0x2D)%N then (true, r)
      else if (c =? 0x2B)%N then (false, r)
      else (false, s)
  | [] => (false, [])
  end.

(** The exponent part of [_Py_dg_strtod]: [e] or [E], an optional sign and
    at least one digit; without a digit the [e] is not part of the number. *)
Definition parse_exponent (s : str) : Z * str :=
  match s with
  | c :: r =>
      if (c =? 0x65)%N || (c =? 0x45)%N then
        let '(esign, r1) := take_sign r in
        let '(ds, rest) := span_digits r1 in
        match ds with
        | [] => (0%Z, s)
        | _ => ((if esign then - digits_value ds else digits_value ds)%Z, rest)
        end
      else (0%Z, s)
  | [] => (0%Z, [])
  end.

(** [_Py_dg_strtod]: sign, digits, optional point and digits, optional
    exponent.  [None] when no digit was found (its parse error); otherwise
    the value and the unread rest of the string. *)
Definition strtod (s : str) : option (spec_float * str) :=
  let '(neg, s1) := take_sign s in
  let '(ip, s2) := span_digits s1 in
  let '(fp, s3) :=
    match s2 with
    | c :: r => if (c =? 0x2E)%N then span_digits r else ([], s2)
    | [] => ([], s2)
    end in
  match ip ++ fp with
  | [] => None
  | ds =>
      let '(e, rest) := parse_exponent s3 in
      Some (of_decimal neg (digits_value ds) (e - Z.of_nat (length fp)), rest)
  end.

(** [case_insensitive_match] against a lower-case ASCII word: on success the
    rest of the string. *)
Fixpoint match_word (w s : str) : option str :=
  match w, s with
  | [], _ => Some s
  | a :: w', c :: s' =>
      if (a =? (if is_upper_ascii c then c + 32 else c))%N
      then match_word w' s' else None
  | _ :: _, [] => None
  end.

(** [_Py_parse_inf_or_nan]. *)
Definition parse_inf_or_nan (s : str) : option (spec_float * str) :=
  let '(neg, s1) := take_sign s in
  match match_word (u "inf") s1 with
  | Some r =>
      match match_word (u "inity") r with
      | Some r' => Some (S754_infinity neg, r')
      | None => Some (S754_infinity neg, r)
      end
  | None =>
      match match_word (u "nan") s1 with
      | Some r => Some (S754_nan, r)
      | None => None
      end
  end.

(** [Py_ISSPACE], the white space [float] strips from an ASCII buffer. *)
Definition c_isspace (c : N) : bool := between 0x09 0x0D c || (c =? 0x20)%N.

Fixpoint c_lstrip (s : str) : str :=
  match s with
  | c :: r => if c_isspace c then c_lstrip r else s
  | [] => []
  end.

(** [float_from_string_inner]: strip white space, then the whole of what is
    left must be a number, an infinity or a NaN. *)
Definition float_from_string_inner (s : str) : option spec_float :=
  let s := rev (c_lstrip (rev (c_lstrip s))) in
  match s with
  | [] => None
  | _ =>
      match (match strtod s with Some r => Some r | None => parse_inf_or_nan s end) with
      | Some (x, []) => Some x
      | _ => None
      end
  end.

(** [_Py_string_to_number_with_underscores]: an underscore is removed when
    it stands between two digits, and is an error anywhere else. *)
Fixpoint remove_underscores (prev : N) (s : str) : option str :=
  match s with
  | [] => if (prev =? 0x5F)%N then None else Some []
  | c :: r =>
      if (c =? 0x5F)%N then
        if is_digit prev then remove_underscores c r else None
      else if (prev =? 0x5F)%N && negb (is_digit c) then None
      else cons c <$> remove_underscores c r
  end.

(** [_PyUnicode_TransformDecimalAndSpaceToASCII]: an ASCII string is used as
    it is; in any other string a non-ASCII white-space character becomes a
    space and any other non-ASCII character a question mark (decimal digits
    of other scripts, which Python maps to ASCII digits, are not in the
    table). *)
Definition transform_to_ascii (s : str) : str :=
  if ascii_str s then s
  else map (fun c => if (c <? 127)%N then c
                     else if is_space c then 0x20%N else 0x3F%N) s.

(** [float(s)] for a [str]: [None] stands for [ValueError]. *)
Definition float_of_str (s : str) : option spec_float :=
  remove_underscores 0 (transform_to_ascii s) ≫= float_from_string_inner.

End PyFloat.

Import PyFloat.

(** ** Python values, exceptions and results *)

(** The values a table cell or a helper argument can be: [None], a [bool],
    an [int], a [float] (NaN is the missing-value marker of pandas) or a
    [str]. *)
Inductive pyval :=
  | VNone
  | VBool (b : bool)
  | VInt (z : Z)
  | VFloat (x : spec_float)
  | VStr (s : str).

#[global] Instance spec_float_eq_dec : EqDecision spec_float.
Proof. solve_decision. Defined.

#[global] Instance pyval_eq_dec : EqDecision pyval.
Proof. solve_decision. Defined.

Definition nan : pyval := VFloat S754_nan.

(** [pd.isna] on a scalar. *)
Definition isna (v : pyval) : bool :=
  match v with
  | VNone | VFloat S754_nan => true
  | _ => false
  end.

Definition is_str (v : pyval) : bool :=
  match v with VStr _ => true | _ => false end.

(** [type(v).__name__] *)
Definition type_name (v : pyval) : string :=
  match v with
  | VNone => "NoneType"
  | VBool _ => "bool"
  | VInt _ => "int"
  | VFloat _ => "float"
  | VStr _ => "str"
  end.

(** What [pd.read_csv] raises on a file that exists and cannot be read as
    a table. *)
Inductive read_error :=
  | PermissionError
  | EmptyDataError
  | ParserError
  | UnicodeDecodeError.

Inductive exn :=
  | FileNotFoundError (path : string)
  | ReadError (e : read_error) (path : string)
  | AttributeError (type attr : string)
  | KeyError (labels : list string).

Inductive result (A : Type) :=
  | Ok (a : A)
  | Raise (e : exn).
Arguments Ok {A} a.
Arguments Raise {A} e.

#[global] Instance result_ret : MRet result := @Ok.
#[global] Instance result_bind : MBind result := fun A B f m =>
  match m with
  | Ok a => f a
  | Raise e => Raise e
  end.

(** ** The two helpers of [load_data] *)

(** The items of the dictionary literal of [clean_state_name]. *)
Definition replacements_items : list (str * str) :=
  [ (u "Andhra Pradesh", u "Andhra Pradesh");
    (u "Arunachal Pradesh", u "Arunachal Pradesh");
    (u "Jammu & Kashmir", u "Jammu & Kashmir");
    (u "A & N Islands", u "Andaman & Nicobar Islands");
    (u "Andaman & Nicobar", u "Andaman & Nicobar Islands") ].

Definition replacements : gmap str str := list_to_map replacements_items.

(** [replacements.get(name, name)] *)
Definition get_or (d : gmap str str) (key dflt : str) : str :=
  default dflt (d !! key).

Definition clean_state_name (name : pyval) : result str :=
  if isna name then Ok (u "Unknown")
  else
    match name with
    | VStr s =>
        let name := title (strip s) in
        Ok (get_or replacements name name)
    | _ => Raise (AttributeError (type_name name) "strip")
    end.

Definition clean_numeric (val : pyval) : pyval :=
  match val with
  | VStr s =>
      let val := remove_char 0x2C s in
      match PyFloat.float_of_str val with
      | Some x => VFloat x
      | None => VFloat PyFloat.zero
      end
  | _ => val
  end.

(** ** Data frames

    A [DataFrame] is its columns in order, each a label and a [Series] of
    cells.  The storage type of a column is read off its cells: a column of
    floats only (NaN is a float) is a float column, a column of ints only an
    integer column, any other an object column.  The three places where
    pandas converts cells on account of the storage type are modelled: the
    type inference on what [Series.apply] returns, the promotion of an
    integer column to floats when a join leaves rows of it unmatched, and
    the fill value of [fillna], a float in a float column. *)

Abbreviation Series := (list pyval).
Abbreviation DataFrame := (list (string * Series)).

Definition columns (df : DataFrame) : list string := df.*1.

(** [col in df.columns] *)
Definition has_column (col : string) (df : DataFrame) : bool :=
  bool_decide (col ∈ columns df).

(** [df[col]] *)
Fixpoint get_col (col : string) (df : DataFrame) : result Series :=
  match df with
  | [] => Raise (KeyError [col])
  | (c, s) :: df' => if decide (c = col) then Ok s else get_col col df'
  end.

(** [df[col] = s]: an existing column is replaced in place, a new one is
    appended. *)
Fixpoint set_col (col : string) (s : Series) (df : DataFrame) : DataFrame :=
  match df with
  | [] => [(col, s)]
  | (c, s0) :: df' =>
      if decide (c = col) then (c, s) :: df' else (c, s0) :: set_col col s df'
  end.

(** [df[[c1, ..., cn]]]: the listed columns in the listed order, or
    [KeyError] with the labels that are missing. *)
Definition select (cols : list string) (df : DataFrame) : result DataFrame :=
  match filter (fun c => c ∉ columns df) cols with
  | [] => mapM (fun c => s ← get_col c df; Ok (c, s)) cols
  | missing => Raise (KeyError missing)
  end.

(** [len(df)] *)
Definition len (df : DataFrame) : nat :=
  match df with
  | [] => 0
  | (_, s) :: _ => length s
  end.

(** [s.apply(f)] for a function that may raise: cells are visited in order
    and the first exception ends the call. *)
Fixpoint apply (f : pyval → result pyval) (s : Series) : result Series :=
  match s with
  | [] => Ok []
  | v :: s' => w ← f v; ws ← apply f s'; Ok (w :: ws)
  end.

(** [s.take(indexer)]: position [None] (pandas' -1) gives NaN. *)
Definition take (s : Series) (indexer : list (option nat)) : Series :=
  map (fun oi => default nan (oi ≫= (s !!.))) indexer.

Definition is_int (v : pyval) : bool :=
  match v with VInt _ => true | _ => false end.

Definition is_float (v : pyval) : bool :=
  match v with VFloat _ => true | _ => false end.

(** [float(z)] for an [int]: the nearest float. *)
Definition float_of_int (z : Z) : spec_float :=
  binary_normalize PyFloat.prec PyFloat.emax z 0 false.

(** A cell stored in a float column. *)
Definition as_float (v : pyval) : pyval :=
  match v with
  | VInt z => VFloat (float_of_int z)
  | _ => v
  end.

Definition int_column (s : Series) : bool := forallb is_int s.
Definition float_column (s : Series) : bool := forallb is_float s.

(** The type inference of [Series.apply] on the values its function
    returned: ints and floats together make a float column. *)
Definition maybe_convert_objects (s : Series) : Series :=
  if forallb (fun v => is_int v || is_float v) s && negb (int_column s)
  then map as_float s else s.

(** A column of the right table of a join, taken by the right indexer: an
    integer column with an unmatched row becomes a float column. *)
Definition reindex (s : Series) (indexer : list (option nat)) : Series :=
  if int_column s && bool_decide (None ∈ indexer)
  then map as_float (take s indexer) else take s indexer.

(** The rows of a key column that hold [key], counted from [j]. *)
Fixpoint positions_from (j : nat) (key : pyval) (keys : Series) : list nat :=
  match keys with
  | [] => []
  | k :: keys' =>
      (if decide (k = key) then [j] else []) ++ positions_from (S j) key keys'
  end.

(** The indexers of a left join: the rows of the left table in their order,
    each paired with every matching row of the right table in its order, or
    with no row when there is no match.  Keys compare as values. *)
Fixpoint left_join_indexers_from (i : nat) (lk rk : Series)
  : list (nat * option nat) :=
  match lk with
  | [] => []
  | k :: lk' =>
      match positions_from 0 k rk with
      | [] => [(i, None)]
      | js => map (fun j => (i, Some j)) js
      end ++ left_join_indexers_from (S i) lk' rk
  end.

Definition left_join_indexers (lk rk : Series) : list (nat * option nat) :=
  left_join_indexers_from 0 lk rk.

(** [pd.merge(left, right, on=on, how='left')] for tables that share no
    label but [on]: the columns of [left], then those of [right] without the
    key. *)
Definition merge_left (left right : DataFrame) (on : string)
  : result DataFrame :=
  lk ← get_col on left;
  rk ← get_col on right;
  let indexers := left_join_indexers lk rk in
  Ok (map (fun cs => (cs.1, take cs.2 (map (fun ij => Some ij.1) indexers))) left
      ++ map (fun cs => (cs.1, reindex cs.2 (map snd indexers)))
           (filter (fun cs => cs.1 ≠ on) right)).

(** [s.fillna(value)]: in a float column the value is stored as a float. *)
Definition fill_series (value : pyval) (s : Series) : Series :=
  let value := if float_column s then as_float value else value in
  map (fun v => if isna v then value else v) s.

(** [df.fillna(value)] *)
Definition fillna (value : pyval) (df : DataFrame) : DataFrame :=
  map (fun cs => (cs.1, fill_series value cs.2)) df.

(** ** Source files

    The file store maps a path to what [pd.read_csv] makes of the file: the
    table it parses to, or the error it raises.  A path without an entry is
    a missing file. *)

Inductive file :=
  | Unreadable (e : read_error)
  | Table (df : DataFrame).

Definition read_csv (fs : gmap string file) (path : string)
  : result DataFrame :=
  match fs !! path with
  | None => Raise (FileNotFoundError path)
  | Some (Unreadable e) => Raise (ReadError e path)
  | Some (Table df) => Ok df
  end.

(** [str(e)] for a [FileNotFoundError] *)
Definition strerror (path : string) : string :=
  "[Errno 2] No such file or directory: '" +:+ path +:+ "'".

(** ** [load_data] *)

Definition forest_path : string := "Recorded_Forest_Area.csv".
Definition tree_path : string := "StatewiseTreeCover.csv".
Definition mangrove_path : string :=
  "19360- Dataful/mangroves-year-and-state-wise-mangrove-forest-cover-in-india-since-1987.csv".
Definition agro_path : string := "Agro_India_States.csv".

(** The dictionary [load_data] returns. *)
Record tables := {
  forest : DataFrame;
  tree : DataFrame;
  mangrove : DataFrame;
  agro : DataFrame;
  master : DataFrame
}.

(** Step 1, the body of the [try]. *)
Definition load_datasets (fs : gmap string file)
  : result (DataFrame * DataFrame * DataFrame * DataFrame) :=
  df_forest ← read_csv fs forest_path;
  df_tree ← read_csv fs tree_path;
  df_mangrove ← read_csv fs mangrove_path;
  df_agro ← read_csv fs agro_path;
  Ok (df_forest, df_tree, df_mangrove, df_agro).

(** Step 2 on one table:
    [if raw in df.columns: df['State'] = df[raw].apply(clean_state_name)] *)
Definition standardize (raw : string) (df : DataFrame) : result DataFrame :=
  if has_column raw df then
    s ← get_col raw df;
    names ← apply (fun v => name ← clean_state_name v; Ok (VStr name)) s;
    Ok (set_col "State" names df)
  else Ok df.

(** Step 3 on one column:
    [if col in df.columns: df[col] = df[col].apply(clean_numeric)] *)
Definition convert (col : string) (df : DataFrame) : result DataFrame :=
  if has_column col df then
    s ← get_col col df;
    Ok (set_col col (maybe_convert_objects (map clean_numeric s)) df)
  else Ok df.

(** Step 4, the master table. *)
Definition merging (df_forest df_tree df_agro : DataFrame)
  : result DataFrame :=
  master_df ←
    select ["State"; "Recorded Forest Area - Total"; "Geographical Area"]
      df_forest;
  right ← select ["State"; "Tree Cover - Area"] df_tree;
  master_df ← merge_left master_df right "State";
  master_df ←
    (if has_column "Precipitation_mm" df_agro then
       right ← select ["State"; "Precipitation_mm"] df_agro;
       merge_left master_df right "State"
     else Ok master_df);
  Ok (fillna (VInt 0) master_df).

(** The result is the pair [(dict, None)] or [(None, message)]. *)
Definition load_data (fs : gmap string file)
  : result (option tables * option string) :=
  match load_datasets fs with
  | Raise (FileNotFoundError path) =>
      Ok (None, Some ("Error loading file: " +:+ strerror path))
  | Raise e => Raise e
  | Ok (df_forest, df_tree, df_mangrove, df_agro) =>
      df_forest ← standardize "State/UTs" df_forest;
      df_tree ← standardize "State/ Uts" df_tree;
      df_mangrove ← standardize "state" df_mangrove;
      df_agro ← standardize "States" df_agro;
      df_forest ← convert "Geographical Area" df_forest;
      df_forest ← convert "Recorded Forest Area - Total" df_forest;
      df_mangrove ← convert "value" df_mangrove;
      df_tree ← convert "Tree Cover - Area" df_tree;
      master_df ← merging df_forest df_tree df_agro;
      Ok (Some {| forest := df_forest; tree := df_tree;
                  mangrove := df_mangrove; agro := df_agro;
                  master := master_df |}, None)
  end.

(** ** Notions used by the statements *)

Definition trimmed (s : str) : Prop :=
  (∀ c, head s = Some c → is_space c = false) ∧
  (∀ c, last s = Some c → is_space c = false).

(** One step of [do_title] on an ASCII character gives one ASCII character
    that is white space, or cased, exactly when the input is, and that the
    same step leaves alone. *)
Definition title_step (b : bool) (c : N) : str :=
  if b then to_lower c else to_title c.

Definition ascii_row_ok (b : bool) (c : N) : bool :=
  match title_step b c with
  | [c'] =>
      ascii_char c' && eqb (is_space c') (is_space c)
      && eqb (is_cased c') (is_cased c) && bool_decide (title_step b c' = [c'])
  | _ => false
  end.

(** Applying the normalizer to its own result. *)
Definition normalize_twice (s : str) : result str :=
  name ← clean_state_name (VStr s); clean_state_name (VStr name).

Definition j_caron_a : str := [0x1F0; 0x61]%N.

(** The characters that can occur in a string [float] accepts: digits,
    signs, the point, the exponent letter, the underscore, white space and
    the letters of inf, infinity and nan. *)
Definition float_char (c : N) : bool :=
  is_digit c || PyFloat.c_isspace c
  || bool_decide (c ∈ u "+-._eEinfatyINFATY").

Abbreviation fchars := (Forall (fun c => float_char c = true)).

(** [Py_TOLOWER] *)
Definition ascii_lower (c : N) : N :=
  if is_upper_ascii c then (c + 32)%N else c.

(** The string [t] holds the word [w], in upper or lower case. *)
Definition spells (w t : str) : Prop :=
  ∃ pre v post, t = pre ++ v ++ post ∧ map ascii_lower v = w.

(** The characters of a decimal literal: digits, signs, the point, the
    exponent letter, the underscore and white space. *)
Definition decimal_char (c : N) : bool :=
  is_digit c || PyFloat.c_isspace c || bool_decide (c ∈ u "+-._eE").

Definition decimal_text (t : str) : bool := forallb decimal_char t.

Abbreviation dchars := (Forall (fun c => decimal_char c = true)).

(** How many master rows a left row with key [k] gets from a join against
    the key column [rk]: one per matching row, and one when there is none. *)
Definition fanout (rk : Series) (k : pyval) : nat :=
  match positions_from 0 k rk with
  | [] => 1
  | js => length js
  end.

(** A key column after a left join against [rk]. *)
Definition expand (rk : Series) (lk : Series) : Series :=
  flat_map (fun k => replicate (fanout rk k) k) lk.

Definition name_cell (v : pyval) : bool := isna v || is_str v.

Definition names_ok (raw : string) (df : DataFrame) : bool :=
  match get_col raw df with
  | Ok s => forallb name_cell s
  | Raise _ => true
  end.

Definition rectangular (df : DataFrame) : bool :=
  forallb (fun cs => (length cs.2 =? len df)%nat) df.

(** The two forms of the fill value of [fillna(0)]: the integer in an
    object column, the float in a float column. *)
Definition is_zero (v : pyval) : bool :=
  bool_decide (v = VInt 0) || bool_decide (v = VFloat PyFloat.zero).

(** Applying the numeric coercer to a column, as step 3 does. *)
Definition coerced (s : Series) : Series :=
  maybe_convert_objects (map clean_numeric s).

(** The key column of the agro table as far as the master table uses it:
    empty when there is no rainfall column, so no join. *)
Definition agro_keys (a : DataFrame) : Series :=
  if has_column "Precipitation_mm" a then
    match get_col "State" a with
    | Ok ak => ak
    | Raise _ => []
    end
  else [].

Definition has_columns (cols : list string) (df : DataFrame) : bool :=
  forallb (fun c => has_column c df) cols.

(** The four files were read as the tables [f], [t], [m] and [a]. *)
Definition readable (fs : gmap string file) (f t m a : DataFrame) : Prop :=
  fs !! forest_path = Some (Table f) ∧ fs !! tree_path = Some (Table t)
  ∧ fs !! mangrove_path = Some (Table m) ∧ fs !! agro_path = Some (Table a).

(** Valid input: the forest table is rectangular, the forest, tree and agro
    tables have their raw-name column and the columns the master table
    takes, and every raw name is a string or a missing value. *)
Definition valid_tables (f t m a : DataFrame) : bool :=
  rectangular f
  && has_columns
       ["State/UTs"; "Recorded Forest Area - Total"; "Geographical Area"] f
  && names_ok "State/UTs" f
  && has_columns ["State/ Uts"; "Tree Cover - Area"] t
  && names_ok "State/ Uts" t
  && names_ok "state" m
  && has_column "States" a && names_ok "States" a.

(** The files in the order [load_data] reads them. *)
Definition sources : list string :=
  [forest_path; tree_path; mangrove_path; agro_path].

(** A file store with the four tables. *)
Definition store (f t m a : DataFrame) : gmap string file :=
  <[forest_path := Table f]> (<[tree_path := Table t]>
    (<[mangrove_path := Table m]> (<[agro_path := Table a]> ∅))).

Definition cell (s : string) : pyval := VStr (u s).

Definition ex_forest : DataFrame :=
  [ ("State/UTs", [cell " andhra pradesh "; cell "Sikkim"]);
    ("Recorded Forest Area - Total", [cell "2,75,069"; cell "5,841"]);
    ("Geographical Area", [cell "1,62,968"; cell "7,096"]) ].

Definition ex_tree : DataFrame :=
  [ ("State/ Uts", [cell "Andhra Pradesh"]);
    ("Tree Cover - Area", [cell "1,234"]) ].

Definition ex_mangrove : DataFrame :=
  [ ("state", [cell "Andhra Pradesh"]); ("year", [VInt 2023]);
    ("value", [VInt 405]) ].

Definition ex_agro : DataFrame :=
  [ ("States", [cell "Andhra Pradesh"; cell "Sikkim"]);
    ("Precipitation_mm", [VInt 912; VInt 2739]) ].

(** Two spellings of one region in the tree table. *)
Definition ex_tree_twice : DataFrame :=
  [ ("State/ Uts", [cell "Andhra Pradesh"; cell "ANDHRA PRADESH "]);
    ("Tree Cover - Area", [cell "1,234"; cell "1,300"]) ].

(** Two rows for one region in the agro table. *)
Definition ex_agro_twice : DataFrame :=
  [ ("States", [cell "Sikkim"; cell "sikkim"]);
    ("Precipitation_mm", [VInt 2739; VInt 2800]) ].

(** A forest table with an infinite area. *)
Definition ex_forest_inf : DataFrame :=
  [ ("State/UTs", [cell "Andhra Pradesh"; cell "Sikkim"]);
    ("Recorded Forest Area - Total", [cell "2,75,069"; cell "5,841"]);
    ("Geographical Area", [cell "1,62,968"; cell "inf"]) ].

(** A forest table that comes with a [State] column and no raw-name
    column. *)
Definition ex_forest_state : DataFrame :=
  [ ("State", [cell "Sikkim"]);
    ("Recorded Forest Area - Total", [cell "5,841"]);
    ("Geographical Area", [cell "7,096"]) ].

Definition regions (df : DataFrame) : result Series := get_col "State" df.

(** ** Notions used by the properties of the returned tables *)

(** The labels of a table after [df[col] = s]. *)
Definition with_label (col : string) (df : DataFrame) : list string :=
  if has_column col df then columns df else columns df ++ [col].

(** The labels of a table after step 2: [State] is added when the raw-name
    column is there. *)
Definition standardized_labels (raw : string) (df : DataFrame) : list string :=
  if has_column raw df then with_label "State" df else columns df.

(** [names] is the column [s] of raw names, normalized cell by cell. *)
Definition normalized (s names : Series) : Prop :=
  Forall2 (fun v n => ∃ name, clean_state_name v = Ok name ∧ n = VStr name)
    s names.

(** The tables [load_data] returned, as a total function for examples. *)
Definition returned (fs : gmap string file) : tables :=
  match load_data fs with
  | Ok (Some tb, _) => tb
  | _ => {| forest := []; tree := []; mangrove := []; agro := [];
            master := [] |}
  end.

Definition ex_store : gmap string file :=
  store ex_forest ex_tree ex_mangrove ex_agro.

(** The left and the right indexer of a join. *)
Definition left_indexer (lk rk : Series) : list (option nat) :=
  map (fun ij => Some ij.1) (left_join_indexers lk rk).

Definition right_indexer (lk rk : Series) : list (option nat) :=
  map snd (left_join_indexers lk rk).

(** The master table before [fillna], without and with the rainfall. *)
Definition master_of_tree (lk a1 a2 rk rv : Series) : DataFrame :=
  [ ("State", take lk (left_indexer lk rk));
    ("Recorded Forest Area - Total", take a1 (left_indexer lk rk));
    ("Geographical Area", take a2 (left_indexer lk rk));
    ("Tree Cover - Area", reindex rv (right_indexer lk rk)) ].

Definition master_of_agro (m1 : DataFrame) (mk ak av : Series) : DataFrame :=
  map (fun cs => (cs.1, take cs.2 (left_indexer mk ak))) m1
  ++ [("Precipitation_mm", reindex av (right_indexer mk ak))].

(** A cell [v] of a left column as the master table holds it: the cell
    itself, or a zero of [fillna(0)] in place of a missing value. *)
Definition filled (v z : pyval) : Prop :=
  if isna v then is_zero z = true else z = v.

(** A cell [v] of a right column as the master table holds it: an integer
    may have become the float of the same value. *)
Definition carried (v z : pyval) : Prop :=
  if isna v then is_zero z = true else z = v ∨ z = as_float v.

(** A cell of the right table in a master row with key [k]: the zero of
    [fillna(0)] when no row of the right table has the key, and otherwise
    the cell of one row that has it. *)
Definition joined_cell (k : pyval) (rk rv : Series) (oz : option pyval)
  : Prop :=
  ((k ∉ rk) ∧ ∃ z, oz = Some z ∧ is_zero z = true)
  ∨ (∃ j, rk !! j = Some k
          ∧ ∀ v, rv !! j = Some v → ∃ z, oz = Some z ∧ carried v z).

(** A cell of the right table in the master row of Region [k], when the
    right table has that Region at most once. *)
Definition matched_cell (k : pyval) (rk rv : Series) (oz : option pyval)
  : Prop :=
  ((k ∉ rk) → ∃ z, oz = Some z ∧ is_zero z = true)
  ∧ ∀ j v, rk !! j = Some k → rv !! j = Some v →
      ∃ z, oz = Some z ∧ carried v z.

(** The first cell of the raw-name column that is neither a string nor a
    missing value. *)
Definition first_bad_name (raw : string) (df : DataFrame) : option pyval :=
  match get_col raw df with
  | Ok s => head (filter (fun v => name_cell v = false) s)
  | Raise _ => None
  end.

(** The tables with their raw-name columns, in the order of step 2. *)
Definition name_columns (f t m a : DataFrame) : list (string * DataFrame) :=
  [("State/UTs", f); ("State/ Uts", t); ("state", m); ("States", a)].

(** The labels of [cols] that [df] lacks. *)
Definition missing (cols : list string) (df : DataFrame) : list string :=
  filter (fun c => c ∉ columns df) cols.

(** A mangrove table whose first name is a number. *)
Definition ex_mangrove_number : DataFrame :=
  [ ("state", [VInt 7; cell "Goa"]); ("year", [VInt 2023; VInt 2023]);
    ("value", [VInt 405; VInt 26]) ].

Definition all_names_ok (f t m a : DataFrame) : bool :=
  forallb (fun rd => names_ok rd.1 rd.2) (name_columns f t m a).

(** A forest table without its geographical area. *)
Definition ex_forest_no_area : DataFrame :=
  [ ("State/UTs", [cell "Sikkim"]);
    ("Recorded Forest Area - Total", [cell "5,841"]) ].

(** An agro table without rainfall, and without names. *)
Definition ex_agro_bare : DataFrame := [ ("Crop", [cell "Rice"]) ].

Abbreviation spaces := (Forall (fun c => is_space c = true)).

(** The variant spellings of the alias table: the keys that are not their
    own canonical name. *)
Definition variants : list str :=
  (filter (fun kv => kv.1 ≠ kv.2) replacements_items).*1.

Abbreviation digits := (Forall (fun c => is_digit c = true)).

Abbreviation cspaces := (Forall (fun c => c_isspace c = true)).

(** The optional sign of a number: its text, and whether it negates. *)
Definition signs : list (str * bool) :=
  [([], false); (u "+", false); (u "-", true)].

(** ** The cached loader of app.py *)

(** The cache of [st.cache_data] for [get_data], a function without
    arguments: empty, or the value the first call that returned has
    returned. *)
Definition cache : Type := option (option tables * option string).

(** [get_data()] under [@st.cache_data]: a stored value is returned without
    running the body; otherwise the body runs, and what it returns is
    stored.  A call that raises stores nothing. *)
Definition get_data (c : cache) (fs : gmap string file)
  : result (option tables * option string) * cache :=
  match c with
  | Some v => (Ok v, c)
  | None =>
      match load_data fs with
      | Ok v => (Ok v, Some v)
      | Raise e => (Raise e, None)
      end
  end.

(** The successive calls of [get_data] while the app is up: the script
    runs again on every interaction, each time on the files as they are
    then. *)
Fixpoint get_data_runs (c : cache) (stores : list (gmap string file))
  : list (result (option tables * option string)) :=
  match stores with
  | [] => []
  | fs :: stores' =>
      let '(r, c') := get_data c fs in r :: get_data_runs c' stores'
  end.

(** ** The map check of debug_map.py *)

#[global] Instance spec_float_countable : Countable spec_float.
Proof.
  refine (inj_countable'
    (fun x => match x with
              | S754_zero s => inl (inl s)
              | S754_infinity s => inl (inr s)
              | S754_nan => inr (inl ())
              | S754_finite s m e => inr (inr (s, m, e))
              end)
    (fun y => match y with
              | inl (inl s) => S754_zero s
              | inl (inr s) => S754_infinity s
              | inr (inl _) => S754_nan
              | inr (inr (s, m, e)) => S754_finite s m e
              end) _).
  by intros [].
Defined.

#[global] Instance pyval_countable : Countable pyval.
Proof.
  refine (inj_countable'
    (fun v => match v with
              | VNone => inl (inl ())
              | VBool b => inl (inr b)
              | VInt z => inr (inl z)
              | VFloat x => inr (inr (inl x))
              | VStr s => inr (inr (inr s))
              end)
    (fun y => match y with
              | inl (inl _) => VNone
              | inl (inr b) => VBool b
              | inr (inl z) => VInt z
              | inr (inr (inl x)) => VFloat x
              | inr (inr (inr s)) => VStr s
              end) _).
  by intros [].
Defined.

(** How a script ends when it does not run to its end: with an exception
    that [load_data] raised, or with one of its own. *)
Inductive script_exn :=
  | Uncaught (e : exn)
  | TypeError
  | IndexError.

Inductive outcome (A : Type) :=
  | Done (a : A)
  | Fails (e : script_exn).
Arguments Done {A} a.
Arguments Fails {A} e.

(** The name a feature of the GeoJSON adds to [geojson_states]: the value
    of the first of the three keys its properties have. *)
Definition feature_name (props : gmap string str) : option str :=
  match props !! "st_nm" with
  | Some name => Some name
  | None =>
      match props !! "state_name" with
      | Some name => Some name
      | None => props !! "NAME_1"
      end
  end.

(** The loop over [geojson['features']]. *)
Definition feature_states (features : list (gmap string str)) : gset pyval :=
  list_to_set (omap (fun props => VStr <$> feature_name props) features).

Definition is_number (v : pyval) : bool :=
  match v with
  | VBool _ | VInt _ | VFloat _ => true
  | _ => false
  end.

(** [sorted] can order strings, and numbers, and a list of one element;
    a string beside a number, or [None] beside anything, is its
    TypeError. *)
Definition sortable (l : list pyval) : bool :=
  (length l <=? 1) || forallb is_str l || forallb is_number l.

(** The four sets the map check prints. *)
Record report := {
  geojson_states : gset pyval;
  df_states : gset pyval;
  in_geojson_not_df : gset pyval;
  in_df_not_geojson : gset pyval
}.

(** debug_map.py, for the features of the GeoJSON it has fetched.  Its
    prints are left out, but for the [sorted] of the second one, which can
    raise.  Elements of a set compare as values. *)
Definition debug_map (fs : gmap string file)
    (features : list (gmap string str)) : outcome report :=
  match load_data fs with
  | Raise e => Fails (Uncaught e)
  | Ok (None, _) => Fails TypeError
  | Ok (Some data_dict, _) =>
      let master_df := master data_dict in
      let geojson_states := feature_states features in
      match get_col "State" master_df with
      | Raise e => Fails (Uncaught e)
      | Ok s =>
          let df_states : gset pyval := list_to_set s in
          if sortable (elements df_states) then
            Done {| geojson_states := geojson_states;
                    df_states := df_states;
                    in_geojson_not_df := geojson_states ∖ df_states;
                    in_df_not_geojson := df_states ∖ geojson_states |}
          else Fails TypeError
      end
  end.

(** ** The map page of app.py *)

(** [v == n] for an [int] literal [n], as the comparison of a column with
    a scalar does it cell by cell ([n] is small enough to be a float). *)
Definition eq_int (v : pyval) (n : Z) : bool :=
  match v with
  | VInt z => (z =? n)%Z
  | VBool b => ((if b then 1 else 0) =? n)%Z
  | VFloat x => SFeqb x (float_of_int n)
  | _ => false
  end.

(** The positions where a boolean mask holds, counted from [i]. *)
Fixpoint kept_from (i : nat) (mask : list bool) : list nat :=
  match mask with
  | [] => []
  | b :: mask' => (if b then [i] else []) ++ kept_from (S i) mask'
  end.

(** [df[mask]]: the rows where the mask holds, in their order. *)
Definition mask_rows (mask : list bool) (df : DataFrame) : DataFrame :=
  map (fun cs => (cs.1, omap (cs.2 !!.) (kept_from 0 mask))) df.

(** [df.rename(columns={old: new})] *)
Definition rename (old new : string) (df : DataFrame) : DataFrame :=
  map (fun cs => (if decide (cs.1 = old) then new else cs.1, cs.2)) df.

(** The map layer of app.py, the body of
    [if "Mangroves (2023)" == map_metric:], for a master table that has no
    [value] column of its own. *)
Definition mangrove_layer (master_df df_mangrove : DataFrame)
  : result DataFrame :=
  year ← get_col "year" df_mangrove;
  let mangrove_2023 :=
    mask_rows (map (fun v => eq_int v 2023) year) df_mangrove in
  master_df ←
    (if negb (has_column "Mangroves (2023)" master_df) then
       right ← select ["State"; "value"] mangrove_2023;
       merged ← merge_left master_df right "State";
       Ok (rename "value" "Mangroves (2023)" merged)
     else Ok master_df);
  layer ← get_col "Mangroves (2023)" master_df;
  Ok (set_col "Mangroves (2023)" (fill_series (VInt 0) layer) master_df).

(** [df.iloc[0]]: the first row, a cell for every label. *)
Definition iloc0 (df : DataFrame) : outcome (list (string * pyval)) :=
  if (len df =? 0)%nat then Fails IndexError
  else Done (map (fun cs => (cs.1, default nan (head cs.2))) df).

(** The drill-down of app.py:
    [master_df[master_df['State'] == selected_state].iloc[0]] *)
Definition state_data (master_df : DataFrame) (selected_state : str)
  : outcome (list (string * pyval)) :=
  match get_col "State" master_df with
  | Raise e => Fails (Uncaught e)
  | Ok s =>
      iloc0 (mask_rows (map (fun v => bool_decide (v = VStr selected_state)) s)
               master_df)
  end.

(** * Properties *)

(** Running a bind whose first computation is known. *)
Ltac run_bind := cbn [mbind result_bind].

(** ** Strings *)

Lemma lstrip_split s :
  ∃ l, s = l ++ lstrip s ∧ Forall (fun c => is_space c = true) l.
Proof.
  induction s as [|c s [l [E F]]]; simpl.
  - exists []. by split.
  - destruct (is_space c) eqn:Hc.
    + exists (c :: l). split; [simpl; by rewrite <- E | by constructor].
    + exists []. by split.
Qed.

Lemma lstrip_head s c : head (lstrip s) = Some c → is_space c = false.
Proof.
  induction s as [|a s IH]; simpl; [done|].
  destruct (is_space a) eqn:Ha; [done|]. simpl. by intros [= <-].
Qed.

Lemma lstrip_id s : (∀ c, head s = Some c → is_space c = false) → lstrip s = s.
Proof.
  destruct s as [|a s]; simpl; [done|]. intros H. by rewrite (H a).
Qed.

Lemma lstrip_last s c :
  (∀ c, last s = Some c → is_space c = false) →
  last (lstrip s) = Some c → is_space c = false.
Proof.
  induction s as [|a s IH]; simpl; [done|].
  intros H. destruct (is_space a) eqn:Ha; [|by apply H].
  apply IH. intros d Hd. apply H.
  destruct s; [done|]. done.
Qed.

Lemma head_rev (s : str) : head (rev s) = last s.
Proof.
  rewrite rev_alt. apply head_reverse.
Qed.

Lemma last_rev (s : str) : last (rev s) = head s.
Proof.
  rewrite rev_alt. apply last_reverse.
Qed.

Lemma strip_split s :
  ∃ l r, s = l ++ strip s ++ r
         ∧ Forall (fun c => is_space c = true) l
         ∧ Forall (fun c => is_space c = true) r.
Proof.
  destruct (lstrip_split s) as [l [E Fl]].
  destruct (lstrip_split (rev (lstrip s))) as [r [Er Fr]].
  exists l, (rev r). split; [|split; [done|]].
  - rewrite E at 1. f_equal. unfold strip, rstrip.
    rewrite <- rev_app_distr, <- Er. by rewrite rev_involutive.
  - rewrite rev_alt. by apply Forall_reverse.
Qed.

Lemma strip_trimmed s : trimmed (strip s).
Proof.
  unfold strip, rstrip. split; intros c.
  - rewrite <- last_rev, rev_involutive. apply lstrip_last.
    intros d. rewrite last_rev. apply lstrip_head.
  - rewrite <- head_rev, rev_involutive. apply lstrip_head.
Qed.

Lemma trimmed_strip s : trimmed s → strip s = s.
Proof.
  intros [Hh Hl]. unfold strip, rstrip.
  rewrite (lstrip_id s Hh), lstrip_id; [apply rev_involutive|].
  intros c. rewrite head_rev. apply Hl.
Qed.

Lemma strip_idempotent s : strip (strip s) = strip s.
Proof. apply trimmed_strip, strip_trimmed. Qed.

(** ** The name normalizer *)

Lemma ascii_rows_ok :
  forallb (fun c => ascii_row_ok true c && ascii_row_ok false c)
    (map N.of_nat (seq 0 128)) = true.
Proof. vm_compute. reflexivity. Qed.

Lemma title_step_ascii b c :
  ascii_char c = true →
  ∃ c', title_step b c = [c'] ∧ ascii_char c' = true
        ∧ is_space c' = is_space c ∧ is_cased c' = is_cased c
        ∧ title_step b c' = [c'].
Proof.
  intros Hc. unfold ascii_char in Hc. apply N.ltb_lt in Hc.
  pose proof ascii_rows_ok as H. rewrite forallb_forall in H.
  specialize (H c). 
  assert (Hin : In c (map N.of_nat (seq 0 128))).
  { apply in_map_iff. exists (N.to_nat c). split; [apply N2Nat.id|].
    apply in_seq. lia. }
  specialize (H Hin). apply andb_true_iff in H as [Ht Hf].
  assert (Hb : ascii_row_ok b c = true) by (by destruct b).
  unfold ascii_row_ok in Hb.
  destruct (title_step b c) as [|c' [|? ?]]; try done.
  exists c'. repeat (apply andb_true_iff in Hb as [Hb ?]).
  repeat split; try done; try (by apply eqb_prop).
  match goal with H : bool_decide _ = true |- _ => by apply bool_decide_eq_true in H end.
Qed.

Lemma do_title_cons b c s :
  do_title b (c :: s) = title_step b c ++ do_title (is_cased c) s.
Proof. reflexivity. Qed.

Lemma do_title_ascii b s :
  ascii_str s = true →
  ascii_str (do_title b s) = true
  ∧ do_title b (do_title b s) = do_title b s
  ∧ Forall2 (fun c c' => is_space c' = is_space c) s (do_title b s).
Proof.
  revert b. induction s as [|c s IH]; intros b Hs; [by repeat split|].
  apply andb_true_iff in Hs as [Hc Hs].
  destruct (title_step_ascii b c Hc) as (c' & E & Ha & Hsp & Hca & Hfix).
  destruct (IH (is_cased c) Hs) as (IH1 & IH2 & IH3).
  rewrite do_title_cons, E. cbn [app].
  rewrite do_title_cons, Hfix, Hca, IH2. cbn [app ascii_str forallb].
  rewrite Ha. split; [exact IH1|split; [done|]].
  by constructor.
Qed.

Lemma trimmed_Forall2 (s t : str) :
  Forall2 (fun c c' => is_space c' = is_space c) s t → trimmed s → trimmed t.
Proof.
  intros HF [Hh Hl]. pose proof (Forall2_length _ _ _ HF) as Hlen.
  split; intros c'.
  - rewrite head_lookup. intros Hc.
    destruct (Forall2_lookup_r _ _ _ _ _ HF Hc) as (c & Hs & ->).
    apply Hh. by rewrite head_lookup.
  - rewrite last_lookup. intros Hc.
    destruct (Forall2_lookup_r _ _ _ _ _ HF Hc) as (c & Hs & ->).
    apply Hl. rewrite last_lookup. by rewrite Hlen.
Qed.

Lemma ascii_str_app s t :
  ascii_str (s ++ t) = ascii_str s && ascii_str t.
Proof. apply forallb_app. Qed.

Lemma strip_ascii s : ascii_str s = true → ascii_str (strip s) = true.
Proof.
  intros H. destruct (strip_split s) as (l & r & E & _). rewrite E in H.
  rewrite !ascii_str_app in H.
  apply andb_true_iff in H as [_ H]. by apply andb_true_iff in H as [H _].
Qed.

(** On ASCII input [strip] then [title] reaches a fixed point at once. *)
Lemma title_strip_fixed s :
  ascii_str s = true →
  title (strip (title (strip s))) = title (strip s).
Proof.
  intros H. apply strip_ascii in H.
  destruct (do_title_ascii false (strip s) H) as (_ & Hid & HF).
  rewrite (trimmed_strip (title (strip s))).
  - exact Hid.
  - eapply trimmed_Forall2; [exact HF|apply strip_trimmed].
Qed.

Lemma replacements_lookup k v :
  replacements !! k = Some v ↔ (k, v) ∈ replacements_items.
Proof.
  unfold replacements. split.
  - apply elem_of_list_to_map_2.
  - apply elem_of_list_to_map_1.
    apply (bool_decide_unpack _). vm_compute. exact I.
Qed.

Lemma replacements_values_fixed k v :
  replacements !! k = Some v → clean_state_name (VStr v) = Ok v.
Proof.
  intros H. apply replacements_lookup in H.
  unfold replacements_items in H.
  repeat (apply elem_of_cons in H as [[= -> ->]|H]; [vm_compute; reflexivity|]).
  by apply elem_of_nil in H.
Qed.

Lemma clean_state_name_str s :
  clean_state_name (VStr s)
  = Ok (get_or replacements (title (strip s)) (title (strip s))).
Proof. reflexivity. Qed.

(** Claim C5, as amended: on every ASCII string the name normalizer is
    idempotent, [clean_state_name(clean_state_name(s)) ==
    clean_state_name(s)]. *)
Theorem clean_state_name_idempotent_ascii (s : str) :
  ascii_str s = true → normalize_twice s = clean_state_name (VStr s).
Proof.
  intros Hs. unfold normalize_twice. rewrite (clean_state_name_str s).
  run_bind. unfold get_or.
  destruct (replacements !! title (strip s)) as [v|] eqn:E; cbn [default].
  - eapply replacements_values_fixed, E.
  - rewrite clean_state_name_str, (title_strip_fixed s Hs).
    unfold get_or. by rewrite E.
Qed.

Lemma clean_state_name_idempotent_ascii_witness :
  ascii_str (u " a & n islands ") = true
  ∧ normalize_twice (u " a & n islands ")
    = clean_state_name (VStr (u " a & n islands ")).
Proof.
  split; [reflexivity|].
  apply (clean_state_name_idempotent_ascii (u " a & n islands ")).
  reflexivity.
Defined.

(** Claim C5 as stated fails outside ASCII.  The title-case form of U+01F0
    is J followed by a combining caron, which is not a cased character: the
    first pass leaves the letter after U+01F0 in lower case and the second
    pass, finding it after the caron, capitalises it. *)
Lemma clean_state_name_not_idempotent :
  clean_state_name (VStr j_caron_a) = Ok [0x4A; 0x30C; 0x61]%N
  ∧ normalize_twice j_caron_a = Ok [0x4A; 0x30C; 0x41]%N
  ∧ normalize_twice j_caron_a ≠ clean_state_name (VStr j_caron_a).
Proof. vm_compute. repeat split; congruence. Qed.

(** The sentinel is a fixed point too. *)
Lemma clean_state_name_unknown_fixed v :
  isna v = true →
  (name ← clean_state_name v; clean_state_name (VStr name))
  = clean_state_name v.
Proof.
  intros H. assert (E : clean_state_name v = Ok (u "Unknown")).
  { unfold clean_state_name. by rewrite H. }
  rewrite E. reflexivity.
Qed.



(** Claim C10: on a value that is neither a missing value nor a string the
    name normalizer raises AttributeError (the value has no [strip]); it
    returns a name exactly on missing values and strings. *)
Theorem clean_state_name_partial (v : pyval) :
  (isna v = false → is_str v = false →
   clean_state_name v = Raise (AttributeError (type_name v) "strip"))
  ∧ ((∃ name, clean_state_name v = Ok name)
     ↔ isna v = true ∨ is_str v = true).
Proof.
  split.
  - intros Hna Hstr. unfold clean_state_name. rewrite Hna.
    by destruct v.
  - split.
    + intros [name H]. unfold clean_state_name in H.
      destruct (isna v) eqn:Hna; [by left|right].
      by destruct v.
    + intros [H|H].
      * exists (u "Unknown"). unfold clean_state_name. by rewrite H.
      * destruct v; try done. eexists. apply clean_state_name_str.
Qed.

Lemma clean_state_name_partial_witness :
  isna (VInt 5) = false ∧ is_str (VInt 5) = false
  ∧ clean_state_name (VInt 5) = Raise (AttributeError "int" "strip").
Proof.
  split; [reflexivity|split; [reflexivity|]].
  apply (proj1 (clean_state_name_partial (VInt 5))); reflexivity.
Defined.

(** ** The numeric coercer

    What [float] reads: every character of an accepted ASCII string is in
    the alphabet of float literals. *)


Lemma fchars_app s t : fchars s → fchars t → fchars (s ++ t).
Proof. intros. by apply Forall_app. Qed.

Lemma digit_float_char c : is_digit c = true → float_char c = true.
Proof. intros H. unfold float_char. by rewrite H. Qed.

Lemma c_isspace_float_char c : c_isspace c = true → float_char c = true.
Proof. intros H. unfold float_char. rewrite H. by rewrite orb_true_r. Qed.

Lemma span_digits_spec s ds rest :
  span_digits s = (ds, rest) → s = ds ++ rest ∧ fchars ds.
Proof.
  revert ds rest. induction s as [|c s IH]; intros ds rest; simpl.
  - intros [= <- <-]. by split.
  - destruct (is_digit c) eqn:Hc.
    + destruct (span_digits s) as [ds' rest'] eqn:E. intros [= <- <-].
      destruct (IH _ _ eq_refl) as [-> F]. split; [done|].
      constructor; [by apply digit_float_char|done].
    + intros [= <- <-]. by split.
Qed.

Lemma take_sign_spec s neg r :
  take_sign s = (neg, r) → ∃ sg, s = sg ++ r ∧ fchars sg.
Proof.
  destruct s as [|c s]; simpl.
  - intros [= <- <-]. exists []. by split.
  - destruct (N.eqb_spec c 0x2D) as [->|].
    { intros [= <- <-]. exists [0x2D%N]. split; [done|]. by constructor. }
    destruct (N.eqb_spec c 0x2B) as [->|].
    { intros [= <- <-]. exists [0x2B%N]. split; [done|]. by constructor. }
    intros [= <- <-]. exists []. by split.
Qed.

Lemma parse_exponent_spec s e rest :
  parse_exponent s = (e, rest) → ∃ used, s = used ++ rest ∧ fchars used.
Proof.
  destruct s as [|c s]; simpl.
  - intros [= <- <-]. exists []. by split.
  - destruct ((c =? 0x65)%N || (c =? 0x45)%N) eqn:Hc.
    + destruct (take_sign s) as [esign r1] eqn:E1.
      destruct (span_digits r1) as [ds rest'] eqn:E2.
      destruct (take_sign_spec _ _ _ E1) as (sg & -> & Fsg).
      destruct (span_digits_spec _ _ _ E2) as (-> & Fds).
      destruct ds as [|d ds].
      * intros [= <- <-]. exists []. by split.
      * intros [= <- <-]. exists (c :: sg ++ d :: ds). split.
        { simpl. by rewrite <- app_assoc. }
        constructor; [|by apply fchars_app].
        apply orb_true_iff in Hc as [Hc|Hc]; apply N.eqb_eq in Hc;
          by subst c.
    + intros [= <- <-]. exists []. by split.
Qed.

Lemma strtod_spec s x rest :
  strtod s = Some (x, rest) → ∃ used, s = used ++ rest ∧ fchars used.
Proof.
  unfold strtod.
  destruct (take_sign s) as [neg s1] eqn:E1.
  destruct (span_digits s1) as [ip s2] eqn:E2.
  destruct (take_sign_spec _ _ _ E1) as (sg & -> & Fsg).
  destruct (span_digits_spec _ _ _ E2) as (-> & Fip).
  assert (Hfp : ∀ fp s3,
    match s2 with
    | c :: r => if (c =? 0x2E)%N then span_digits r else ([], s2)
    | [] => ([], s2)
    end = (fp, s3) → ∃ pt, s2 = pt ++ s3 ∧ fchars pt).
  { intros fp s3. destruct s2 as [|c r].
    - intros [= <- <-]. exists []. by split.
    - destruct (N.eqb_spec c 0x2E) as [->|].
      + intros E. destruct (span_digits_spec _ _ _ E) as (-> & F).
        exists (0x2E%N :: fp). split; [done|]. by constructor.
      + intros [= <- <-]. exists []. by split. }
  destruct (match s2 with [] => _ | _ => _ end) as [fp s3] eqn:E3.
  destruct (Hfp _ _ eq_refl) as (pt & -> & Fpt).
  destruct (ip ++ fp) as [|d ds]; [done|].
  destruct (parse_exponent s3) as [e rest'] eqn:E4.
  destruct (parse_exponent_spec _ _ _ E4) as (ex & -> & Fex).
  intros [= _ <-]. exists (sg ++ ip ++ pt ++ ex). split.
  - by rewrite <- !app_assoc.
  - by repeat apply fchars_app.
Qed.

Lemma match_word_spec w s r :
  match_word w s = Some r →
  ∃ used, s = used ++ r
          ∧ Forall (fun c => (if is_upper_ascii c then c + 32 else c)%N ∈ w) used.
Proof.
  revert s. induction w as [|a w IH]; intros s; simpl.
  - intros [= <-]. exists []. by split.
  - destruct s as [|c s]; [done|].
    destruct (N.eqb_spec a (if is_upper_ascii c then c + 32 else c)%N) as [E|];
      [|done].
    intros H. destruct (IH _ H) as (used & -> & F). exists (c :: used).
    split; [done|]. constructor.
    + rewrite <- E. by left.
    + eapply Forall_impl; [exact F|]. intros ? ?. by right.
Qed.



Lemma word_float_char (w : str) c :
  w ∈ [u "inf"; u "inity"; u "nan"] →
  (if is_upper_ascii c then c + 32 else c)%N ∈ w → float_char c = true.
Proof.
  intros Hw Hc.
  remember (if is_upper_ascii c then c + 32 else c)%N as d eqn:E.
  assert (Hd : d ∈ u "infaty").
  { repeat (apply elem_of_cons in Hw as [->|Hw]);
      [..|by apply elem_of_nil in Hw];
      vm_compute in Hc |- *;
      repeat (apply elem_of_cons in Hc as [->|Hc]; [set_solver|]);
      by apply elem_of_nil in Hc. }
  clear Hw Hc. vm_compute in Hd.
  destruct (is_upper_ascii c) eqn:Hu.
  - repeat (apply elem_of_cons in Hd as [->|Hd];
            [apply (f_equal (fun x => (x - 32)%N)) in E;
             rewrite N.add_sub in E; subst c; reflexivity|]).
    by apply elem_of_nil in Hd.
  - subst d.
    repeat (apply elem_of_cons in Hd as [->|Hd]; [reflexivity|]).
    by apply elem_of_nil in Hd.
Qed.

Lemma parse_inf_or_nan_spec s x rest :
  parse_inf_or_nan s = Some (x, rest) → ∃ used, s = used ++ rest ∧ fchars used.
Proof.
  unfold parse_inf_or_nan.
  destruct (take_sign s) as [neg s1] eqn:E1.
  destruct (take_sign_spec _ _ _ E1) as (sg & -> & Fsg).
  assert (Hw : ∀ w t r, w ∈ [u "inf"; u "inity"; u "nan"] →
                match_word w t = Some r → ∃ used, t = used ++ r ∧ fchars used).
  { intros w t r Hin H. destruct (match_word_spec _ _ _ H) as (used & -> & F).
    exists used. split; [done|]. eapply Forall_impl; [exact F|].
    intros c. by apply word_float_char. }
  destruct (match_word (u "inf") s1) as [r|] eqn:E2.
  - destruct (Hw (u "inf") _ _ ltac:(by left) E2) as (u1 & -> & F1).
    destruct (match_word (u "inity") r) as [r'|] eqn:E3.
    + destruct (Hw (u "inity") _ _ ltac:(by right; left) E3)
        as (u2 & -> & F2).
      intros [= _ <-]. exists (sg ++ u1 ++ u2). split.
      * by rewrite <- !app_assoc.
      * by repeat apply fchars_app.
    + intros [= _ <-]. exists (sg ++ u1). split.
      * by rewrite <- !app_assoc.
      * by repeat apply fchars_app.
  - destruct (match_word (u "nan") s1) as [r|] eqn:E3; [|done].
    destruct (Hw (u "nan") _ _ ltac:(by right; right; left) E3)
      as (u1 & -> & F1).
    intros [= _ <-]. exists (sg ++ u1). split.
    + by rewrite <- !app_assoc.
    + by repeat apply fchars_app.
Qed.

Lemma c_lstrip_split s :
  ∃ l, s = l ++ c_lstrip s ∧ Forall (fun c => c_isspace c = true) l.
Proof.
  induction s as [|c s [l [E F]]]; simpl.
  - exists []. by split.
  - destruct (c_isspace c) eqn:Hc.
    + exists (c :: l). split; [simpl; by rewrite <- E | by constructor].
    + exists []. by split.
Qed.

Lemma float_from_string_inner_chars s x :
  float_from_string_inner s = Some x → fchars s.
Proof.
  unfold float_from_string_inner.
  destruct (c_lstrip_split s) as (l & El & Fl).
  destruct (c_lstrip_split (rev (c_lstrip s))) as (r & Er & Fr).
  set (core := rev (c_lstrip (rev (c_lstrip s)))) in *.
  assert (Es : s = l ++ core ++ rev r).
  { rewrite El at 1. f_equal. unfold core.
    rewrite <- rev_app_distr, <- Er. by rewrite rev_involutive. }
  intros H. assert (Hcore : fchars core).
  { destruct core as [|c0 core0] eqn:Ec; [done|]. rewrite <- Ec in *.
    destruct (strtod core) as [[y rest]|] eqn:E1.
    - destruct rest; [|done].
      destruct (strtod_spec _ _ _ E1) as (used & -> & F).
      by rewrite app_nil_r.
    - destruct (parse_inf_or_nan core) as [[y rest]|] eqn:E2; [|done].
      destruct rest; [|done].
      destruct (parse_inf_or_nan_spec _ _ _ E2) as (used & -> & F).
      by rewrite app_nil_r. }
  rewrite Es. repeat apply fchars_app; [|done|].
  - eapply Forall_impl; [exact Fl|]. apply c_isspace_float_char.
  - rewrite rev_alt. apply Forall_reverse.
    eapply Forall_impl; [exact Fr|]. apply c_isspace_float_char.
Qed.

Lemma remove_underscores_chars prev s t :
  remove_underscores prev s = Some t → fchars t → fchars s.
Proof.
  revert prev t. induction s as [|c s IH]; intros prev t; simpl; [done|].
  destruct (N.eqb_spec c 0x5F) as [->|Hc].
  - destruct (is_digit prev); [|done]. intros H F.
    constructor; [done|]. by eapply IH.
  - destruct ((prev =? 0x5F)%N && negb (is_digit c)); [done|].
    destruct (remove_underscores c s) as [t'|] eqn:E; [|done].
    intros [= <-] F. apply Forall_cons in F as [? ?].
    constructor; [done|]. by eapply IH.
Qed.

Lemma transform_to_ascii_id s :
  ascii_str s = true → transform_to_ascii s = s.
Proof. intros H. unfold transform_to_ascii. by rewrite H. Qed.

(** A string that [float] accepts holds no character outside its
    alphabet: the parse is of the whole string. *)
Lemma float_of_str_chars s x :
  ascii_str s = true → float_of_str s = Some x → fchars s.
Proof.
  intros Hs. unfold float_of_str. rewrite (transform_to_ascii_id s Hs).
  destruct (remove_underscores 0 s) as [t|] eqn:E; [|done]. simpl.
  intros H. eapply remove_underscores_chars; [exact E|].
  by eapply float_from_string_inner_chars.
Qed.

Lemma remove_char_elem old s c :
  c ∈ remove_char old s ↔ c ∈ s ∧ c ≠ old.
Proof. unfold remove_char. rewrite list_elem_of_filter. tauto. Qed.

Lemma remove_char_ascii old s :
  ascii_str s = true → ascii_str (remove_char old s) = true.
Proof.
  unfold ascii_str. rewrite !forallb_forall. intros H c Hc.
  apply list_elem_of_In, remove_char_elem in Hc as [Hc _].
  by apply H, list_elem_of_In.
Qed.

(** *** Values that are not finite

    Rounding never makes a NaN: the only NaN [float] returns is the one it
    reads in letters, and an infinity is read in letters or is a decimal
    literal beyond the range. *)

Lemma shr_1_nonneg mrs : (0 ≤ shr_m mrs)%Z → (0 ≤ shr_m (shr_1 mrs))%Z.
Proof.
  destruct mrs as [m r s]. simpl. intros H.
  destruct m as [|[p|p|]|p]; simpl; lia.
Qed.

Lemma iter_pos_nonneg p mrs :
  (0 ≤ shr_m mrs)%Z → (0 ≤ shr_m (SpecFloat.iter_pos shr_1 p mrs))%Z.
Proof.
  revert mrs. induction p as [p IH|p IH|]; intros mrs H; simpl.
  - by apply IH, IH, shr_1_nonneg.
  - by apply IH, IH.
  - by apply shr_1_nonneg.
Qed.

Lemma shr_fexp_nonneg m e l :
  (0 ≤ m)%Z → (0 ≤ shr_m (shr_fexp prec emax m e l).1)%Z.
Proof.
  intros H. unfold shr_fexp, shr.
  assert (H0 : (0 ≤ shr_m (shr_record_of_loc m l))%Z)
    by (by destruct l as [|[]]).
  destruct (_ - e)%Z; simpl; try done. by apply iter_pos_nonneg.
Qed.

Lemma round_nearest_even_nonneg m l :
  (0 ≤ m)%Z → (0 ≤ round_nearest_even m l)%Z.
Proof.
  intros H. destruct l as [|[]]; simpl; try lia.
  destruct (Z.even m); lia.
Qed.

Lemma binary_round_aux_not_nan sx mx ex lx :
  (0 ≤ mx)%Z → binary_round_aux prec emax sx mx ex lx ≠ S754_nan.
Proof.
  intros H. unfold binary_round_aux.
  pose proof (shr_fexp_nonneg mx ex lx H) as H1.
  destruct (shr_fexp prec emax mx ex lx) as [mrs' e'].
  pose proof (shr_fexp_nonneg _ e' loc_Exact
                (round_nearest_even_nonneg _ (loc_of_shr_record mrs') H1)) as H2.
  destruct (shr_fexp prec emax _ e' loc_Exact) as [mrs'' e''].
  simpl in H2. destruct (shr_m mrs''); [done| |lia].
  by destruct (_ <=? _)%Z.
Qed.

(** A decimal literal is never read as NaN. *)
Lemma of_decimal_not_nan neg m e : of_decimal neg m e ≠ S754_nan.
Proof.
  unfold of_decimal. destruct m as [|p|p]; try done.
  destruct e as [|k|k].
  - unfold binary_round. destruct (shl_align _ _ _).
    by apply binary_round_aux_not_nan.
  - unfold binary_round. destruct (shl_align _ _ _).
    by apply binary_round_aux_not_nan.
  - unfold SFdiv_core_binary.
    set (d := Z.div_eucl _ _).
    assert (Hq : (0 ≤ d.1)%Z).
    { unfold d.
      match goal with |- context [Z.div_eucl ?a ?b] =>
        pose proof (Z.div_pos a b) as Hd;
        assert (Ha : (0 ≤ a)%Z); [|assert (Hb : (0 < b)%Z)] end.
      - destruct (_ - _ - _)%Z; try lia. apply Z.shiftl_nonneg. lia.
      - apply Z.pow_pos_nonneg; lia.
      - specialize (Hd Ha Hb). unfold Z.div in Hd.
        by destruct (Z.div_eucl _ _). }
    destruct d as [q r]. by apply binary_round_aux_not_nan.
Qed.

Lemma dchars_app s t : dchars s → dchars t → dchars (s ++ t).
Proof. intros. by apply Forall_app. Qed.

Lemma digit_decimal_char c : is_digit c = true → decimal_char c = true.
Proof. intros H. unfold decimal_char. by rewrite H. Qed.

Lemma c_isspace_decimal_char c : c_isspace c = true → decimal_char c = true.
Proof. intros H. unfold decimal_char. rewrite H. by rewrite orb_true_r. Qed.

Lemma span_digits_decimal s ds rest :
  span_digits s = (ds, rest) → s = ds ++ rest ∧ dchars ds.
Proof.
  revert ds rest. induction s as [|c s IH]; intros ds rest; simpl.
  - intros [= <- <-]. by split.
  - destruct (is_digit c) eqn:Hc.
    + destruct (span_digits s) as [ds' rest'] eqn:E. intros [= <- <-].
      destruct (IH _ _ eq_refl) as [-> F]. split; [done|].
      constructor; [by apply digit_decimal_char|done].
    + intros [= <- <-]. by split.
Qed.

Lemma take_sign_decimal s neg r :
  take_sign s = (neg, r) → ∃ sg, s = sg ++ r ∧ dchars sg.
Proof.
  destruct s as [|c s]; simpl.
  - intros [= <- <-]. exists []. by split.
  - destruct (N.eqb_spec c 0x2D) as [->|].
    { intros [= <- <-]. exists [0x2D%N]. split; [done|]. by constructor. }
    destruct (N.eqb_spec c 0x2B) as [->|].
    { intros [= <- <-]. exists [0x2B%N]. split; [done|]. by constructor. }
    intros [= <- <-]. exists []. by split.
Qed.

Lemma parse_exponent_decimal s e rest :
  parse_exponent s = (e, rest) → ∃ used, s = used ++ rest ∧ dchars used.
Proof.
  destruct s as [|c s]; simpl.
  - intros [= <- <-]. exists []. by split.
  - destruct ((c =? 0x65)%N || (c =? 0x45)%N) eqn:Hc.
    + destruct (take_sign s) as [esign r1] eqn:E1.
      destruct (span_digits r1) as [ds rest'] eqn:E2.
      destruct (take_sign_decimal _ _ _ E1) as (sg & -> & Fsg).
      destruct (span_digits_decimal _ _ _ E2) as (-> & Fds).
      destruct ds as [|d ds].
      * intros [= <- <-]. exists []. by split.
      * intros [= <- <-]. exists (c :: sg ++ d :: ds). split.
        { simpl. by rewrite <- app_assoc. }
        constructor; [|by apply dchars_app].
        apply orb_true_iff in Hc as [Hc|Hc]; apply N.eqb_eq in Hc;
          by subst c.
    + intros [= <- <-]. exists []. by split.
Qed.

(** What [strtod] reads is the text of a decimal literal, and its value is
    not NaN. *)
Lemma strtod_decimal s x rest :
  strtod s = Some (x, rest) →
  x ≠ S754_nan ∧ ∃ used, s = used ++ rest ∧ dchars used.
Proof.
  unfold strtod.
  destruct (take_sign s) as [neg s1] eqn:E1.
  destruct (span_digits s1) as [ip s2] eqn:E2.
  destruct (take_sign_decimal _ _ _ E1) as (sg & -> & Fsg).
  destruct (span_digits_decimal _ _ _ E2) as (-> & Fip).
  assert (Hfp : ∀ fp s3,
    match s2 with
    | c :: r => if (c =? 0x2E)%N then span_digits r else ([], s2)
    | [] => ([], s2)
    end = (fp, s3) → ∃ pt, s2 = pt ++ s3 ∧ dchars pt).
  { intros fp s3. destruct s2 as [|c r].
    - intros [= <- <-]. exists []. by split.
    - destruct (N.eqb_spec c 0x2E) as [->|].
      + intros E. destruct (span_digits_decimal _ _ _ E) as (-> & F).
        exists (0x2E%N :: fp). split; [done|]. by constructor.
      + intros [= <- <-]. exists []. by split. }
  destruct (match s2 with [] => _ | _ => _ end) as [fp s3] eqn:E3.
  destruct (Hfp _ _ eq_refl) as (pt & -> & Fpt).
  destruct (ip ++ fp) as [|d ds]; [done|].
  destruct (parse_exponent s3) as [e rest'] eqn:E4.
  destruct (parse_exponent_decimal _ _ _ E4) as (ex & -> & Fex).
  intros [= <- <-]. split; [apply of_decimal_not_nan|].
  exists (sg ++ ip ++ pt ++ ex). split.
  - by rewrite <- !app_assoc.
  - by repeat apply dchars_app.
Qed.

Lemma match_word_spells w s r :
  match_word w s = Some r → ∃ v, s = v ++ r ∧ map ascii_lower v = w.
Proof.
  revert s. induction w as [|a w IH]; intros s; simpl.
  - intros [= <-]. exists []. by split.
  - destruct s as [|c s]; [done|].
    destruct (N.eqb_spec a (if is_upper_ascii c then c + 32 else c)%N) as [E|];
      [|done].
    intros H. destruct (IH _ H) as (v & -> & F). exists (c :: v).
    split; [done|]. simpl. by rewrite F, E.
Qed.

Lemma spells_middle w l v r :
  map ascii_lower v = w → spells w (l ++ v ++ r).
Proof. intros H. by exists l, v, r. Qed.

Lemma spells_app w l t r : spells w t → spells w (l ++ t ++ r).
Proof.
  intros (pre & v & post & -> & H). exists (l ++ pre), v, (post ++ r).
  split; [|done]. by rewrite <- !app_assoc.
Qed.

(** What [parse_inf_or_nan] reads spells its result. *)
Lemma parse_inf_or_nan_spells s x rest :
  parse_inf_or_nan s = Some (x, rest) →
  (x = S754_nan ∧ spells (u "nan") s)
  ∨ (∃ neg, x = S754_infinity neg ∧ spells (u "inf") s).
Proof.
  unfold parse_inf_or_nan.
  destruct (take_sign s) as [neg s1] eqn:E1.
  destruct (take_sign_decimal _ _ _ E1) as (sg & -> & Fsg).
  destruct (match_word (u "inf") s1) as [r|] eqn:E2.
  - destruct (match_word_spells _ _ _ E2) as (v & -> & Hv).
    assert (Hs : spells (u "inf") (sg ++ v ++ r)) by by apply spells_middle.
    destruct (match_word (u "inity") r) as [r'|];
      intros [= <- _]; right; by exists neg.
  - destruct (match_word (u "nan") s1) as [r|] eqn:E3; [|done].
    destruct (match_word_spells _ _ _ E3) as (v & -> & Hv).
    intros [= <- _]. left. split; [done|]. by apply spells_middle.
Qed.

(** What [float] accepts, once the underscores are gone: the spelling of
    NaN, the spelling of an infinity, or a decimal literal. *)
Lemma float_from_string_inner_spec s x :
  float_from_string_inner s = Some x →
  (x = S754_nan ∧ spells (u "nan") s)
  ∨ (∃ neg, x = S754_infinity neg ∧ spells (u "inf") s)
  ∨ (x ≠ S754_nan ∧ dchars s).
Proof.
  unfold float_from_string_inner.
  destruct (c_lstrip_split s) as (l & El & Fl).
  destruct (c_lstrip_split (rev (c_lstrip s))) as (r & Er & Fr).
  set (core := rev (c_lstrip (rev (c_lstrip s)))) in *.
  assert (Es : s = l ++ core ++ rev r).
  { rewrite El at 1. f_equal. unfold core.
    rewrite <- rev_app_distr, <- Er. by rewrite rev_involutive. }
  intros H. rewrite Es.
  assert (Hl : dchars l).
  { eapply Forall_impl; [exact Fl|]. apply c_isspace_decimal_char. }
  assert (Hr : dchars (rev r)).
  { rewrite rev_alt. apply Forall_reverse.
    eapply Forall_impl; [exact Fr|]. apply c_isspace_decimal_char. }
  destruct core as [|c0 core0] eqn:Ec; [done|]. rewrite <- Ec in *.
  destruct (strtod core) as [[y rest]|] eqn:E1.
  - destruct rest; [|done]. injection H as ->.
    destruct (strtod_decimal _ _ _ E1) as (Hnan & used & -> & F).
    rewrite app_nil_r. right. right. split; [done|].
    by repeat apply dchars_app.
  - destruct (parse_inf_or_nan core) as [[y rest]|] eqn:E2; [|done].
    destruct rest; [|done]. injection H as ->.
    destruct (parse_inf_or_nan_spells _ _ _ E2) as [[-> Hs]|(neg & -> & Hs)].
    + left. split; [done|]. by apply spells_app.
    + right. left. exists neg. split; [done|]. by apply spells_app.
Qed.

Lemma remove_underscores_decimal prev s t :
  remove_underscores prev s = Some t → dchars t → dchars s.
Proof.
  revert prev t. induction s as [|c s IH]; intros prev t; simpl; [done|].
  destruct (N.eqb_spec c 0x5F) as [->|Hc].
  - destruct (is_digit prev); [|done]. intros H F.
    constructor; [done|]. by eapply IH.
  - destruct ((prev =? 0x5F)%N && negb (is_digit c)); [done|].
    destruct (remove_underscores c s) as [t'|] eqn:E; [|done].
    intros [= <-] F. apply Forall_cons in F as [? ?].
    constructor; [done|]. by eapply IH.
Qed.

(** After a character that is not a digit the next characters are not
    underscores: a run of letters is read as it stands. *)
Lemma remove_underscores_run c v s post :
  Forall (fun d => is_digit d = false) (c :: v) →
  remove_underscores c s = Some (v ++ post) → ∃ post', s = v ++ post'.
Proof.
  revert c s. induction v as [|d v IH]; intros c s Hnd; [by exists s|].
  apply Forall_cons in Hnd as [Hc Hnd].
  destruct s as [|e s]; simpl.
  { by destruct (c =? 0x5F)%N. }
  destruct (N.eqb_spec e 0x5F) as [->|He].
  { by rewrite Hc. }
  destruct ((c =? 0x5F)%N && negb (is_digit e)); [done|].
  destruct (remove_underscores e s) as [t'|] eqn:E; [|done].
  simpl. intros [= -> ->]. destruct (IH _ _ Hnd E) as [post' ->].
  by exists post'.
Qed.

Lemma remove_underscores_word prev s pre v post :
  Forall (fun d => is_digit d = false) v →
  remove_underscores prev s = Some (pre ++ v ++ post) →
  ∃ pre' post', s = pre' ++ v ++ post'.
Proof.
  intros Hnd. revert prev pre. induction s as [|c s IH]; intros prev pre; simpl.
  - destruct (prev =? 0x5F)%N; [done|]. intros [= H].
    symmetry in H. apply app_eq_nil in H as [-> [-> ->]%app_eq_nil].
    by exists [], [].
  - destruct (N.eqb_spec c 0x5F) as [->|Hc].
    + destruct (is_digit prev); [|done]. intros H.
      destruct (IH _ _ H) as (pre' & post' & ->).
      by exists (0x5F%N :: pre'), post'.
    + destruct ((prev =? 0x5F)%N && negb (is_digit c)); [done|].
      destruct (remove_underscores c s) as [t'|] eqn:E; [|done].
      simpl. intros [= H]. destruct pre as [|a pre].
      * destruct v as [|d v]; [by exists [], (c :: s)|].
        simpl in H. injection H as -> ->.
        destruct (remove_underscores_run _ _ _ _ Hnd E) as [post' ->].
        by exists [], post'.
      * simpl in H. injection H as -> ->.
        destruct (IH _ _ E) as (pre' & post' & ->).
        by exists (a :: pre'), post'.
Qed.

Lemma ascii_lower_letter c d :
  ascii_lower c = d → is_lower_ascii d = true → is_digit c = false.
Proof.
  unfold ascii_lower, is_lower_ascii, is_upper_ascii, is_digit, between.
  intros <- H. apply andb_false_iff. right. apply N.leb_gt.
  destruct ((0x41 <=? c)%N && (c <=? 0x5A)%N) eqn:Hu.
  - apply andb_true_iff in Hu as [H1 H2]. apply N.leb_le in H1. lia.
  - apply andb_true_iff in H as [H1 H2]. apply N.leb_le in H1. lia.
Qed.

Lemma word_not_digits w v :
  forallb is_lower_ascii w = true → map ascii_lower v = w →
  Forall (fun d => is_digit d = false) v.
Proof.
  intros Hw <-. induction v as [|c v IH]; [done|]. simpl in Hw.
  apply andb_true_iff in Hw as [Hc Hw]. constructor; [|by apply IH].
  by eapply ascii_lower_letter.
Qed.

Lemma remove_underscores_spells w prev s t :
  forallb is_lower_ascii w = true →
  remove_underscores prev s = Some t → spells w t → spells w s.
Proof.
  intros Hw E (pre & v & post & -> & Hv).
  destruct (remove_underscores_word _ _ _ _ _ (word_not_digits _ _ Hw Hv) E)
    as (pre' & post' & ->).
  by exists pre', v, post'.
Qed.

(** What [float] accepts of an ASCII string: NaN only where the string
    spells it, an infinity only where the string spells it or is a decimal
    literal, and otherwise a string that is a decimal literal throughout. *)
Lemma float_of_str_spec s x :
  ascii_str s = true → float_of_str s = Some x →
  (x = S754_nan ∧ spells (u "nan") s)
  ∨ (∃ neg, x = S754_infinity neg ∧ spells (u "inf") s)
  ∨ (x ≠ S754_nan ∧ decimal_text s = true).
Proof.
  intros Hs. unfold float_of_str. rewrite (transform_to_ascii_id s Hs).
  destruct (remove_underscores 0 s) as [t|] eqn:E; [|done]. simpl.
  intros [[-> H]|[(neg & -> & H)|[Hx H]]]%float_from_string_inner_spec.
  - left. split; [done|]. by eapply remove_underscores_spells.
  - right. left. exists neg. split; [done|].
    by eapply remove_underscores_spells.
  - right. right. split; [done|]. unfold decimal_text.
    apply forallb_forall. intros c Hc.
    apply (remove_underscores_decimal _ _ _ E) in H.
    rewrite Forall_forall in H. by apply H, list_elem_of_In.
Qed.

Lemma clean_numeric_str s :
  clean_numeric (VStr s)
  = match float_of_str (remove_char 0x2C s) with
    | Some x => VFloat x
    | None => VFloat zero
    end.
Proof. reflexivity. Qed.






(** The scenarios of the specification. *)
Example clean_numeric_scenarios :
  clean_numeric (VStr (u "2,75,069"))
  = VFloat (S754_finite false 4725649436573696 (-34))
  ∧ clean_numeric (VStr (u "1,234"))
    = VFloat (S754_finite false 5427189394702336 (-42))
  ∧ clean_numeric (VStr (u "N/A")) = VFloat zero
  ∧ clean_numeric (VFloat (S754_zero true)) = VFloat (S754_zero true).
Proof. vm_compute. done. Qed.

(** ** Data frames *)

Lemma get_col_Ok col df :
  col ∈ columns df ↔ ∃ s, get_col col df = Ok s.
Proof.
  induction df as [|[c s] df IH]; simpl.
  - split; [by intros ?%elem_of_nil|by intros [? ?]].
  - destruct (decide (c = col)) as [->|Hne].
    + split; [eauto|]. intros _. by left.
    + rewrite elem_of_cons, IH. split; [|by right]. by intros [?|?].
Qed.

Lemma get_col_Raise col df :
  col ∉ columns df ↔ get_col col df = Raise (KeyError [col]).
Proof.
  induction df as [|[c s] df IH]; simpl.
  - split; [done|]. intros _ ?%elem_of_nil. done.
  - destruct (decide (c = col)) as [->|Hne].
    + split; [|done]. intros []. by left.
    + rewrite not_elem_of_cons, <- IH. split; [by intros [? ?]|done].
Qed.

Lemma get_col_cases col df :
  (∃ s, get_col col df = Ok s ∧ has_column col df = true)
  ∨ (get_col col df = Raise (KeyError [col]) ∧ has_column col df = false).
Proof.
  unfold has_column. destruct (decide (col ∈ columns df)) as [H|H].
  - left. apply get_col_Ok in H as H'. destruct H' as [s Hs]. exists s.
    split; [done|]. by apply bool_decide_eq_true.
  - right. split; [by apply get_col_Raise|]. by apply bool_decide_eq_false.
Qed.

Lemma has_column_true col df :
  has_column col df = true ↔ ∃ s, get_col col df = Ok s.
Proof. unfold has_column. rewrite bool_decide_eq_true. apply get_col_Ok. Qed.

Lemma get_col_Ok_has col df s :
  get_col col df = Ok s → has_column col df = true.
Proof. intros H. apply has_column_true. eauto. Qed.

Lemma get_col_set_col col s df : get_col col (set_col col s df) = Ok s.
Proof.
  induction df as [|[c s0] df IH]; simpl.
  - by case_decide.
  - destruct (decide (c = col)) as [->|Hne]; simpl; by case_decide.
Qed.

Lemma get_col_set_col_ne col col' s df :
  col ≠ col' → get_col col' (set_col col s df) = get_col col' df.
Proof.
  intros Hne. induction df as [|[c s0] df IH]; simpl.
  - by case_decide.
  - destruct (decide (c = col)) as [->|Hc]; simpl.
    + by repeat case_decide.
    + by rewrite IH.
Qed.

Lemma columns_set_col col s df :
  ∀ c, c ∈ columns (set_col col s df) ↔ c = col ∨ c ∈ columns df.
Proof.
  intros c. rewrite !get_col_Ok. destruct (decide (col = c)) as [->|Hne].
  - rewrite get_col_set_col. split; [by left|eauto].
  - rewrite get_col_set_col_ne by done. split; [by right|].
    by intros [->|?].
Qed.

Lemma apply_cons f v s :
  apply f (v :: s) = w ← f v; ws ← apply f s; Ok (w :: ws).
Proof. reflexivity. Qed.

Lemma apply_Forall2 f s t :
  apply f s = Ok t ↔ Forall2 (fun v w => f v = Ok w) s t.
Proof.
  revert t. induction s as [|v s IH]; intros t.
  - simpl. split; [by intros [= <-]; constructor|by intros ->%Forall2_nil_inv_l].
  - rewrite apply_cons. split.
    + destruct (f v) as [w|e] eqn:Ev; [|done]. run_bind.
      destruct (apply f s) as [ws|e] eqn:Es; [|done]. run_bind.
      intros [= <-]. constructor; [done|]. by apply IH.
    + intros (w' & ws' & Hw & Hws & ->)%Forall2_cons_inv_l.
      apply IH in Hws. rewrite Hw, Hws. reflexivity.
Qed.

Lemma mapM_result_Forall2 {A B} (f : A → result B) l r :
  mapM f l = Ok r ↔ Forall2 (fun x y => f x = Ok y) l r.
Proof.
  revert r. induction l as [|x l IH]; intros r.
  - simpl. split; [by intros [= <-]; constructor|by intros ->%Forall2_nil_inv_l].
  - cbn [mapM]. split.
    + destruct (f x) as [y|e] eqn:Ex; [|done]. run_bind.
      destruct (mapM f l) as [ys|e] eqn:Es; [|done]. run_bind.
      intros [= <-]. constructor; [done|]. by apply IH.
    + intros (y & ys & Hy & Hys & ->)%Forall2_cons_inv_l.
      apply IH in Hys. rewrite Hy, Hys. reflexivity.
Qed.

Lemma mapM_result_Raise {A B} (f : A → result B) l e :
  mapM f l = Raise e → ∃ x, x ∈ l ∧ f x = Raise e.
Proof.
  induction l as [|x l IH]; [done|]. cbn [mapM].
  destruct (f x) as [y|e'] eqn:Ex; run_bind.
  - destruct (mapM f l) as [ys|e'] eqn:Es; run_bind; [done|].
    intros [= ->]. destruct (IH eq_refl) as (x' & ? & ?). exists x'.
    split; [by right|done].
  - intros [= ->]. exists x. split; [by left|done].
Qed.

(** [select] succeeds exactly when every label is a column, and then
    returns the columns in the order asked for. *)
Lemma select_Ok cols df r :
  select cols df = Ok r
  ↔ Forall2 (fun c cs => get_col c df = Ok cs.2 ∧ cs.1 = c) cols r.
Proof.
  unfold select.
  destruct (filter (λ c, c ∉ columns df) cols) as [|c0 miss] eqn:Ef.
  - etransitivity; [apply mapM_result_Forall2|].
    split; intros HF; (eapply Forall2_impl; [exact HF|]);
      intros c [c' s]; simpl.
    + destruct (get_col c df) as [s'|e]; simpl; [|done]. by intros [= -> ->].
    + by intros [-> ->].
  - split; [done|]. intros HF.
    assert (Hin : c0 ∈ filter (λ c, c ∉ columns df) cols)
      by (rewrite Ef; by left).
    apply list_elem_of_filter in Hin as [Hmiss Hin].
    apply list_elem_of_lookup in Hin as [i Hi].
    destruct (Forall2_lookup_l _ _ _ _ _ HF Hi) as ([c' s] & _ & Hg & _).
    destruct Hmiss. apply get_col_Ok. eauto.
Qed.

Lemma select_Raise cols df e :
  select cols df = Raise e →
  ∃ labels, e = KeyError labels ∧ labels ≠ []
            ∧ ∀ c, c ∈ labels ↔ c ∈ cols ∧ c ∉ columns df.
Proof.
  unfold select.
  destruct (filter (λ c, c ∉ columns df) cols) as [|c0 miss] eqn:Ef.
  - intros (c & Hc & Hr)%mapM_result_Raise.
    assert (c ∉ columns df).
    { intros (s & Hs)%get_col_Ok. by rewrite Hs in Hr. }
    assert (Hin : c ∈ filter (λ c, c ∉ columns df) cols)
      by (by apply list_elem_of_filter).
    rewrite Ef in Hin. by apply elem_of_nil in Hin.
  - intros [= <-]. exists (c0 :: miss). split; [done|]. split; [done|].
    intros c. rewrite <- Ef, list_elem_of_filter. tauto.
Qed.

Lemma rectangular_set_col n col s df :
  length s = n →
  forallb (fun cs => (length cs.2 =? n)%nat) df = true →
  forallb (fun cs => (length cs.2 =? n)%nat) (set_col col s df) = true.
Proof.
  intros Hs. induction df as [|[c s0] df IH]; simpl.
  - intros _. rewrite Hs. by rewrite Nat.eqb_refl.
  - intros [H1 H2]%andb_true_iff. destruct (decide (c = col)); simpl.
    + rewrite Hs, Nat.eqb_refl. done.
    + rewrite H1. by apply IH.
Qed.

Lemma len_set_col col s df :
  df ≠ [] → length s = len df → len (set_col col s df) = len df.
Proof.
  destruct df as [|[c s0] df]; [done|]. simpl. intros _ Hs.
  by destruct (decide (c = col)).
Qed.

Lemma rectangular_get_col col s df :
  rectangular df = true → get_col col df = Ok s → length s = len df.
Proof.
  unfold rectangular. generalize (len df) as n. intros n.
  induction df as [|[c s0] df IH]; simpl; [done|].
  intros [H1 H2]%andb_true_iff. destruct (decide (c = col)).
  - intros [= <-]. by apply Nat.eqb_eq.
  - by apply IH.
Qed.

(** A table that keeps its shape through an assignment [df[col] = s]. *)
Lemma set_col_rectangular col s df :
  df ≠ [] → rectangular df = true → length s = len df →
  rectangular (set_col col s df) = true ∧ len (set_col col s df) = len df
  ∧ set_col col s df ≠ [].
Proof.
  intros Hne Hr Hs. pose proof (len_set_col col s df Hne Hs) as Hl.
  split; [|split; [done|]].
  - unfold rectangular. rewrite Hl. by apply rectangular_set_col.
  - destruct df as [|[c s0] df]; [done|]. simpl. by destruct (decide (c = col)).
Qed.

Lemma clean_state_name_cell v :
  name_cell v = true → ∃ n, clean_state_name v = Ok n.
Proof.
  intros [H|H]%orb_true_iff.
  - exists (u "Unknown"). unfold clean_state_name. by rewrite H.
  - destruct v; try done. eexists. apply clean_state_name_str.
Qed.

(** Step 2 returns when the raw names are strings or missing values, and
    then the table has a [State] column of strings, one per row. *)
Lemma standardize_Ok raw df s :
  get_col raw df = Ok s → names_ok raw df = true →
  ∃ names, standardize raw df = Ok (set_col "State" names df)
           ∧ length names = length s
           ∧ Forall (fun v => is_str v = true) names.
Proof.
  intros Hs Hok. unfold names_ok in Hok. rewrite Hs in Hok.
  unfold standardize. rewrite (proj2 (has_column_true raw df)) by eauto.
  rewrite Hs. run_bind.
  assert (∃ names,
    apply (λ v, name ← clean_state_name v; Ok (VStr name)) s = Ok names
    ∧ length names = length s ∧ Forall (fun v => is_str v = true) names)
    as (names & -> & ? & ?); [|by exists names].
  clear Hs. induction s as [|v s IH].
  - exists []. by repeat split.
  - cbn [forallb] in Hok. apply andb_true_iff in Hok as [Hv Hok].
    destruct (IH Hok) as (names & E & Hlen & HF).
    destruct (clean_state_name_cell v Hv) as [n Hn].
    exists (VStr n :: names). rewrite apply_cons, Hn. run_bind.
    rewrite E. run_bind. split; [done|].
    split; [simpl; by rewrite Hlen|by constructor].
Qed.

Lemma standardize_skip raw df :
  has_column raw df = false → standardize raw df = Ok df.
Proof. intros H. unfold standardize. by rewrite H. Qed.

Lemma convert_eq col df :
  convert col df
  = Ok (match get_col col df with
        | Ok s => set_col col (coerced s) df
        | Raise _ => df
        end).
Proof.
  unfold convert. destruct (get_col_cases col df) as [(s & -> & ->)|[-> ->]];
    reflexivity.
Qed.

Lemma clean_numeric_not_str v : is_str (clean_numeric v) = false.
Proof.
  destruct v; try done. rewrite clean_numeric_str.
  by destruct (float_of_str _).
Qed.

Lemma as_float_not_str v : is_str v = false → is_str (as_float v) = false.
Proof. by destruct v. Qed.

Lemma as_float_is_float v :
  is_int v || is_float v = true → is_float (as_float v) = true.
Proof. by destruct v. Qed.

Lemma length_coerced s : length (coerced s) = length s.
Proof.
  unfold coerced, maybe_convert_objects.
  destruct (_ && _); by rewrite !length_map.
Qed.

(** No cell of a coerced column is a string. *)
Lemma coerced_not_str (s : Series) :
  Forall (fun v => is_str v = false) (coerced s).
Proof.
  assert (H : Forall (fun v => is_str v = false) (map clean_numeric s)).
  { apply Forall_fmap, Forall_true. intros v. apply clean_numeric_not_str. }
  unfold coerced, maybe_convert_objects. destruct (_ && _); [|done].
  apply Forall_fmap. eapply Forall_impl; [exact H|].
  intros v. apply as_float_not_str.
Qed.

(** ** The left join *)

Lemma positions_from_elem j k rk p :
  p ∈ positions_from j k rk ↔ (j ≤ p)%nat ∧ rk !! (p - j)%nat = Some k.
Proof.
  revert j. induction rk as [|x rk IH]; intros j; simpl.
  - split; [by intros ?%elem_of_nil|by intros [_ ?]].
  - rewrite elem_of_app, IH. destruct (decide (x = k)) as [->|Hne].
    + rewrite list_elem_of_singleton. split.
      * intros [->|[Hle Hl]].
        -- split; [lia|]. by replace (j - j) with 0 by lia.
        -- split; [lia|]. by replace (p - j) with (S (p - S j)) by lia.
      * intros [Hle Hl]. destruct (decide (p = j)) as [->|]; [by left|].
        right. split; [lia|].
        by replace (p - j) with (S (p - S j)) in Hl by lia.
    + split.
      * intros [?%elem_of_nil|[Hle Hl]]; [done|]. split; [lia|].
        by replace (p - j) with (S (p - S j)) by lia.
      * intros [Hle Hl]. right. destruct (decide (p = j)) as [->|].
        { replace (j - j) with 0 in Hl by lia. simpl in Hl. congruence. }
        split; [lia|].
        by replace (p - j) with (S (p - S j)) in Hl by lia.
Qed.

Lemma positions_from_nil j k rk :
  positions_from j k rk = [] ↔ k ∉ rk.
Proof.
  revert j. induction rk as [|x rk IH]; intros j; simpl.
  - split; [intros _ ?%elem_of_nil; done|done].
  - rewrite not_elem_of_cons. destruct (decide (x = k)) as [->|Hne]; simpl.
    + split; [done|]. by intros [? _].
    + rewrite IH. split; [by split|by intros [_ ?]].
Qed.

Lemma positions_from_NoDup j k rk :
  NoDup rk → (length (positions_from j k rk) ≤ 1)%nat.
Proof.
  revert j. induction rk as [|x rk IH]; intros j Hnd; simpl; [lia|].
  apply NoDup_cons in Hnd as [Hx Hnd].
  rewrite length_app. destruct (decide (x = k)) as [->|Hne]; simpl.
  - apply (positions_from_nil (S j)) in Hx. rewrite Hx. simpl. lia.
  - by apply IH.
Qed.

Lemma fanout_pos rk k : (1 ≤ fanout rk k)%nat.
Proof.
  unfold fanout. destruct (positions_from 0 k rk); simpl; lia.
Qed.

Lemma fanout_NoDup rk k : NoDup rk → fanout rk k = 1.
Proof.
  intros Hnd. pose proof (positions_from_NoDup 0 k rk Hnd) as H.
  unfold fanout. destruct (positions_from 0 k rk) as [|? [|? ?]];
    simpl in *; lia.
Qed.

Lemma take_lookup s indexer p :
  take s indexer !! p
  = (fun oi => default nan (oi ≫= (s !!.))) <$> indexer !! p.
Proof. unfold take. apply list_lookup_fmap. Qed.

Lemma take_app s i1 i2 : take s (i1 ++ i2) = take s i1 ++ take s i2.
Proof. unfold take. apply map_app. Qed.

Lemma take_replicate s n i v :
  s !! i = Some v → take s (replicate n (Some i)) = replicate n v.
Proof.
  intros H. unfold take. induction n as [|n IH]; simpl; [done|].
  rewrite IH. by rewrite H.
Qed.

(** The rows one left row contributes to the indexers. *)
Lemma indexers_cons i k lk rk :
  left_join_indexers_from i (k :: lk) rk
  = match positions_from 0 k rk with
    | [] => [(i, None)]
    | js => map (fun j => (i, Some j)) js
    end ++ left_join_indexers_from (S i) lk rk.
Proof. reflexivity. Qed.

Lemma block_left i k rk :
  map (fun ij : nat * option nat => Some ij.1)
    match positions_from 0 k rk with
    | [] => [(i, None)]
    | js => map (fun j => (i, Some j)) js
    end
  = replicate (fanout rk k) (Some i).
Proof.
  unfold fanout. destruct (positions_from 0 k rk) as [|j js]; [done|].
  generalize (j :: js) as l. intros l.
  induction l as [|x l IH]; simpl; [done|]. by rewrite IH.
Qed.

(** The key column of the left table after the join: every key repeated
    [fanout] times, in place. *)
Lemma take_left_keys pre lk rk :
  take (pre ++ lk)
    (map (fun ij => Some ij.1)
       (left_join_indexers_from (length pre) lk rk))
  = expand rk lk.
Proof.
  revert pre. induction lk as [|k lk IH]; intros pre; [done|].
  rewrite indexers_cons, map_app, take_app, block_left.
  rewrite (take_replicate _ _ _ k) by apply list_lookup_middle, eq_refl.
  unfold expand. cbn [flat_map]. f_equal.
  specialize (IH (pre ++ [k])). rewrite <- app_assoc in IH. simpl in IH.
  rewrite length_app in IH. simpl in IH.
  replace (length pre + 1) with (S (length pre)) in IH by lia.
  exact IH.
Qed.

Lemma indexers_elem i0 lk rk i oj :
  (i, oj) ∈ left_join_indexers_from i0 lk rk →
  ∃ k, (i0 ≤ i)%nat ∧ lk !! (i - i0)%nat = Some k
       ∧ match oj with
         | Some j => rk !! j = Some k
         | None => k ∉ rk
         end.
Proof.
  revert i0. induction lk as [|k lk IH]; intros i0.
  - by intros ?%elem_of_nil.
  - rewrite indexers_cons, elem_of_app. intros [H|H].
    + exists k. destruct (positions_from 0 k rk) as [|j js] eqn:E.
      * apply list_elem_of_singleton in H as [= -> ->].
        split; [lia|]. replace (i0 - i0) with 0 by lia.
        split; [done|]. by apply (positions_from_nil 0).
      * apply list_elem_of_fmap in H as (j' & [= -> ->] & Hj).
        rewrite <- E in Hj. apply positions_from_elem in Hj as [_ Hj].
        split; [lia|]. replace (i0 - i0) with 0 by lia.
        split; [done|]. by replace (j' - 0) with j' in Hj by lia.
    + destruct (IH _ H) as (k' & Hle & Hl & Hm). exists k'.
      split; [lia|]. split; [|done].
      by replace (i - i0) with (S (i - S i0)) by lia.
Qed.

Lemma length_expand rk lk : (length lk ≤ length (expand rk lk))%nat.
Proof.
  unfold expand. induction lk as [|k lk IH]; simpl; [lia|].
  rewrite length_app, length_replicate. pose proof (fanout_pos rk k). lia.
Qed.

Lemma elem_of_expand rk lk r : r ∈ expand rk lk ↔ r ∈ lk.
Proof.
  unfold expand. induction lk as [|k lk IH]; simpl; [done|].
  rewrite elem_of_app, elem_of_cons, IH, elem_of_replicate.
  pose proof (fanout_pos rk k). split; [intros [[-> _]|?]; auto|].
  intros [->|?]; [left; split; [done|lia]|by right].
Qed.

Lemma expand_NoDup rk lk : NoDup rk → expand rk lk = lk.
Proof.
  intros Hnd. unfold expand. induction lk as [|k lk IH]; simpl; [done|].
  by rewrite IH, fanout_NoDup.
Qed.

Lemma expand_app rk l1 l2 : expand rk (l1 ++ l2) = expand rk l1 ++ expand rk l2.
Proof. unfold expand. apply flat_map_app. Qed.

Lemma expand_replicate rk n k :
  expand rk (replicate n k) = replicate (n * fanout rk k)%nat k.
Proof.
  induction n as [|n IH]; [done|].
  change (replicate (S n) k) with ([k] ++ replicate n k).
  rewrite expand_app, IH.
  change (expand rk [k]) with (replicate (fanout rk k) k ++ []).
  rewrite app_nil_r, <- replicate_add. f_equal.
Qed.

(** Two joins in a row multiply the row counts. *)
Lemma expand_expand rk ak lk :
  expand ak (expand rk lk)
  = flat_map (fun k => replicate (fanout rk k * fanout ak k)%nat k) lk.
Proof.
  induction lk as [|k lk IH]; simpl; [done|].
  change (expand rk (k :: lk)) with (replicate (fanout rk k) k ++ expand rk lk).
  by rewrite expand_app, IH, expand_replicate.
Qed.

Lemma get_col_map (g : Series → Series) col df :
  get_col col (map (fun cs => (cs.1, g cs.2)) df)
  = s ← get_col col df; Ok (g s).
Proof.
  induction df as [|[c s] df IH]; simpl; [done|].
  by destruct (decide (c = col)).
Qed.

Lemma get_col_app_l col s l1 l2 :
  get_col col l1 = Ok s → get_col col (l1 ++ l2) = Ok s.
Proof.
  induction l1 as [|[c s0] l1 IH]; simpl; [done|].
  by destruct (decide (c = col)).
Qed.

Lemma get_col_app_r col l1 l2 :
  col ∉ columns l1 → get_col col (l1 ++ l2) = get_col col l2.
Proof.
  induction l1 as [|[c s0] l1 IH]; simpl; [done|].
  intros [? ?]%not_elem_of_cons. destruct (decide (c = col)); [done|].
  by apply IH.
Qed.

Lemma get_col_filter_ne on col df :
  col ≠ on →
  get_col col (filter (fun cs : string * Series => cs.1 ≠ on) df)
  = get_col col df.
Proof.
  intros Hne. induction df as [|[c s] df IH]; [done|].
  rewrite filter_cons. simpl. destruct (decide (c ≠ on)) as [H|H]; simpl.
  - destruct (decide (c = col)); [done|]. exact IH.
  - destruct (decide (c = col)); [|exact IH]. subst. destruct H. done.
Qed.

Lemma length_take s indexer : length (take s indexer) = length indexer.
Proof. unfold take. apply length_map. Qed.

(** What [merge_left] returns: a column of the left table is taken by the
    left indexer, a column of the right table is reindexed by the right
    indexer. *)
Lemma merge_left_spec left right on lk rk :
  get_col on left = Ok lk → get_col on right = Ok rk →
  ∃ m, merge_left left right on = Ok m
       ∧ len m = length (expand rk lk)
       ∧ (∀ c s, get_col c left = Ok s →
            get_col c m
            = Ok (take s (map (fun ij => Some ij.1) (left_join_indexers lk rk))))
       ∧ (∀ c s, c ∉ columns left → c ≠ on → get_col c right = Ok s →
            get_col c m = Ok (reindex s (map snd (left_join_indexers lk rk))))
       ∧ columns m
         = columns left ++ columns (filter (fun cs => cs.1 ≠ on) right).
Proof.
  intros Hl Hr. unfold merge_left. rewrite Hl, Hr. run_bind.
  eexists. split; [reflexivity|]. split; [|split; [|split]]; cycle 3.
  { unfold columns. rewrite fmap_app, <- !list_fmap_compose. done. }
  - rewrite <- (take_left_keys [] lk rk), length_take.
    destruct left as [|[c s] left]; [done|]. cbn [map app len fst snd].
    by rewrite length_take.
  - intros c s Hc. apply get_col_app_l.
    rewrite (get_col_map (fun s => take s _)). by rewrite Hc.
  - intros c s Hc Hne Hs. rewrite get_col_app_r.
    + rewrite (get_col_map (fun s => reindex s _)), get_col_filter_ne by done.
      by rewrite Hs.
    + intros (s' & Hs')%get_col_Ok.
      rewrite (get_col_map (fun s => take s _)) in Hs'.
      destruct (get_col c left) as [s''|] eqn:E; [|done].
      apply Hc, get_col_Ok. eauto.
Qed.

Lemma take_elem s indexer v :
  v ∈ take s indexer → v = nan ∨ v ∈ s.
Proof.
  unfold take. intros (oi & -> & _)%list_elem_of_fmap.
  destruct oi as [i|]; simpl; [|by left].
  destruct (s !! i) as [w|] eqn:E; simpl; [|by left].
  right. by eapply list_elem_of_lookup_2.
Qed.

Lemma length_reindex s indexer : length (reindex s indexer) = length indexer.
Proof.
  unfold reindex. destruct (_ && _); by rewrite ?length_map, length_take.
Qed.

Lemma reindex_lookup s indexer q :
  reindex s indexer !! q
  = (if int_column s && bool_decide (None ∈ indexer) then as_float else id)
      <$> take s indexer !! q.
Proof.
  unfold reindex. destruct (_ && _).
  - apply list_lookup_fmap.
  - by destruct (take s indexer !! q).
Qed.

Lemma take_float_column s indexer :
  float_column s = true → float_column (take s indexer) = true.
Proof.
  unfold float_column, take. rewrite !forallb_forall. intros H v.
  rewrite in_map_iff. intros (oi & <- & _). destruct oi as [i|]; [|done].
  simpl. destruct (s !! i) as [w|] eqn:E; [|done]. simpl.
  apply H, list_elem_of_In. by eapply list_elem_of_lookup_2.
Qed.

Lemma take_number_column s indexer :
  forallb (fun v => is_int v || is_float v) s = true →
  forallb (fun v => is_int v || is_float v) (take s indexer) = true.
Proof.
  unfold take. rewrite !forallb_forall. intros H v.
  rewrite in_map_iff. intros (oi & <- & _). destruct oi as [i|]; [|done].
  simpl. destruct (s !! i) as [w|] eqn:E; [|done]. simpl.
  apply H, list_elem_of_In. by eapply list_elem_of_lookup_2.
Qed.

Lemma int_column_number s :
  int_column s = true → forallb (fun v => is_int v || is_float v) s = true.
Proof.
  unfold int_column. rewrite !forallb_forall. intros H v Hv.
  by rewrite (H v Hv).
Qed.

Lemma map_as_float_column s :
  forallb (fun v => is_int v || is_float v) s = true →
  float_column (map as_float s) = true.
Proof.
  unfold float_column. rewrite !forallb_forall. intros H v.
  rewrite in_map_iff. intros (w & <- & Hw). by apply as_float_is_float, H.
Qed.

(** A numeric column of the right table with an unmatched row comes out of
    the join as a float column. *)
Lemma reindex_float_column s indexer :
  int_column s || float_column s = true → None ∈ indexer →
  float_column (reindex s indexer) = true.
Proof.
  intros Hs Hin. unfold reindex.
  rewrite (bool_decide_eq_true_2 _ Hin), andb_true_r.
  destruct (int_column s) eqn:Hi.
  - by apply map_as_float_column, take_number_column, int_column_number.
  - by apply take_float_column.
Qed.

Lemma take_not_str s indexer :
  Forall (fun v => is_str v = false) s →
  Forall (fun v => is_str v = false) (take s indexer).
Proof.
  rewrite !Forall_forall. intros H v [->|Hv]%take_elem; [done|]. by apply H.
Qed.

Lemma reindex_not_str s indexer :
  Forall (fun v => is_str v = false) s →
  Forall (fun v => is_str v = false) (reindex s indexer).
Proof.
  intros H. apply (take_not_str _ indexer) in H. unfold reindex.
  destruct (_ && _); [|done]. apply Forall_fmap.
  eapply Forall_impl; [exact H|]. intros v. apply as_float_not_str.
Qed.

Lemma fill_series_lookup value s p :
  fill_series value s !! p
  = (fun v => if isna v
              then (if float_column s then as_float value else value)
              else v) <$> s !! p.
Proof. unfold fill_series. apply list_lookup_fmap. Qed.

Lemma length_fill_series value s : length (fill_series value s) = length s.
Proof. unfold fill_series. apply length_map. Qed.

Lemma fill_series_id value (s : Series) :
  Forall (fun v => isna v = false) s → fill_series value s = s.
Proof.
  unfold fill_series. generalize (if float_column s then as_float value
                                  else value). intros z.
  induction 1 as [|v s Hv _ IH]; simpl; [done|]. by rewrite Hv, IH.
Qed.

Lemma fill_series_elem (s : Series) v :
  v ∈ fill_series (VInt 0) s →
  is_zero v = true ∨ (v ∈ s ∧ isna v = false).
Proof.
  unfold fill_series. intros (w & -> & Hw)%list_elem_of_fmap.
  destruct (isna w) eqn:E; [left|by right]. by destruct (float_column s).
Qed.

Lemma fill_series_not_str s :
  Forall (fun v => is_str v = false) s →
  Forall (fun v => is_str v = false) (fill_series (VInt 0) s).
Proof.
  rewrite !Forall_forall. intros H v [Hz|[Hv _]]%fill_series_elem; [|by apply H].
  unfold is_zero in Hz.
  apply orb_true_iff in Hz as [Hz|Hz]; apply bool_decide_eq_true in Hz;
    by subst v.
Qed.

(** The cell that [fillna(0)] puts in place of a NaN. *)
Lemma fill_series_nan s p :
  s !! p = Some nan →
  ∃ z, fill_series (VInt 0) s !! p = Some z ∧ is_zero z = true
       ∧ (float_column s = true → z = VFloat zero).
Proof.
  intros H. rewrite fill_series_lookup, H. simpl.
  destruct (float_column s); eexists; (split; [reflexivity|]); by split.
Qed.

Lemma get_col_fillna value col df :
  get_col col (fillna value df)
  = s ← get_col col df; Ok (fill_series value s).
Proof. unfold fillna. apply (get_col_map (fill_series value)). Qed.

Lemma len_fillna value df : len (fillna value df) = len df.
Proof.
  destruct df as [|[c s] df]; [done|]. simpl. apply length_fill_series.
Qed.

(** After [fillna(0)] no cell is a missing value. *)
Lemma fillna_no_null df c s v :
  (c, s) ∈ fillna (VInt 0) df → v ∈ s → isna v = false.
Proof.
  unfold fillna. intros ([c' s'] & [= -> ->] & _)%list_elem_of_fmap.
  intros [Hz|[_ ?]]%fill_series_elem; [|done]. unfold is_zero in Hz.
  apply orb_true_iff in Hz as [Hz|Hz]; apply bool_decide_eq_true in Hz;
    by subst v.
Qed.

Lemma indexers_lookup lk rk q i oj :
  left_join_indexers lk rk !! q = Some (i, oj) →
  ∃ k, lk !! i = Some k
       ∧ take lk (map (fun ij => Some ij.1) (left_join_indexers lk rk)) !! q
         = Some k
       ∧ match oj with
         | Some j => rk !! j = Some k
         | None => k ∉ rk
         end.
Proof.
  intros E. pose proof (list_elem_of_lookup_2 _ _ _ E) as Hin.
  destruct (indexers_elem _ _ _ _ _ Hin) as (k & _ & Hi & Hm).
  replace (i - 0) with i in Hi by lia. exists k. split; [done|].
  split; [|done]. rewrite take_lookup, list_lookup_fmap, E. simpl.
  by rewrite Hi.
Qed.

(** A row whose key has no match in [rk] gets NaN from the right table,
    and the right indexer has an unmatched position. *)
Lemma unmatched_nan lk rk rv q k :
  take lk (map (fun ij => Some ij.1) (left_join_indexers lk rk)) !! q = Some k →
  k ∉ rk →
  reindex rv (map snd (left_join_indexers lk rk)) !! q = Some nan
  ∧ None ∈ map snd (left_join_indexers lk rk).
Proof.
  rewrite reindex_lookup, !take_lookup, !list_lookup_fmap.
  destruct (left_join_indexers lk rk !! q) as [[i oj]|] eqn:E; [|done].
  simpl. intros [= Hk] Hnot.
  destruct (indexers_lookup _ _ _ _ _ E) as (k' & Hi & _ & Hm).
  rewrite Hi in Hk. simpl in Hk. subst k'.
  destruct oj as [j|].
  { destruct Hnot. by eapply list_elem_of_lookup_2. }
  split; [by destruct (_ && _)|].
  apply list_elem_of_fmap. exists (i, None). split; [done|].
  by eapply list_elem_of_lookup_2.
Qed.

(** Rows taken by a left indexer carry their cells along. *)
Lemma left_rows_carry lk ak (s : Series) p k v :
  take lk (map (fun ij => Some ij.1) (left_join_indexers lk ak)) !! p = Some k →
  (∀ q, lk !! q = Some k → s !! q = Some v) →
  take s (map (fun ij => Some ij.1) (left_join_indexers lk ak)) !! p = Some v.
Proof.
  rewrite !take_lookup, !list_lookup_fmap.
  destruct (left_join_indexers lk ak !! p) as [[i oj]|] eqn:E; [|done].
  simpl. intros [= Hk] Hs.
  destruct (indexers_lookup _ _ _ _ _ E) as (k' & Hi & _ & _).
  rewrite Hi in Hk. simpl in Hk. subst k'.
  by rewrite (Hs i Hi).
Qed.

Lemma expand_nil lk : expand [] lk = lk.
Proof.
  induction lk as [|k lk IH]; [done|].
  change (expand [] (k :: lk)) with (k :: expand [] lk). by rewrite IH.
Qed.

Lemma select3 c1 c2 c3 df s1 s2 s3 :
  get_col c1 df = Ok s1 → get_col c2 df = Ok s2 → get_col c3 df = Ok s3 →
  select [c1; c2; c3] df = Ok [(c1, s1); (c2, s2); (c3, s3)].
Proof. intros. apply select_Ok. by repeat constructor. Qed.

Lemma select2 c1 c2 df s1 s2 :
  get_col c1 df = Ok s1 → get_col c2 df = Ok s2 →
  select [c1; c2] df = Ok [(c1, s1); (c2, s2)].
Proof. intros. apply select_Ok. by repeat constructor. Qed.

(** Step 4 in closed form. *)
Lemma merging_spec f t a lk a1 a2 rk rv :
  get_col "State" f = Ok lk →
  get_col "Recorded Forest Area - Total" f = Ok a1 →
  get_col "Geographical Area" f = Ok a2 →
  get_col "State" t = Ok rk →
  get_col "Tree Cover - Area" t = Ok rv →
  (has_column "Precipitation_mm" a = true → has_column "State" a = true) →
  ∀ keys, keys = expand (agro_keys a) (expand rk lk) →
  ∃ M M0 c1 c2 tc,
    merging f t a = Ok M
    ∧ M = fillna (VInt 0) M0
    ∧ len M = length keys
    ∧ get_col "State" M = Ok (fill_series (VInt 0) keys)
    ∧ get_col "Recorded Forest Area - Total" M = Ok c1
    ∧ (Forall (fun v => is_str v = false) a1 →
       Forall (fun v => is_str v = false) c1)
    ∧ get_col "Geographical Area" M = Ok c2
    ∧ (Forall (fun v => is_str v = false) a2 →
       Forall (fun v => is_str v = false) c2)
    ∧ get_col "Tree Cover - Area" M = Ok tc
    ∧ length tc = length keys
    ∧ (Forall (fun v => is_str v = false) rv →
       Forall (fun v => is_str v = false) tc)
    ∧ (∀ p k, keys !! p = Some k → k ∉ rk →
         ∃ z, tc !! p = Some z ∧ is_zero z = true
              ∧ (int_column rv || float_column rv = true → z = VFloat zero))
    ∧ (∀ av, get_col "Precipitation_mm" a = Ok av →
         ∃ pc, get_col "Precipitation_mm" M = Ok pc
               ∧ length pc = length keys
               ∧ ∀ p k, keys !! p = Some k → k ∉ agro_keys a →
                   ∃ z, pc !! p = Some z ∧ is_zero z = true
                        ∧ (int_column av || float_column av = true →
                           z = VFloat zero)).
Proof.
  intros Hlk Ha1 Ha2 Hrk Hrv Hagro keys Hkeys. unfold merging.
  rewrite (select3 _ _ _ _ _ _ _ Hlk Ha1 Ha2). run_bind.
  rewrite (select2 _ _ _ _ _ Hrk Hrv). run_bind.
  set (left := [("State", lk); ("Recorded Forest Area - Total", a1);
                ("Geographical Area", a2)]).
  set (right := [("State", rk); ("Tree Cover - Area", rv)]).
  destruct (merge_left_spec left right "State" lk rk eq_refl eq_refl)
    as (m1 & -> & Hlen1 & HL1 & HR1 & Hcols1). run_bind.
  set (li1 := map (fun ij : nat * option nat => Some ij.1)
                (left_join_indexers lk rk)) in *.
  set (ri1 := map snd (left_join_indexers lk rk)) in *.
  assert (Hk1 : take lk li1 = expand rk lk) by apply (take_left_keys [] lk rk).
  pose proof (HL1 "State" lk eq_refl) as HS1.
  pose proof (HL1 "Recorded Forest Area - Total" a1 eq_refl) as HA1.
  pose proof (HL1 "Geographical Area" a2 eq_refl) as HA2.
  assert (HT1 : get_col "Tree Cover - Area" m1 = Ok (reindex rv ri1)).
  { apply HR1; [|done|done]. unfold left, columns. simpl.
    rewrite !not_elem_of_cons. repeat split; try done. apply not_elem_of_nil. }
  assert (Hcm1 : columns m1 = ["State"; "Recorded Forest Area - Total";
                               "Geographical Area"; "Tree Cover - Area"])
    by (rewrite Hcols1; reflexivity).
  assert (Hfloat1 : int_column rv || float_column rv = true → None ∈ ri1 →
                    float_column (reindex rv ri1) = true)
    by apply reindex_float_column.
  unfold agro_keys in Hkeys |- *.
  destruct (has_column "Precipitation_mm" a) eqn:HP.
  - apply has_column_true in HP as [av Hav].
    destruct (proj1 (has_column_true _ _) (Hagro eq_refl)) as [ak Hak].
    rewrite Hak in Hkeys |- *.
    rewrite (select2 _ _ _ _ _ Hak Hav). run_bind.
    destruct (merge_left_spec m1 [("State", ak); ("Precipitation_mm", av)]
                "State" (take lk li1) ak HS1 eq_refl)
      as (m2 & -> & Hlen2 & HL2 & HR2 & _). run_bind.
    set (li2 := map (fun ij : nat * option nat => Some ij.1)
                  (left_join_indexers (take lk li1) ak)) in *.
    set (ri2 := map snd (left_join_indexers (take lk li1) ak)) in *.
    assert (Hk2 : take (take lk li1) li2 = keys).
    { rewrite Hkeys, <- Hk1. apply (take_left_keys [] _ ak). }
    assert (HP2 : get_col "Precipitation_mm" m2 = Ok (reindex av ri2)).
    { apply HR2; [|done|done]. rewrite Hcm1.
      rewrite !not_elem_of_cons. repeat split; try done. apply not_elem_of_nil. }
    exists (fillna (VInt 0) m2), m2,
      (fill_series (VInt 0) (take (take a1 li1) li2)),
      (fill_series (VInt 0) (take (take a2 li1) li2)),
      (fill_series (VInt 0) (take (reindex rv ri1) li2)).
    split; [done|]. split; [done|].
    split; [by rewrite len_fillna, Hlen2, Hkeys, Hk1|].
    rewrite !get_col_fillna.
    rewrite (HL2 _ _ HS1), (HL2 _ _ HA1), (HL2 _ _ HA2), (HL2 _ _ HT1), Hk2.
    run_bind.
    split; [done|]. split; [done|].
    split; [intros H; by apply fill_series_not_str, take_not_str, take_not_str|].
    split; [done|].
    split; [intros H; by apply fill_series_not_str, take_not_str, take_not_str|].
    split; [done|].
    split; [by rewrite length_fill_series, length_take, <- Hk2, length_take|].
    split;
      [intros H; by apply fill_series_not_str, take_not_str, reindex_not_str|].
    split.
    + intros p k Hp Hnot.
      assert (Hrow : ∀ q, take lk li1 !! q = Some k →
                          reindex rv ri1 !! q = Some nan ∧ None ∈ ri1)
        by (intros q Hq; exact (unmatched_nan lk rk rv q k Hq Hnot)).
      assert (Hc : take (reindex rv ri1) li2 !! p = Some nan).
      { apply (left_rows_carry (take lk li1) ak (reindex rv ri1) p k nan).
        - fold li2. by rewrite Hk2.
        - intros q Hq. by apply Hrow. }
      destruct (fill_series_nan _ _ Hc) as (z & Hz & Hzero & Hfl).
      exists z. split; [done|]. split; [done|]. intros Hnum. apply Hfl.
      apply take_float_column, Hfloat1; [done|].
      rewrite <- Hk2 in Hp. unfold li2 in Hp.
      rewrite take_lookup, list_lookup_fmap in Hp.
      destruct (left_join_indexers (take lk li1) ak !! p) as [[q oj]|] eqn:E;
        [|done].
      destruct (indexers_lookup _ _ _ _ _ E) as (k' & Hq & Hq' & _).
      simpl in Hp. rewrite Hq in Hp. injection Hp as ->.
      by apply (Hrow q).
    + intros av' Hav'. rewrite Hav in Hav'. injection Hav' as <-.
      exists (fill_series (VInt 0) (reindex av ri2)).
      rewrite HP2. run_bind. split; [done|].
      split.
      { rewrite length_fill_series, length_reindex, <- Hk2, length_take.
        unfold li2, ri2. by rewrite !length_map. }
      intros p k Hp Hnot. rewrite <- Hk2 in Hp.
      destruct (unmatched_nan (take lk li1) ak av p k Hp Hnot) as [Hc Hin].
      fold ri2 in Hc, Hin.
      destruct (fill_series_nan _ _ Hc) as (z & Hz & Hzero & Hfl).
      exists z. split; [done|]. split; [done|]. intros Hnum. apply Hfl.
      by apply reindex_float_column.
  - rewrite expand_nil in Hkeys.
    exists (fillna (VInt 0) m1), m1, (fill_series (VInt 0) (take a1 li1)),
      (fill_series (VInt 0) (take a2 li1)),
      (fill_series (VInt 0) (reindex rv ri1)).
    split; [done|]. split; [done|].
    split; [by rewrite len_fillna, Hlen1, Hkeys|].
    rewrite !get_col_fillna, HS1, HA1, HA2, HT1, Hk1, <- Hkeys.
    run_bind.
    split; [done|]. split; [done|].
    split; [intros H; by apply fill_series_not_str, take_not_str|].
    split; [done|].
    split; [intros H; by apply fill_series_not_str, take_not_str|].
    split; [done|].
    split.
    { rewrite length_fill_series, length_reindex, Hkeys, <- Hk1, length_take.
      unfold li1, ri1. by rewrite !length_map. }
    split; [intros H; by apply fill_series_not_str, reindex_not_str|].
    split.
    + intros p k Hp Hnot. rewrite Hkeys, <- Hk1 in Hp.
      destruct (unmatched_nan lk rk rv p k Hp Hnot) as [Hc Hin].
      fold ri1 in Hc, Hin.
      destruct (fill_series_nan _ _ Hc) as (z & Hz & Hzero & Hfl).
      exists z. split; [done|]. split; [done|]. intros Hnum. apply Hfl.
      by apply Hfloat1.
    + intros av Hav. apply get_col_Ok_has in Hav. congruence.
Qed.

(** ** [load_data] on valid sources *)

Lemma load_datasets_readable fs f t m a :
  readable fs f t m a → load_datasets fs = Ok (f, t, m, a).
Proof.
  intros (Hf & Ht & Hm & Ha). unfold load_datasets, read_csv.
  by rewrite Hf, Ht, Hm, Ha.
Qed.

Lemma load_data_readable fs f t m a :
  readable fs f t m a →
  load_data fs =
    (df_forest ← standardize "State/UTs" f;
     df_tree ← standardize "State/ Uts" t;
     df_mangrove ← standardize "state" m;
     df_agro ← standardize "States" a;
     df_forest ← convert "Geographical Area" df_forest;
     df_forest ← convert "Recorded Forest Area - Total" df_forest;
     df_mangrove ← convert "value" df_mangrove;
     df_tree ← convert "Tree Cover - Area" df_tree;
     master_df ← merging df_forest df_tree df_agro;
     Ok (Some {| forest := df_forest; tree := df_tree;
                 mangrove := df_mangrove; agro := df_agro;
                 master := master_df |}, None)).
Proof.
  intros H. unfold load_data. by rewrite (load_datasets_readable _ _ _ _ _ H).
Qed.

Lemma standardize_names_ok raw df :
  names_ok raw df = true → ∃ df', standardize raw df = Ok df'.
Proof.
  intros H. destruct (get_col_cases raw df) as [(s & Hs & _)|[_ Hc]].
  - destruct (standardize_Ok raw df s Hs H) as (names & -> & _). eauto.
  - rewrite (standardize_skip _ _ Hc). eauto.
Qed.

Lemma load_data_valid fs f t m a :
  readable fs f t m a → valid_tables f t m a = true →
  ∃ tb lk a1 a2 rk rv ak M,
    load_data fs = Ok (Some tb, None)
    ∧ merging (forest tb) (tree tb) (agro tb) = Ok M ∧ master tb = M
    ∧ get_col "State" (forest tb) = Ok lk
    ∧ Forall (fun v => is_str v = true) lk
    ∧ len (forest tb) = length lk
    ∧ get_col "Recorded Forest Area - Total" (forest tb) = Ok a1
    ∧ Forall (fun v => is_str v = false) a1
    ∧ get_col "Geographical Area" (forest tb) = Ok a2
    ∧ Forall (fun v => is_str v = false) a2
    ∧ get_col "State" (tree tb) = Ok rk
    ∧ get_col "Tree Cover - Area" (tree tb) = Ok rv
    ∧ Forall (fun v => is_str v = false) rv
    ∧ get_col "State" (agro tb) = Ok ak.
Proof.
  intros Hread Hv. rewrite (load_data_readable _ _ _ _ _ Hread).
  unfold valid_tables, has_columns in Hv. cbn [forallb] in Hv.
  repeat match goal with
         | H : _ && _ = true |- _ => apply andb_true_iff in H as [H ?]
         end.
  rename select (has_column "State/UTs" f = true) into Hsf.
  rename select (has_column "Recorded Forest Area - Total" f = true) into Hrfa.
  rename select (has_column "Geographical Area" f = true) into Hga.
  rename select (has_column "State/ Uts" t = true) into Hst.
  rename select (has_column "Tree Cover - Area" t = true) into Htc.
  rename select (has_column "States" a = true) into Hsa.
  apply has_column_true in Hsf as [sf Hsf], Hrfa as [rfa Hrfa],
    Hga as [ga Hga], Hst as [st Hst], Htc as [tc Htc], Hsa as [sa Hsa].
  rename select (rectangular f = true) into Hrect.
  destruct (standardize_Ok _ _ _ Hsf ltac:(done)) as (nf & -> & Hlf & Hstrf).
  destruct (standardize_Ok _ _ _ Hst ltac:(done)) as (nt & -> & Hlt & Hstrt).
  destruct (standardize_names_ok "state" m ltac:(done)) as (m1 & ->).
  destruct (standardize_Ok _ _ _ Hsa ltac:(done)) as (na & -> & Hla & Hstra).
  run_bind.
  set (f1 := set_col "State" nf f) in *.
  set (t1 := set_col "State" nt t) in *.
  assert (Hga1 : get_col "Geographical Area" f1 = Ok ga)
    by (unfold f1; by rewrite get_col_set_col_ne).
  rewrite (convert_eq _ f1), Hga1. run_bind.
  set (f2 := set_col "Geographical Area" _ f1).
  assert (Hrfa2 : get_col "Recorded Forest Area - Total" f2 = Ok rfa).
  { unfold f2, f1. by rewrite !get_col_set_col_ne. }
  rewrite (convert_eq _ f2), Hrfa2. run_bind.
  set (f3 := set_col "Recorded Forest Area - Total" _ f2).
  rewrite (convert_eq _ m1). run_bind.
  set (m2 := match get_col "value" m1 with Ok _ => _ | Raise _ => _ end).
  assert (Htc1 : get_col "Tree Cover - Area" t1 = Ok tc)
    by (unfold t1; by rewrite get_col_set_col_ne).
  rewrite (convert_eq _ t1), Htc1. run_bind.
  set (t2 := set_col "Tree Cover - Area" _ t1).
  set (a1 := set_col "State" na a).
  assert (HS3 : get_col "State" f3 = Ok nf).
  { unfold f3, f2, f1. rewrite !get_col_set_col_ne by done.
    apply get_col_set_col. }
  assert (HR3 : get_col "Recorded Forest Area - Total" f3
                = Ok (coerced rfa)) by apply get_col_set_col.
  assert (HG3 : get_col "Geographical Area" f3 = Ok (coerced ga)).
  { unfold f3. rewrite get_col_set_col_ne by done. apply get_col_set_col. }
  assert (HS2 : get_col "State" t2 = Ok nt).
  { unfold t2, t1. rewrite get_col_set_col_ne by done. apply get_col_set_col. }
  assert (HT2 : get_col "Tree Cover - Area" t2 = Ok (coerced tc))
    by apply get_col_set_col.
  assert (HA1 : get_col "State" a1 = Ok na) by apply get_col_set_col.
  destruct (merging_spec f3 t2 a1 _ _ _ _ _ HS3 HR3 HG3 HS2 HT2) with
    (keys := expand (agro_keys a1) (expand nt nf))
    as (M & _ & _ & _ & _ & HM & _); [|done|].
  { intros _. apply has_column_true. eauto. }
  rewrite HM. run_bind.
  eexists _, nf, _, _, nt, _, na, M. split; [reflexivity|]. cbn [forest tree agro master].
  split; [done|]. split; [done|]. split; [done|]. split; [done|]. split.
  { assert (Hne : f ≠ []) by (by destruct f).
    pose proof (rectangular_get_col _ _ _ Hrect Hsf) as L0.
    pose proof (rectangular_get_col _ _ _ Hrect Hga) as L1.
    pose proof (rectangular_get_col _ _ _ Hrect Hrfa) as L2.
    destruct (set_col_rectangular "State" nf f Hne Hrect ltac:(lia))
      as (R1 & E1 & N1). fold f1 in R1, E1, N1.
    destruct (set_col_rectangular "Geographical Area" (coerced ga)
                f1 N1 R1 ltac:(rewrite length_coerced; lia)) as (R2 & E2 & N2).
    fold f2 in R2, E2, N2.
    destruct (set_col_rectangular "Recorded Forest Area - Total"
                (coerced rfa) f2 N2 R2
                ltac:(rewrite length_coerced; lia)) as (R3 & E3 & N3).
    fold f3 in E3. lia. }
  split; [done|]. split; [apply coerced_not_str|].
  split; [done|]. split; [apply coerced_not_str|].
  split; [done|]. split; [done|]. split; [apply coerced_not_str|]. done.
Qed.

(** [load_data] on valid sources, in closed form: what it returns and what
    the columns of the master table are. *)
Lemma valid_master fs f t m a :
  readable fs f t m a → valid_tables f t m a = true →
  ∃ tb rf tk ak rv c1 c2 tc M0,
    load_data fs = Ok (Some tb, None)
    ∧ get_col "State" (forest tb) = Ok rf
    ∧ Forall (fun v => is_str v = true) rf
    ∧ len (forest tb) = length rf
    ∧ get_col "State" (tree tb) = Ok tk
    ∧ get_col "State" (agro tb) = Ok ak
    ∧ get_col "Tree Cover - Area" (tree tb) = Ok rv
    ∧ master tb = fillna (VInt 0) M0
    ∧ len (master tb) = length (expand (agro_keys (agro tb)) (expand tk rf))
    ∧ get_col "State" (master tb)
      = Ok (expand (agro_keys (agro tb)) (expand tk rf))
    ∧ get_col "Recorded Forest Area - Total" (master tb) = Ok c1
    ∧ Forall (fun v => is_str v = false) c1
    ∧ get_col "Geographical Area" (master tb) = Ok c2
    ∧ Forall (fun v => is_str v = false) c2
    ∧ get_col "Tree Cover - Area" (master tb) = Ok tc
    ∧ length tc = length (expand (agro_keys (agro tb)) (expand tk rf))
    ∧ Forall (fun v => is_str v = false) tc
    ∧ (∀ p k, expand (agro_keys (agro tb)) (expand tk rf) !! p = Some k →
              k ∉ tk →
              ∃ z, tc !! p = Some z ∧ is_zero z = true
                   ∧ (int_column rv || float_column rv = true →
                      z = VFloat zero))
    ∧ (∀ av, get_col "Precipitation_mm" (agro tb) = Ok av →
         ∃ pc, get_col "Precipitation_mm" (master tb) = Ok pc
               ∧ length pc
                 = length (expand (agro_keys (agro tb)) (expand tk rf))
               ∧ ∀ p k,
                   expand (agro_keys (agro tb)) (expand tk rf) !! p = Some k →
                   k ∉ agro_keys (agro tb) →
                   ∃ z, pc !! p = Some z ∧ is_zero z = true
                        ∧ (int_column av || float_column av = true →
                           z = VFloat zero)).
Proof.
  intros Hr Hv.
  destruct (load_data_valid _ _ _ _ _ Hr Hv)
    as (tb & rf & a1 & a2 & tk & rv & ak & M & Hload & Hm & HM & Hrf & Hstr
        & Hlen & Ha1 & Hs1 & Ha2 & Hs2 & Htk & Hrv & Hs3 & Hak).
  destruct (merging_spec (forest tb) (tree tb) (agro tb) _ _ _ _ _
              Hrf Ha1 Ha2 Htk Hrv) with
    (keys := expand (agro_keys (agro tb)) (expand tk rf))
    as (M' & M0 & c1 & c2 & tc & HM' & HM0 & Hl & HS & H1 & E1 & H2 & E2
        & H3 & L3 & E3 & Hz & Hp); [|done|].
  { intros _. apply has_column_true. eauto. }
  rewrite Hm in HM'. injection HM' as <-. rewrite <- HM in *.
  assert (Hfill : fill_series (VInt 0)
                    (expand (agro_keys (agro tb)) (expand tk rf))
                  = expand (agro_keys (agro tb)) (expand tk rf)).
  { apply fill_series_id. apply Forall_forall. intros v Hv'.
    apply elem_of_expand, elem_of_expand in Hv'.
    rewrite Forall_forall in Hstr. specialize (Hstr v Hv').
    by destruct v as [| | |[]|]. }
  rewrite Hfill in HS.
  exists tb, rf, tk, ak, rv, c1, c2, tc, M0.
  repeat (split; [done|]). split; [by apply E1|].
  split; [done|]. split; [by apply E2|].
  split; [done|]. split; [done|]. split; [by apply E3|]. by split.
Qed.

Lemma agro_keys_NoDup a ak :
  get_col "State" a = Ok ak → NoDup ak → NoDup (agro_keys a).
Proof.
  intros H Hnd. unfold agro_keys. rewrite H.
  destruct (has_column _ a); [done|constructor].
Qed.

Lemma sublist_expand rk lk : lk `sublist_of` expand rk lk.
Proof.
  induction lk as [|k lk IH]; [done|].
  change (expand rk (k :: lk)) with (replicate (fanout rk k) k ++ expand rk lk).
  pose proof (fanout_pos rk k). destruct (fanout rk k) as [|n]; [lia|].
  simpl. apply sublist_skip. by apply sublist_inserts_l.
Qed.

Lemma readable_store f t m a : readable (store f t m a) f t m a.
Proof. by repeat split. Qed.

(** ** The master table *)










(** ** Source failures *)

(** Claim C3, as amended.  When a source file is missing and the files
    read before it were read, [load_data] returns no tables and the one
    message that names the missing file; when instead that file exists and
    cannot be read as a table, [load_data] returns nothing: the error of
    [read_csv] is raised to the caller. *)
Theorem load_data_source_failure fs (before after : list string) path :
  sources = before ++ path :: after →
  (∀ q, q ∈ before → ∃ df, fs !! q = Some (Table df)) →
  (fs !! path = None →
   load_data fs = Ok (None, Some ("Error loading file: " +:+ strerror path)))
  ∧ (∀ e, fs !! path = Some (Unreadable e) →
          load_data fs = Raise (ReadError e path)).
Proof.
  intros Hsrc Hbefore. unfold sources in Hsrc.
  assert (Hread : ∀ q, q ∈ before → ∃ df, read_csv fs q = Ok df).
  { intros q Hq. destruct (Hbefore q Hq) as [df Hdf]. exists df.
    unfold read_csv. by rewrite Hdf. }
  assert (Hmiss : fs !! path = None →
                  read_csv fs path = Raise (FileNotFoundError path)).
  { intros H. unfold read_csv. by rewrite H. }
  assert (Hbad : ∀ e, fs !! path = Some (Unreadable e) →
                      read_csv fs path = Raise (ReadError e path)).
  { intros e H. unfold read_csv. by rewrite H. }
  clear Hbefore. unfold load_data, load_datasets.
  destruct before as [|b1 [|b2 [|b3 [|b4 before]]]]; simplify_eq/=.
  - split; [intros ->%Hmiss|intros e ->%Hbad]; done.
  - destruct (Hread forest_path ltac:(by left)) as [? ->].
    split; [intros ->%Hmiss|intros e ->%Hbad]; done.
  - destruct (Hread forest_path ltac:(by left)) as [? ->].
    destruct (Hread tree_path ltac:(by right; left)) as [? ->].
    split; [intros ->%Hmiss|intros e ->%Hbad]; done.
  - destruct (Hread forest_path ltac:(by left)) as [? ->].
    destruct (Hread tree_path ltac:(by right; left)) as [? ->].
    destruct (Hread mangrove_path ltac:(by right; right; left)) as [? ->].
    split; [intros ->%Hmiss|intros e ->%Hbad]; done.
  - by destruct before.
Qed.

Lemma load_data_source_failure_witness :
  sources = [] ++ forest_path :: [tree_path; mangrove_path; agro_path]
  ∧ load_data (delete forest_path (store ex_forest ex_tree ex_mangrove ex_agro))
    = Ok (None,
          Some "Error loading file: [Errno 2] No such file or directory: 'Recorded_Forest_Area.csv'").
Proof.
  split; [reflexivity|].
  apply (load_data_source_failure _ [] [tree_path; mangrove_path; agro_path]
           forest_path); [reflexivity| |reflexivity].
  intros q Hq. by apply elem_of_nil in Hq.
Defined.

(** Claim C3 as stated fails on a file that exists and does not parse:
    only [FileNotFoundError] is caught, so the parser's error leaves
    [load_data] as an exception, not as the pair of no tables and a
    message. *)
Lemma load_data_unparsable_raises :
  load_data (<[forest_path := Unreadable ParserError]>
               (store ex_forest ex_tree ex_mangrove ex_agro))
  = Raise (ReadError ParserError forest_path).
Proof. vm_compute. reflexivity. Qed.

(** ** A forest table without its raw-name column *)

Lemma select_missing c cols df :
  c ∈ cols → c ∉ columns df →
  ∃ labels, select cols df = Raise (KeyError labels) ∧ c ∈ labels.
Proof.
  intros Hc Hm. unfold select.
  assert (Hin : c ∈ filter (λ c, c ∉ columns df) cols)
    by (by apply list_elem_of_filter).
  destruct (filter (λ c, c ∉ columns df) cols) as [|c0 miss];
    [by apply elem_of_nil in Hin|]. eauto.
Qed.

Lemma columns_convert col df c :
  c ∈ columns
        match get_col col df with
        | Ok s => set_col col (coerced s) df
        | Raise _ => df
        end
  ↔ c ∈ columns df.
Proof.
  destruct (get_col col df) as [s|] eqn:E; [|done].
  rewrite columns_set_col. split; [|by right].
  intros [->|?]; [|done]. apply get_col_Ok. eauto.
Qed.

(** Without a [State] column in the forest table, step 4 fails at its first
    selection, whatever the other tables are. *)
Lemma merging_without_state f t a :
  "State" ∉ columns f →
  ∃ labels, merging f t a = Raise (KeyError labels) ∧ "State" ∈ labels.
Proof.
  intros H. unfold merging.
  destruct (select_missing "State"
              ["State"; "Recorded Forest Area - Total"; "Geographical Area"]
              f ltac:(by left) H) as (labels & -> & Hin).
  by exists labels.
Qed.

(** Claim C9, as amended.  With the four files read, a forest table that
    has neither the raw-name column [State/UTs] nor a [State] column of its
    own makes [load_data] return nothing, neither tables nor the pair of no
    tables and a message; when the names of the other three tables are
    strings or missing values, what it raises is the KeyError of the master
    construction, which lists [State]. *)
Theorem load_data_forest_without_state fs f t m a :
  readable fs f t m a →
  has_column "State/UTs" f = false → has_column "State" f = false →
  (∀ r, load_data fs ≠ Ok r)
  ∧ (names_ok "State/ Uts" t = true → names_ok "state" m = true →
     names_ok "States" a = true →
     ∃ labels, load_data fs = Raise (KeyError labels) ∧ "State" ∈ labels).
Proof.
  intros Hr Hraw Hstate. rewrite (load_data_readable _ _ _ _ _ Hr).
  rewrite (standardize_skip _ _ Hraw). run_bind.
  assert (Hend : ∀ t1 m1 a1,
    ∃ labels,
      (df_forest ← convert "Geographical Area" f;
       df_forest ← convert "Recorded Forest Area - Total" df_forest;
       df_mangrove ← convert "value" m1;
       df_tree ← convert "Tree Cover - Area" t1;
       master_df ← merging df_forest df_tree a1;
       Ok (Some {| forest := df_forest; tree := df_tree;
                   mangrove := df_mangrove; agro := a1;
                   master := master_df |}, @None string))
      = Raise (KeyError labels) ∧ "State" ∈ labels).
  { intros t1 m1 a1. rewrite (convert_eq _ f). run_bind.
    rewrite (convert_eq "Recorded Forest Area - Total").
    run_bind.
    rewrite (convert_eq _ m1). run_bind.
    rewrite (convert_eq _ t1). run_bind.
    match goal with
    | |- context [merging ?f3 ?t2 a1] =>
        destruct (merging_without_state f3 t2 a1) as (labels & -> & Hin)
    end.
    - rewrite !columns_convert. unfold has_column in Hstate.
      by apply bool_decide_eq_false in Hstate.
    - by exists labels. }
  split.
  - intros r.
    destruct (standardize "State/ Uts" t) as [t1|]; [|done].
    destruct (standardize "state" m) as [m1|]; [|done].
    destruct (standardize "States" a) as [a1|]; [|done].
    run_bind. destruct (Hend t1 m1 a1) as (labels & -> & _).
    done.
  - intros Ht Hm Ha.
    destruct (standardize_names_ok _ _ Ht) as [t1 ->].
    destruct (standardize_names_ok _ _ Hm) as [m1 ->].
    destruct (standardize_names_ok _ _ Ha) as [a1 ->].
    run_bind. apply Hend.
Qed.

Lemma load_data_forest_without_state_witness :
  readable (store (tail ex_forest) ex_tree ex_mangrove ex_agro)
    (tail ex_forest) ex_tree ex_mangrove ex_agro
  ∧ has_column "State/UTs" (tail ex_forest) = false
  ∧ has_column "State" (tail ex_forest) = false
  ∧ ∃ labels,
      load_data (store (tail ex_forest) ex_tree ex_mangrove ex_agro)
      = Raise (KeyError labels) ∧ "State" ∈ labels.
Proof.
  split; [repeat split; reflexivity|]. split; [reflexivity|].
  split; [reflexivity|].
  apply (load_data_forest_without_state _ (tail ex_forest) ex_tree ex_mangrove
           ex_agro); try reflexivity.
  repeat split; reflexivity.
Defined.

(** Claim C9 as stated fails on a forest table that lacks [State/UTs] and
    brings a [State] column of its own: the master table is built from that
    column and [load_data] returns its tables. *)
Lemma load_data_forest_with_state_returns :
  has_column "State/UTs" ex_forest_state = false
  ∧ ∃ tb, load_data (store ex_forest_state ex_tree ex_mangrove ex_agro)
          = Ok (Some tb, None)
          ∧ regions (master tb) = Ok [cell "Sikkim"].
Proof. split; [reflexivity|]. eexists. vm_compute. done. Qed.

(** * Further properties *)

(** ** What [load_data] returns, step by step *)

Lemma bind_Ok {A B} (m : result A) (f : A → result B) r :
  m ≫= f = Ok r → ∃ a, m = Ok a ∧ f a = Ok r.
Proof. destruct m as [a|e]; [eauto|done]. Qed.

Lemma read_csv_Ok fs path df :
  read_csv fs path = Ok df → fs !! path = Some (Table df).
Proof.
  unfold read_csv. destruct (fs !! path) as [[e|df']|]; [done| |done].
  by intros [= ->].
Qed.

Lemma load_datasets_Ok fs f t m a :
  load_datasets fs = Ok (f, t, m, a) → readable fs f t m a.
Proof.
  unfold load_datasets.
  intros (f' & Hf & H)%bind_Ok. apply bind_Ok in H as (t' & Ht & H).
  apply bind_Ok in H as (m' & Hm & H). apply bind_Ok in H as (a' & Ha & H).
  injection H as <- <- <- <-.
  repeat split; by apply read_csv_Ok.
Qed.

(** What [load_data] did when it returned its tables. *)
Lemma load_data_returned fs tb o :
  load_data fs = Ok (Some tb, o) →
  o = None
  ∧ ∃ f t m a f1 t1 m1 f2,
      readable fs f t m a
      ∧ standardize "State/UTs" f = Ok f1
      ∧ standardize "State/ Uts" t = Ok t1
      ∧ standardize "state" m = Ok m1
      ∧ standardize "States" a = Ok (agro tb)
      ∧ convert "Geographical Area" f1 = Ok f2
      ∧ convert "Recorded Forest Area - Total" f2 = Ok (forest tb)
      ∧ convert "value" m1 = Ok (mangrove tb)
      ∧ convert "Tree Cover - Area" t1 = Ok (tree tb)
      ∧ merging (forest tb) (tree tb) (agro tb) = Ok (master tb).
Proof.
  unfold load_data.
  destruct (load_datasets fs) as [[[[f t] m] a]|e] eqn:E;
    [|destruct e; done].
  apply load_datasets_Ok in E.
  intros (f1 & Hf1 & H)%bind_Ok. apply bind_Ok in H as (t1 & Ht1 & H).
  apply bind_Ok in H as (m1 & Hm1 & H). apply bind_Ok in H as (a1 & Ha1 & H).
  apply bind_Ok in H as (f2 & Hf2 & H). apply bind_Ok in H as (f3 & Hf3 & H).
  apply bind_Ok in H as (m2 & Hm2 & H). apply bind_Ok in H as (t2 & Ht2 & H).
  apply bind_Ok in H as (M & HM & H). injection H as Htb Ho.
  subst tb o. cbn [forest tree mangrove agro master].
  split; [done|]. exists f, t, m, a, f1, t1, m1, f2. split; [exact E|]. by repeat split.
Qed.

Lemma columns_set_col_eq col s df :
  columns (set_col col s df) = with_label col df.
Proof.
  unfold with_label, has_column, columns.
  induction df as [|[c s0] df IH]; [done|]. cbn [set_col].
  destruct (decide (c = col)) as [->|Hne].
  - rewrite bool_decide_eq_true_2 by (by left). done.
  - cbn [fmap list_fmap fst]. cbn [fmap] in IH. rewrite IH.
    destruct (decide (col ∈ df.*1)) as [Hin|Hin].
    + rewrite !bool_decide_eq_true_2; [done| |done]. by right.
    + rewrite !bool_decide_eq_false_2; [done| |done].
      intros [?|?]%elem_of_cons; [congruence|done].
Qed.

(** Step 2 on one table. *)
Lemma standardize_inv raw df df' :
  standardize raw df = Ok df' →
  columns df' = standardized_labels raw df
  ∧ (∀ c, c ≠ "State" → get_col c df' = get_col c df)
  ∧ (has_column raw df = false → df' = df)
  ∧ (has_column raw df = true →
     ∃ s names, get_col raw df = Ok s ∧ get_col "State" df' = Ok names
                ∧ normalized s names).
Proof.
  unfold standardize, standardized_labels.
  destruct (has_column raw df) eqn:Hraw.
  - intros (s & Hs & H)%bind_Ok. apply bind_Ok in H as (names & Hn & H).
    injection H as <-. split; [apply columns_set_col_eq|].
    split; [intros c Hc; by apply get_col_set_col_ne|]. split; [done|].
    intros _. exists s, names. split; [done|].
    split; [apply get_col_set_col|].
    apply apply_Forall2 in Hn. eapply Forall2_impl; [exact Hn|].
    intros v n. simpl. intros (name & Hname & H)%bind_Ok.
    injection H as <-. eauto.
  - intros [= <-]. by repeat split.
Qed.

(** Step 3 on one column. *)
Lemma convert_inv col df df' :
  convert col df = Ok df' →
  columns df' = columns df
  ∧ (∀ c, c ≠ col → get_col c df' = get_col c df)
  ∧ (∀ s, get_col col df = Ok s → get_col col df' = Ok (coerced s)).
Proof.
  rewrite convert_eq. intros [= <-].
  destruct (get_col col df) as [s|e] eqn:E.
  - split.
    + rewrite columns_set_col_eq. unfold with_label.
      by rewrite (get_col_Ok_has _ _ _ E).
    + split; [intros c Hc; by apply get_col_set_col_ne|].
      intros s' [= <-]. apply get_col_set_col.
  - by repeat split.
Qed.

Lemma ex_store_returned :
  load_data ex_store = Ok (Some (returned ex_store), None).
Proof. vm_compute. reflexivity. Qed.

Lemma readable_inj fs f t m a f' t' m' a' :
  readable fs f t m a → readable fs f' t' m' a' →
  f' = f ∧ t' = t ∧ m' = m ∧ a' = a.
Proof.
  intros (H1 & H2 & H3 & H4) (H1' & H2' & H3' & H4').
  rewrite H1 in H1'. rewrite H2 in H2'. rewrite H3 in H3'. rewrite H4 in H4'.
  by simplify_eq.
Qed.

(** The steps of [load_data] on the tables that were read. *)
Lemma load_data_steps fs f t m a tb :
  readable fs f t m a → load_data fs = Ok (Some tb, None) →
  ∃ f1 t1 m1 f2,
    standardize "State/UTs" f = Ok f1
    ∧ standardize "State/ Uts" t = Ok t1
    ∧ standardize "state" m = Ok m1
    ∧ standardize "States" a = Ok (agro tb)
    ∧ convert "Geographical Area" f1 = Ok f2
    ∧ convert "Recorded Forest Area - Total" f2 = Ok (forest tb)
    ∧ convert "value" m1 = Ok (mangrove tb)
    ∧ convert "Tree Cover - Area" t1 = Ok (tree tb)
    ∧ merging (forest tb) (tree tb) (agro tb) = Ok (master tb).
Proof.
  intros Hr H.
  destruct (load_data_returned _ _ _ H)
    as (_ & f' & t' & m' & a' & f1 & t1 & m1 & f2 & Hr' & H').
  destruct (readable_inj _ _ _ _ _ _ _ _ _ Hr Hr') as (-> & -> & -> & ->).
  by exists f1, t1, m1, f2.
Qed.

(** The source tables come back with their columns: every column other
    than [State] and the coerced ones is returned cell for cell, the
    raw-name column among them, and the labels keep their order, [State]
    coming last when it is new. *)
Theorem load_data_keeps_columns fs f t m a tb :
  readable fs f t m a → load_data fs = Ok (Some tb, None) →
  (∀ c, c ∉ ["State"; "Geographical Area"; "Recorded Forest Area - Total"] →
        get_col c (forest tb) = get_col c f)
  ∧ (∀ c, c ∉ ["State"; "Tree Cover - Area"] →
          get_col c (tree tb) = get_col c t)
  ∧ (∀ c, c ∉ ["State"; "value"] → get_col c (mangrove tb) = get_col c m)
  ∧ (∀ c, c ≠ "State" → get_col c (agro tb) = get_col c a)
  ∧ columns (forest tb) = standardized_labels "State/UTs" f
  ∧ columns (tree tb) = standardized_labels "State/ Uts" t
  ∧ columns (mangrove tb) = standardized_labels "state" m
  ∧ columns (agro tb) = standardized_labels "States" a.
Proof.
  intros Hr H.
  destruct (load_data_steps _ _ _ _ _ _ Hr H)
    as (f1 & t1 & m1 & f2 & Hf1 & Ht1 & Hm1 & Ha1 & Hf2 & Hf3 & Hm2 & Ht2 & _).
  apply standardize_inv in Hf1 as (Cf1 & Kf1 & _).
  apply standardize_inv in Ht1 as (Ct1 & Kt1 & _).
  apply standardize_inv in Hm1 as (Cm1 & Km1 & _).
  apply standardize_inv in Ha1 as (Ca1 & Ka1 & _).
  apply convert_inv in Hf2 as (Cf2 & Kf2 & _).
  apply convert_inv in Hf3 as (Cf3 & Kf3 & _).
  apply convert_inv in Hm2 as (Cm2 & Km2 & _).
  apply convert_inv in Ht2 as (Ct2 & Kt2 & _).
  repeat split.
  - intros c Hc. rewrite !not_elem_of_cons in Hc. destruct Hc as (?&?&?&_).
    by rewrite Kf3, Kf2, Kf1.
  - intros c Hc. rewrite !not_elem_of_cons in Hc. destruct Hc as (?&?&_).
    by rewrite Kt2, Kt1.
  - intros c Hc. rewrite !not_elem_of_cons in Hc. destruct Hc as (?&?&_).
    by rewrite Km2, Km1.
  - done.
  - by rewrite Cf3, Cf2.
  - by rewrite Ct2.
  - by rewrite Cm2.
  - done.
Qed.

Lemma load_data_keeps_columns_witness :
  readable ex_store ex_forest ex_tree ex_mangrove ex_agro
  ∧ load_data ex_store = Ok (Some (returned ex_store), None)
  ∧ get_col "State/UTs" (forest (returned ex_store))
    = Ok [cell " andhra pradesh "; cell "Sikkim"]
  ∧ get_col "year" (mangrove (returned ex_store)) = Ok [VInt 2023]
  ∧ columns (forest (returned ex_store))
    = ["State/UTs"; "Recorded Forest Area - Total"; "Geographical Area";
       "State"].
Proof.
  assert (Hr : readable ex_store ex_forest ex_tree ex_mangrove ex_agro)
    by (repeat split; reflexivity).
  destruct (load_data_keeps_columns ex_store ex_forest ex_tree ex_mangrove
              ex_agro (returned ex_store) Hr ex_store_returned)
    as (Hf & _ & Hm & _ & Cf & _).
  split; [exact Hr|]. split; [exact ex_store_returned|].
  split; [|split].
  - rewrite Hf; [reflexivity|].
    rewrite !not_elem_of_cons. repeat split; try done. apply not_elem_of_nil.
  - rewrite Hm; [reflexivity|].
    rewrite !not_elem_of_cons. repeat split; try done. apply not_elem_of_nil.
  - rewrite Cf. reflexivity.
Defined.

(** The [State] column of each returned table is its raw-name column,
    normalized row by row; a table without its raw-name column keeps the
    [State] column it came with, or none. *)
Theorem load_data_state_column fs f t m a tb :
  readable fs f t m a → load_data fs = Ok (Some tb, None) →
  ∀ raw src out,
    (raw, src, out) ∈ [("State/UTs", f, forest tb); ("State/ Uts", t, tree tb);
                       ("state", m, mangrove tb); ("States", a, agro tb)] →
    (has_column raw src = false → get_col "State" out = get_col "State" src)
    ∧ (∀ s, get_col raw src = Ok s →
         ∃ names, get_col "State" out = Ok names ∧ normalized s names).
Proof.
  intros Hr H.
  destruct (load_data_steps _ _ _ _ _ _ Hr H)
    as (f1 & t1 & m1 & f2 & Hf1 & Ht1 & Hm1 & Ha1 & Hf2 & Hf3 & Hm2 & Ht2 & _).
  apply convert_inv in Hf2 as (_ & Kf2 & _).
  apply convert_inv in Hf3 as (_ & Kf3 & _).
  apply convert_inv in Hm2 as (_ & Km2 & _).
  apply convert_inv in Ht2 as (_ & Kt2 & _).
  assert (Hgen : ∀ raw src mid out,
    standardize raw src = Ok mid →
    get_col "State" out = get_col "State" mid →
    (has_column raw src = false → get_col "State" out = get_col "State" src)
    ∧ (∀ s, get_col raw src = Ok s →
         ∃ names, get_col "State" out = Ok names ∧ normalized s names)).
  { intros raw src mid out Hs Ho.
    apply standardize_inv in Hs as (_ & _ & Hskip & Hset). split.
    - intros Hn. by rewrite Ho, (Hskip Hn).
    - intros s Hs. destruct (Hset (get_col_Ok_has _ _ _ Hs))
        as (s' & names & Hs' & Hn & HN).
      rewrite Hs in Hs'. injection Hs' as <-. exists names.
      by rewrite Ho. }
  intros raw src out Hin.
  repeat (apply elem_of_cons in Hin as [[= -> -> ->]|Hin]);
    [..|by apply elem_of_nil in Hin].
  - eapply Hgen; [exact Hf1|]. by rewrite Kf3, Kf2.
  - eapply Hgen; [exact Ht1|]. by rewrite Kt2.
  - eapply Hgen; [exact Hm1|]. by rewrite Km2.
  - eapply Hgen; [exact Ha1|]. done.
Qed.

Lemma load_data_state_column_witness :
  readable ex_store ex_forest ex_tree ex_mangrove ex_agro
  ∧ load_data ex_store = Ok (Some (returned ex_store), None)
  ∧ ∃ names, get_col "State" (forest (returned ex_store)) = Ok names
             ∧ normalized [cell " andhra pradesh "; cell "Sikkim"] names.
Proof.
  assert (Hr : readable ex_store ex_forest ex_tree ex_mangrove ex_agro)
    by (repeat split; reflexivity).
  split; [exact Hr|]. split; [exact ex_store_returned|].
  apply (load_data_state_column ex_store ex_forest ex_tree ex_mangrove
           ex_agro (returned ex_store) Hr ex_store_returned
           "State/UTs" ex_forest (forest (returned ex_store)));
    [by left|reflexivity].
Defined.

Lemma coerced_lookup s i v :
  s !! i = Some v →
  ∃ w, coerced s !! i = Some w
       ∧ (w = clean_numeric v ∨ ∃ z, v = VInt z ∧ w = VFloat (float_of_int z)).
Proof.
  intros Hv. unfold coerced, maybe_convert_objects.
  destruct (_ && _).
  - rewrite !list_lookup_fmap, Hv. simpl. eexists. split; [done|].
    destruct v; simpl; eauto. destruct (float_of_str _); simpl; eauto.
  - rewrite list_lookup_fmap, Hv. simpl. eauto.
Qed.

(** The four coerced columns, cell by cell: a string has become the float
    the coercer makes of it, any other cell is as it was, but that an
    integer is stored as a float when the column holds floats too.  No
    string is left, and a missing value is still missing: the source tables
    are not zero-filled. *)
Theorem load_data_numeric_columns fs f t m a tb :
  readable fs f t m a → load_data fs = Ok (Some tb, None) →
  ∀ col src out,
    (col, src, out) ∈ [("Geographical Area", f, forest tb);
                       ("Recorded Forest Area - Total", f, forest tb);
                       ("value", m, mangrove tb);
                       ("Tree Cover - Area", t, tree tb)] →
    ∀ s, get_col col src = Ok s →
      ∃ cs, get_col col out = Ok cs ∧ length cs = length s
        ∧ ∀ i v, s !! i = Some v →
            ∃ w, cs !! i = Some w
                 ∧ (w = clean_numeric v
                    ∨ ∃ z, v = VInt z ∧ w = VFloat (float_of_int z))
                 ∧ is_str w = false
                 ∧ (is_str v = true → is_float w = true)
                 ∧ (isna v = true → isna w = true).
Proof.
  intros Hr H.
  destruct (load_data_steps _ _ _ _ _ _ Hr H)
    as (f1 & t1 & m1 & f2 & Hf1 & Ht1 & Hm1 & Ha1 & Hf2 & Hf3 & Hm2 & Ht2 & _).
  apply standardize_inv in Hf1 as (_ & Kf1 & _).
  apply standardize_inv in Ht1 as (_ & Kt1 & _).
  apply standardize_inv in Hm1 as (_ & Km1 & _).
  apply convert_inv in Hf2 as (_ & Kf2 & Vf2).
  apply convert_inv in Hf3 as (_ & Kf3 & Vf3).
  apply convert_inv in Hm2 as (_ & Km2 & Vm2).
  apply convert_inv in Ht2 as (_ & Kt2 & Vt2).
  assert (Hgen : ∀ col out s,
    get_col col out = Ok (coerced s) →
    ∃ cs, get_col col out = Ok cs ∧ length cs = length s
      ∧ ∀ i v, s !! i = Some v →
          ∃ w, cs !! i = Some w
               ∧ (w = clean_numeric v
                  ∨ ∃ z, v = VInt z ∧ w = VFloat (float_of_int z))
               ∧ is_str w = false
               ∧ (is_str v = true → is_float w = true)
               ∧ (isna v = true → isna w = true)).
  { intros col out s Ho. exists (coerced s). split; [done|].
    split; [apply length_coerced|]. intros i v Hv.
    destruct (coerced_lookup _ _ _ Hv) as (w & Hw & Hcase).
    exists w. split; [done|]. split; [done|].
    destruct Hcase as [->|(z & -> & ->)]; [|done].
    split; [apply clean_numeric_not_str|]. split.
    - destruct v; try done. intros _. rewrite clean_numeric_str.
      by destruct (float_of_str _).
    - by destruct v. }
  intros col src out Hin s Hs.
  repeat (apply elem_of_cons in Hin as [[= -> -> ->]|Hin]);
    [..|by apply elem_of_nil in Hin]; apply Hgen.
  - rewrite Kf3 by done. apply Vf2. by rewrite Kf1.
  - apply Vf3. by rewrite Kf2, Kf1.
  - apply Vm2. by rewrite Km1.
  - apply Vt2. by rewrite Kt1.
Qed.

Lemma load_data_numeric_columns_witness :
  readable ex_store ex_forest ex_tree ex_mangrove ex_agro
  ∧ load_data ex_store = Ok (Some (returned ex_store), None)
  ∧ ∃ cs, get_col "value" (mangrove (returned ex_store)) = Ok cs
          ∧ length cs = 1.
Proof.
  assert (Hr : readable ex_store ex_forest ex_tree ex_mangrove ex_agro)
    by (repeat split; reflexivity).
  split; [exact Hr|]. split; [exact ex_store_returned|].
  destruct (load_data_numeric_columns ex_store ex_forest ex_tree ex_mangrove
              ex_agro (returned ex_store) Hr ex_store_returned
              "value" ex_mangrove (mangrove (returned ex_store))
              ltac:(by right; right; left) [VInt 405] eq_refl)
    as (cs & Hcs & Hlen & _).
  by exists cs.
Defined.

(** ** The shape of the returned tables *)

Lemma apply_length f s t : apply f s = Ok t → length t = length s.
Proof. intros H%apply_Forall2. symmetry. by eapply Forall2_length. Qed.

Lemma set_col_shape col s df :
  rectangular df = true → length s = len df → df ≠ [] →
  rectangular (set_col col s df) = true ∧ len (set_col col s df) = len df.
Proof.
  intros Hr Hs Hne.
  destruct (set_col_rectangular col s df Hne Hr Hs) as (? & ? & _). done.
Qed.

Lemma standardize_shape raw df df' :
  rectangular df = true → standardize raw df = Ok df' →
  rectangular df' = true ∧ len df' = len df.
Proof.
  intros Hr. unfold standardize. destruct (has_column raw df) eqn:Hraw.
  - intros (s & Hs & H)%bind_Ok. apply bind_Ok in H as (names & Hn & H).
    injection H as <-. apply set_col_shape; [done| |by destruct df].
    rewrite (apply_length _ _ _ Hn). by eapply rectangular_get_col.
  - by intros [= <-].
Qed.

Lemma convert_shape col df df' :
  rectangular df = true → convert col df = Ok df' →
  rectangular df' = true ∧ len df' = len df.
Proof.
  intros Hr. rewrite convert_eq. intros [= <-].
  destruct (get_col col df) as [s|] eqn:E; [|done].
  apply set_col_shape; [done| |by destruct df].
  rewrite length_coerced. by eapply rectangular_get_col.
Qed.

(** Cleaning keeps the shape of a table: a source table whose columns
    have one length comes back with columns of that length, row for
    row. *)
Theorem load_data_keeps_shape fs f t m a tb :
  readable fs f t m a → load_data fs = Ok (Some tb, None) →
  ∀ src out,
    (src, out) ∈ [(f, forest tb); (t, tree tb); (m, mangrove tb);
                  (a, agro tb)] →
    rectangular src = true → rectangular out = true ∧ len out = len src.
Proof.
  intros Hr H.
  destruct (load_data_steps _ _ _ _ _ _ Hr H)
    as (f1 & t1 & m1 & f2 & Hf1 & Ht1 & Hm1 & Ha1 & Hf2 & Hf3 & Hm2 & Ht2 & _).
  intros src out Hin Hrect.
  repeat (apply elem_of_cons in Hin as [[= -> ->]|Hin]);
    [..|by apply elem_of_nil in Hin].
  - destruct (standardize_shape _ _ _ Hrect Hf1) as [R1 L1].
    destruct (convert_shape _ _ _ R1 Hf2) as [R2 L2].
    destruct (convert_shape _ _ _ R2 Hf3) as [R3 L3].
    split; [done|congruence].
  - destruct (standardize_shape _ _ _ Hrect Ht1) as [R1 L1].
    destruct (convert_shape _ _ _ R1 Ht2) as [R2 L2].
    split; [done|congruence].
  - destruct (standardize_shape _ _ _ Hrect Hm1) as [R1 L1].
    destruct (convert_shape _ _ _ R1 Hm2) as [R2 L2].
    split; [done|congruence].
  - by apply (standardize_shape "States").
Qed.

Lemma load_data_keeps_shape_witness :
  readable ex_store ex_forest ex_tree ex_mangrove ex_agro
  ∧ load_data ex_store = Ok (Some (returned ex_store), None)
  ∧ rectangular ex_forest = true
  ∧ rectangular (forest (returned ex_store)) = true
  ∧ len (forest (returned ex_store)) = 2.
Proof.
  assert (Hr : readable ex_store ex_forest ex_tree ex_mangrove ex_agro)
    by (repeat split; reflexivity).
  split; [exact Hr|]. split; [exact ex_store_returned|].
  split; [reflexivity|].
  apply (load_data_keeps_shape ex_store ex_forest ex_tree ex_mangrove ex_agro
           (returned ex_store) Hr ex_store_returned ex_forest
           (forest (returned ex_store))); [by left|reflexivity].
Defined.

(** ** Cleaning twice *)

Lemma set_col_set_col col s s' df :
  set_col col s (set_col col s' df) = set_col col s df.
Proof.
  induction df as [|[c s0] df IH]; simpl.
  - by rewrite decide_True.
  - destruct (decide (c = col)) as [->|Hne]; simpl.
    + by rewrite decide_True.
    + rewrite decide_False by done. by rewrite IH.
Qed.

Lemma clean_numeric_fixed v : is_str v = false → clean_numeric v = v.
Proof. by destruct v. Qed.

Lemma as_float_idemp v : as_float (as_float v) = as_float v.
Proof. by destruct v. Qed.

Lemma maybe_convert_objects_idemp s :
  maybe_convert_objects (maybe_convert_objects s) = maybe_convert_objects s.
Proof.
  unfold maybe_convert_objects.
  destruct (forallb (λ v, is_int v || is_float v) s && negb (int_column s))
    eqn:E; [|by rewrite E].
  apply andb_true_iff in E as [Hnum Hint].
  assert (Hf : forallb is_float (map as_float s) = true).
  { rewrite forallb_forall in Hnum. apply forallb_forall. intros v.
    rewrite in_map_iff. intros (w & <- & Hw). apply as_float_is_float.
    by apply Hnum. }
  assert (Hne : s ≠ []) by (by destruct s).
  assert (E1 : forallb (λ v, is_int v || is_float v) (map as_float s) = true).
  { rewrite forallb_forall in Hf. apply forallb_forall. intros v Hv.
    rewrite (Hf v Hv). apply orb_true_r. }
  assert (E2 : int_column (map as_float s) = false).
  { destruct s as [|v s]; [done|]. unfold int_column. cbn [map forallb].
    cbn [map forallb] in Hf. apply andb_true_iff in Hf as [Hv _].
    by destruct (as_float v). }
  rewrite E1, E2. cbn [negb andb]. rewrite map_map.
  apply map_ext. intros v. apply as_float_idemp.
Qed.

Lemma coerced_idemp s : coerced (coerced s) = coerced s.
Proof.
  unfold coerced at 1.
  assert (H : map clean_numeric (coerced s) = coerced s).
  { pose proof (coerced_not_str s) as Hs. induction Hs as [|v l Hv _ IH];
      [done|]. cbn [map]. by rewrite clean_numeric_fixed, IH. }
  rewrite H. unfold coerced. apply maybe_convert_objects_idemp.
Qed.

(** Cleaning is idempotent: on a table that has been through a step of
    [load_data], the same step changes nothing. *)
Theorem cleaning_idempotent :
  (∀ raw df df', raw ≠ "State" → standardize raw df = Ok df' →
                 standardize raw df' = Ok df')
  ∧ (∀ col df df', convert col df = Ok df' → convert col df' = Ok df').
Proof.
  split.
  - intros raw df df' Hne H. unfold standardize in *.
    destruct (has_column raw df) eqn:Hraw.
    + apply bind_Ok in H as (s & Hs & H).
      apply bind_Ok in H as (names & Hn & H). injection H as <-.
      assert (Hs' : get_col raw (set_col "State" names df) = Ok s)
        by (by rewrite get_col_set_col_ne).
      rewrite (get_col_Ok_has _ _ _ Hs'), Hs'. run_bind. rewrite Hn.
      run_bind. by rewrite set_col_set_col.
    + injection H as <-. by rewrite Hraw.
  - intros col df df'. rewrite !convert_eq. intros [= <-].
    destruct (get_col col df) as [s|] eqn:E.
    + rewrite get_col_set_col, coerced_idemp. by rewrite set_col_set_col.
    + by rewrite E.
Qed.

Lemma cleaning_idempotent_witness :
  ∃ df', standardize "State/UTs" ex_forest = Ok df'
         ∧ standardize "State/UTs" df' = Ok df'.
Proof.
  destruct (standardize "State/UTs" ex_forest) as [df'|] eqn:E;
    [|by vm_compute in E].
  exists df'. split; [done|].
  by apply (proj1 cleaning_idempotent "State/UTs" ex_forest).
Defined.

(** ** The master table, row by row *)

Lemma select_cons_inv c cols df r :
  select (c :: cols) df = Ok r →
  ∃ s r', r = (c, s) :: r' ∧ get_col c df = Ok s ∧ select cols df = Ok r'.
Proof.
  intros H. apply select_Ok in H.
  apply Forall2_cons_inv_l in H as ([c' s] & r' & [Hs Hc] & HF & ->).
  simpl in *. subst c'. exists s, r'. split; [done|]. split; [done|].
  by apply select_Ok.
Qed.

Lemma select_nil_inv df r : select [] df = Ok r → r = [].
Proof. by intros [= <-]. Qed.

(** Step 4 in closed form, when it returns. *)
Lemma merging_Ok f t a M :
  merging f t a = Ok M →
  ∃ lk a1 a2 rk rv,
    get_col "State" f = Ok lk
    ∧ get_col "Recorded Forest Area - Total" f = Ok a1
    ∧ get_col "Geographical Area" f = Ok a2
    ∧ get_col "State" t = Ok rk
    ∧ get_col "Tree Cover - Area" t = Ok rv
    ∧ ((has_column "Precipitation_mm" a = false
        ∧ M = fillna (VInt 0) (master_of_tree lk a1 a2 rk rv))
       ∨ (∃ ak av,
            get_col "State" a = Ok ak ∧ get_col "Precipitation_mm" a = Ok av
            ∧ M = fillna (VInt 0)
                    (master_of_agro (master_of_tree lk a1 a2 rk rv)
                       (take lk (left_indexer lk rk)) ak av))).
Proof.
  unfold merging. intros (l & Hl & H)%bind_Ok.
  apply bind_Ok in H as (r & Hr & H).
  apply select_cons_inv in Hl as (lk & l1 & -> & Hlk & Hl).
  apply select_cons_inv in Hl as (a1 & l2 & -> & Ha1 & Hl).
  apply select_cons_inv in Hl as (a2 & l3 & -> & Ha2 & Hl).
  apply select_nil_inv in Hl as ->.
  apply select_cons_inv in Hr as (rk & r1 & -> & Hrk & Hr).
  apply select_cons_inv in Hr as (rv & r2 & -> & Hrv & Hr).
  apply select_nil_inv in Hr as ->.
  exists lk, a1, a2, rk, rv. repeat (split; [done|]).
  apply bind_Ok in H as (m1 & Hm1 & H).
  assert (m1 = master_of_tree lk a1 a2 rk rv) as ->.
  { vm_compute in Hm1. by injection Hm1 as <-. }
  apply bind_Ok in H as (m2 & Hm2 & H). injection H as <-.
  destruct (has_column "Precipitation_mm" a) eqn:Hp.
  - right. apply bind_Ok in Hm2 as (r & Hr & Hm2).
    apply select_cons_inv in Hr as (ak & r1 & -> & Hak & Hr).
    apply select_cons_inv in Hr as (av & r2 & -> & Hav & Hr).
    apply select_nil_inv in Hr as ->.
    exists ak, av. split; [done|]. split; [done|]. f_equal.
    unfold merge_left in Hm2. cbn [get_col master_of_tree] in Hm2.
    rewrite decide_True in Hm2 by done. cbn in Hm2. by injection Hm2 as <-.
  - left. split; [done|]. by injection Hm2 as <-.
Qed.

Lemma float_of_int_not_nan z : float_of_int z ≠ S754_nan.
Proof.
  unfold float_of_int, binary_normalize. destruct z as [|p|p]; [done|..];
    unfold binary_round; destruct (shl_align _ _ _);
    by apply binary_round_aux_not_nan.
Qed.

Lemma isna_as_float v : isna (as_float v) = isna v.
Proof.
  destruct v as [| |z| |]; try done. simpl.
  pose proof (float_of_int_not_nan z). by destruct (float_of_int z).
Qed.

Lemma columns_fillna value df : columns (fillna value df) = columns df.
Proof. unfold fillna, columns. by rewrite <- list_fmap_compose. Qed.

Lemma fill_series_filled s p v :
  s !! p = Some v → ∃ z, fill_series (VInt 0) s !! p = Some z ∧ filled v z.
Proof.
  intros H. rewrite fill_series_lookup, H. simpl. eexists. split; [done|].
  unfold filled. destruct (isna v); [|done]. by destruct (float_column s).
Qed.

(** One row of a join: the left row it comes from and the right row, if
    any, it is paired with. *)
Lemma join_row lk rk q k :
  take lk (left_indexer lk rk) !! q = Some k →
  ∃ i oj,
    lk !! i = Some k
    ∧ match oj with Some j => rk !! j = Some k | None => k ∉ rk end
    ∧ (∀ s v, s !! i = Some v → take s (left_indexer lk rk) !! q = Some v)
    ∧ ∀ rv, ∃ g,
        (g = id ∨ g = as_float)
        ∧ reindex rv (right_indexer lk rk) !! q
          = Some (g (default nan (oj ≫= (rv !!.)))).
Proof.
  unfold left_indexer, right_indexer.
  rewrite take_lookup, list_lookup_fmap.
  destruct (left_join_indexers lk rk !! q) as [[i oj]|] eqn:E; [|done].
  simpl. destruct (indexers_lookup _ _ _ _ _ E) as (k' & Hi & _ & Hm).
  rewrite Hi. simpl. intros [= <-]. exists i, oj. split; [done|].
  split; [done|]. split.
  - intros s v Hv. rewrite take_lookup, list_lookup_fmap, E. simpl.
    by rewrite Hv.
  - intros rv. rewrite reindex_lookup, take_lookup, list_lookup_fmap, E.
    simpl. destruct (_ && _); eauto.
Qed.

Lemma carried_cell (g : pyval → pyval) v z :
  g = id ∨ g = as_float → filled (g v) z → carried v z.
Proof.
  unfold filled, carried. intros [->| ->]; simpl.
  - destruct (isna v); [done|]. by left.
  - rewrite isna_as_float. destruct (isna v); [done|]. by right.
Qed.

Lemma filled_nan z : filled nan z → is_zero z = true.
Proof. done. Qed.

Lemma rectangular_fillna value df :
  rectangular df = true → rectangular (fillna value df) = true.
Proof.
  unfold rectangular. rewrite len_fillna. unfold fillna.
  rewrite !forallb_forall. intros H cs.
  rewrite in_map_iff. intros ([c s] & <- & Hin). simpl.
  rewrite length_fill_series. by apply (H (c, s)).
Qed.

(** The labels of the master table, and its shape. *)
Theorem load_data_master_columns fs tb :
  load_data fs = Ok (Some tb, None) →
  columns (master tb)
  = ["State"; "Recorded Forest Area - Total"; "Geographical Area";
     "Tree Cover - Area"]
    ++ (if has_column "Precipitation_mm" (agro tb)
        then ["Precipitation_mm"] else [])
  ∧ rectangular (master tb) = true.
Proof.
  intros H.
  destruct (load_data_returned _ _ _ H)
    as (_ & f & t & m & a & f1 & t1 & m1 & f2 & _ & _ & _ & _ & _ & _ & _ & _
        & _ & HM).
  apply merging_Ok in HM
    as (lk & a1 & a2 & rk & rv & _ & _ & _ & _ & _
        & [[Hp ->]|(ak & av & Hak & Hav & ->)]).
  - rewrite Hp, columns_fillna. split; [done|]. apply rectangular_fillna.
    unfold rectangular, master_of_tree. cbn [forallb len fst snd].
    rewrite length_reindex, !length_take.
    unfold left_indexer, right_indexer. rewrite !length_map.
    by rewrite Nat.eqb_refl.
  - rewrite (get_col_Ok_has _ _ _ Hav), columns_fillna. split; [done|].
    apply rectangular_fillna.
    unfold rectangular, master_of_agro, master_of_tree.
    cbn [map app forallb len fst snd].
    rewrite length_reindex, !length_take.
    unfold left_indexer, right_indexer. rewrite !length_map.
    by rewrite Nat.eqb_refl.
Qed.

Lemma load_data_master_columns_witness :
  load_data ex_store = Ok (Some (returned ex_store), None)
  ∧ columns (master (returned ex_store))
    = ["State"; "Recorded Forest Area - Total"; "Geographical Area";
       "Tree Cover - Area"; "Precipitation_mm"].
Proof.
  split; [exact ex_store_returned|].
  rewrite (proj1 (load_data_master_columns ex_store (returned ex_store)
                    ex_store_returned)).
  reflexivity.
Defined.

Lemma joined_cell_intro k rk rv oj (g : pyval → pyval) s p :
  match oj with Some j => rk !! j = Some k | None => k ∉ rk end →
  g = id ∨ g = as_float →
  s !! p = Some (g (default nan (oj ≫= (rv !!.)))) →
  joined_cell k rk rv (fill_series (VInt 0) s !! p).
Proof.
  intros Hm Hg Hs. destruct (fill_series_filled _ _ _ Hs) as (z & -> & Hz).
  destruct oj as [j|]; simpl in *.
  - right. exists j. split; [done|]. intros v Hv. rewrite Hv in Hz.
    simpl in Hz. exists z. split; [done|]. by eapply carried_cell.
  - left. split; [done|]. exists z. split; [done|].
    destruct Hg as [-> | ->]; exact Hz.
Qed.



Lemma indexers_NoDup i lk rk :
  NoDup rk → map fst (left_join_indexers_from i lk rk) = seq i (length lk).
Proof.
  intros Hnd. revert i. induction lk as [|k lk IH]; intros i; [done|].
  rewrite indexers_cons, map_app, IH. cbn [length seq]. 
  pose proof (positions_from_NoDup 0 k rk Hnd) as Hle.
  destruct (positions_from 0 k rk) as [|j [|j' js]]; simpl in *; [done|done|lia].
Qed.

(** A join against a key column without duplicates keeps the rows of the
    left table in place. *)
Lemma join_row_NoDup lk rk q k :
  NoDup rk → lk !! q = Some k →
  ∃ oj,
    match oj with Some j => rk !! j = Some k | None => k ∉ rk end
    ∧ take lk (left_indexer lk rk) !! q = Some k
    ∧ (∀ s v, s !! q = Some v → take s (left_indexer lk rk) !! q = Some v)
    ∧ ∀ rv, ∃ g,
        (g = id ∨ g = as_float)
        ∧ reindex rv (right_indexer lk rk) !! q
          = Some (g (default nan (oj ≫= (rv !!.)))).
Proof.
  intros Hnd Hq.
  assert (Hfst : map fst (left_join_indexers lk rk) !! q = Some q).
  { unfold left_join_indexers. rewrite indexers_NoDup by done.
    apply lookup_seq. split; [done|]. by eapply lookup_lt_Some. }
  rewrite list_lookup_fmap in Hfst.
  destruct (left_join_indexers lk rk !! q) as [[i oj]|] eqn:E; [|done].
  simpl in Hfst. injection Hfst as ->.
  destruct (indexers_lookup _ _ _ _ _ E) as (k' & Hi & Hk & Hm).
  rewrite Hq in Hi. injection Hi as <-. exists oj. split; [done|].
  split; [done|]. unfold left_indexer, right_indexer. split.
  - intros s v Hv. rewrite take_lookup, list_lookup_fmap, E. simpl.
    by rewrite Hv.
  - intros rv. rewrite reindex_lookup, take_lookup, list_lookup_fmap, E.
    simpl. destruct (_ && _); eauto.
Qed.

Lemma NoDup_lookup_eq (l : Series) i j k :
  NoDup l → l !! i = Some k → l !! j = Some k → i = j.
Proof. intros H. apply NoDup_lookup. done. Qed.

Lemma length_left_indexer_NoDup lk rk :
  NoDup rk → length (left_indexer lk rk) = length lk.
Proof.
  intros H. unfold left_indexer. rewrite length_map.
  rewrite <- (length_map fst). unfold left_join_indexers.
  by rewrite indexers_NoDup, length_seq.
Qed.

Lemma take_left_indexer_NoDup lk rk :
  NoDup rk → take lk (left_indexer lk rk) = lk.
Proof.
  intros H. pose proof (take_left_keys [] lk rk) as Hx.
  cbn [app length] in Hx. unfold left_indexer, left_join_indexers.
  rewrite Hx. by apply expand_NoDup.
Qed.

Lemma matched_cell_intro k rk rv oj (g : pyval → pyval) s p :
  NoDup rk →
  match oj with Some j => rk !! j = Some k | None => k ∉ rk end →
  g = id ∨ g = as_float →
  s !! p = Some (g (default nan (oj ≫= (rv !!.)))) →
  matched_cell k rk rv (fill_series (VInt 0) s !! p).
Proof.
  intros Hnd Hm Hg Hs. destruct (fill_series_filled _ _ _ Hs) as (z & -> & Hz).
  split.
  - intros Hnot. destruct oj as [j|]; simpl in *.
    + destruct Hnot. by eapply list_elem_of_lookup_2.
    + exists z. split; [done|]. destruct Hg as [-> | ->]; exact Hz.
  - intros j v Hj Hv. destruct oj as [j'|]; simpl in *.
    + assert (j' = j) as -> by (by eapply NoDup_lookup_eq).
      rewrite Hv in Hz. simpl in Hz. exists z. split; [done|].
      by eapply carried_cell.
    + destruct Hm. by eapply list_elem_of_lookup_2.
Qed.



(** ** Names that cannot be normalized, columns that are missing *)

Lemma apply_Raise_first (f : pyval → result pyval) (ok : pyval → bool) s v e :
  (∀ w, ok w = true → ∃ r, f w = Ok r) →
  head (filter (fun w => ok w = false) s) = Some v →
  f v = Raise e → apply f s = Raise e.
Proof.
  intros Hok. induction s as [|w s IH]; [done|].
  rewrite filter_cons, apply_cons. destruct (ok w) eqn:Hw.
  - rewrite decide_False by done. intros Hh Hv.
    destruct (Hok w Hw) as [r ->]. run_bind. by rewrite (IH Hh Hv).
  - rewrite decide_True by done. simpl. intros [= ->] ->. done.
Qed.

Lemma first_bad_name_None raw df :
  first_bad_name raw df = None ↔ names_ok raw df = true.
Proof.
  unfold first_bad_name, names_ok. destruct (get_col raw df) as [s|]; [|done].
  induction s as [|v s IH]; [done|]. rewrite filter_cons. cbn [forallb].
  destruct (name_cell v); [|done]. rewrite decide_False by done.
  by rewrite IH.
Qed.

(** Step 2 stops at the first name that has no [strip]. *)
Lemma standardize_Raise raw df v :
  first_bad_name raw df = Some v →
  standardize raw df = Raise (AttributeError (type_name v) "strip").
Proof.
  unfold first_bad_name, standardize.
  destruct (get_col_cases raw df) as [(s & -> & ->)|[-> ->]]; [|done].
  intros Hv. run_bind.
  rewrite (apply_Raise_first _ name_cell s v
             (AttributeError (type_name v) "strip")); [done| |done|].
  - intros w Hw. destruct (clean_state_name_cell w Hw) as [n ->]. eauto.
  - assert (Hb : name_cell v = false).
    { apply head_Some_elem_of, list_elem_of_filter in Hv. tauto. }
    apply orb_false_iff in Hb as [Hna Hstr].
    unfold clean_state_name. rewrite Hna. by destruct v.
Qed.

(** A name that is neither a string nor a missing value ends [load_data]
    with the AttributeError of its [strip], in whichever of the four tables
    it stands: the tables are normalized in the order forest, tree,
    mangrove, agro, and the first such name of the first such table is the
    one reported. *)
Theorem load_data_name_error fs f t m a before raw df after v :
  readable fs f t m a →
  name_columns f t m a = before ++ (raw, df) :: after →
  Forall (fun rd => names_ok rd.1 rd.2 = true) before →
  first_bad_name raw df = Some v →
  load_data fs = Raise (AttributeError (type_name v) "strip").
Proof.
  intros Hr Hsplit Hbefore Hv. rewrite (load_data_readable _ _ _ _ _ Hr).
  apply standardize_Raise in Hv. unfold name_columns in Hsplit.
  destruct before as [|b1 [|b2 [|b3 [|b4 before]]]]; simplify_eq/=;
    rewrite ?Forall_cons in Hbefore; cbn [fst snd] in Hbefore.
  - by rewrite Hv.
  - destruct Hbefore as [H1 _].
    destruct (standardize_names_ok _ _ H1) as [? ->]. run_bind.
    by rewrite Hv.
  - destruct Hbefore as (H1 & H2 & _).
    destruct (standardize_names_ok _ _ H1) as [? ->].
    destruct (standardize_names_ok _ _ H2) as [? ->]. run_bind.
    by rewrite Hv.
  - destruct Hbefore as (H1 & H2 & H3 & _).
    destruct (standardize_names_ok _ _ H1) as [? ->].
    destruct (standardize_names_ok _ _ H2) as [? ->].
    destruct (standardize_names_ok _ _ H3) as [? ->]. run_bind.
    by rewrite Hv.
  - by destruct before.
Qed.

Lemma load_data_name_error_witness :
  readable (store ex_forest ex_tree ex_mangrove_number ex_agro)
    ex_forest ex_tree ex_mangrove_number ex_agro
  ∧ first_bad_name "state" ex_mangrove_number = Some (VInt 7)
  ∧ load_data (store ex_forest ex_tree ex_mangrove_number ex_agro)
    = Raise (AttributeError "int" "strip").
Proof.
  split; [repeat split; reflexivity|]. split; [reflexivity|].
  apply (load_data_name_error _ ex_forest ex_tree ex_mangrove_number ex_agro
           [("State/UTs", ex_forest); ("State/ Uts", ex_tree)]
           "state" ex_mangrove_number [("States", ex_agro)] (VInt 7)).
  - repeat split; reflexivity.
  - reflexivity.
  - repeat constructor.
  - reflexivity.
Defined.

Lemma elem_of_with_label col df c :
  c ∈ with_label col df ↔ c = col ∨ c ∈ columns df.
Proof.
  unfold with_label, has_column. case_bool_decide.
  - split; [by right|]. by intros [->|?].
  - rewrite elem_of_app, list_elem_of_singleton. tauto.
Qed.

Lemma elem_of_standardized_labels raw df c :
  c ∈ standardized_labels raw df
  ↔ c ∈ columns df ∨ (c = "State" ∧ has_column raw df = true).
Proof.
  unfold standardized_labels. destruct (has_column raw df).
  - rewrite elem_of_with_label. tauto.
  - split; [by left|]. by intros [?|[_ ?]].
Qed.

Lemma has_column_elem col df : has_column col df = true ↔ col ∈ columns df.
Proof. unfold has_column. apply bool_decide_eq_true. Qed.

Lemma has_column_not_elem col df :
  has_column col df = false ↔ col ∉ columns df.
Proof. unfold has_column. apply bool_decide_eq_false. Qed.

(** With names that can be normalized, steps 2 and 3 go through and
    [load_data] is at step 4. *)
Lemma load_data_to_merging fs f t m a :
  readable fs f t m a → all_names_ok f t m a = true →
  ∃ f3 t2 m2 a1,
    load_data fs
    = (master_df ← merging f3 t2 a1;
       Ok (Some {| forest := f3; tree := t2; mangrove := m2; agro := a1;
                   master := master_df |}, None))
    ∧ columns f3 = standardized_labels "State/UTs" f
    ∧ columns t2 = standardized_labels "State/ Uts" t
    ∧ columns a1 = standardized_labels "States" a.
Proof.
  intros Hr Hok. rewrite (load_data_readable _ _ _ _ _ Hr).
  unfold all_names_ok, name_columns in Hok. cbn [forallb fst snd] in Hok.
  repeat match goal with
         | H : _ && _ = true |- _ => apply andb_true_iff in H as [H ?]
         end.
  destruct (standardize_names_ok "State/UTs" f ltac:(done)) as [f1 Hf1].
  destruct (standardize_names_ok "State/ Uts" t ltac:(done)) as [t1 Ht1].
  destruct (standardize_names_ok "state" m ltac:(done)) as [m1 Hm1].
  destruct (standardize_names_ok "States" a ltac:(done)) as [a1 Ha1].
  rewrite Hf1, Ht1, Hm1, Ha1. run_bind.
  destruct (convert "Geographical Area" f1) as [f2|] eqn:Hf2;
    [|by rewrite convert_eq in Hf2]; run_bind.
  destruct (convert "Recorded Forest Area - Total" f2) as [f3|] eqn:Hf3;
    [|by rewrite convert_eq in Hf3]; run_bind.
  destruct (convert "value" m1) as [m2|] eqn:Hm2;
    [|by rewrite convert_eq in Hm2]; run_bind.
  destruct (convert "Tree Cover - Area" t1) as [t2|] eqn:Ht2;
    [|by rewrite convert_eq in Ht2]; run_bind.
  exists f3, t2, m2, a1. split; [done|].
  apply standardize_inv in Hf1 as (Cf1 & _).
  apply standardize_inv in Ht1 as (Ct1 & _).
  apply standardize_inv in Ha1 as (Ca1 & _).
  apply convert_inv in Hf2 as (Cf2 & _).
  apply convert_inv in Hf3 as (Cf3 & _).
  apply convert_inv in Ht2 as (Ct2 & _).
  split; [by rewrite Cf3, Cf2|]. split; [by rewrite Ct2|done].
Qed.

Lemma select_missing_eq cols df :
  missing cols df ≠ [] → select cols df = Raise (KeyError (missing cols df)).
Proof.
  unfold select, missing. by destruct (filter _ cols).
Qed.

Lemma missing_ext cols df df' :
  (∀ c, c ∈ cols → c ∈ columns df ↔ c ∈ columns df') →
  missing cols df = missing cols df'.
Proof.
  unfold missing. induction cols as [|c cols IH]; intros H; [done|].
  rewrite !filter_cons, IH by (intros c' Hc'; apply H; by right).
  destruct (decide (c ∈ columns df)) as [Hc|Hc].
  - rewrite !decide_False; [done| |tauto].
    intros Hn. apply Hn, H; [by left|done].
  - rewrite !decide_True; [done| |done].
    intros Hn. apply Hc, H; [by left|done].
Qed.

Lemma missing_cons_present c cols df :
  c ∈ columns df → missing (c :: cols) df = missing cols df.
Proof. intros H. unfold missing. rewrite filter_cons. by rewrite decide_False by tauto. Qed.

Lemma missing_nil_has cols df c :
  missing cols df = [] → c ∈ cols → ∃ s, get_col c df = Ok s.
Proof.
  unfold missing. intros H Hc. apply get_col_Ok.
  destruct (decide (c ∈ columns df)) as [|Hn]; [done|].
  assert (Hin : c ∈ filter (λ c, c ∉ columns df) cols)
    by (by apply list_elem_of_filter).
  rewrite H in Hin. by apply elem_of_nil in Hin.
Qed.



(** ** The mangrove file and the master table *)

(** The mangrove file has no part in the other tables: two stores that
    differ in that file only, when [load_data] returns on both, give the
    same forest, tree and agro tables and the same master table. *)
Theorem load_data_master_without_mangrove fs fs' tb tb' :
  (∀ path, path ≠ mangrove_path → fs' !! path = fs !! path) →
  load_data fs = Ok (Some tb, None) → load_data fs' = Ok (Some tb', None) →
  forest tb' = forest tb ∧ tree tb' = tree tb ∧ agro tb' = agro tb
  ∧ master tb' = master tb.
Proof.
  intros Hsame H H'.
  destruct (load_data_returned _ _ _ H)
    as (_ & f & t & m & a & f1 & t1 & m1 & f2 & (Rf & Rt & _ & Ra)
        & Hf1 & Ht1 & _ & Ha1 & Hf2 & Hf3 & _ & Ht2 & HM).
  destruct (load_data_returned _ _ _ H')
    as (_ & f' & t' & m' & a' & f1' & t1' & m1' & f2' & (Rf' & Rt' & _ & Ra')
        & Hf1' & Ht1' & _ & Ha1' & Hf2' & Hf3' & _ & Ht2' & HM').
  rewrite Hsame, Rf in Rf' by done. rewrite Hsame, Rt in Rt' by done.
  rewrite Hsame, Ra in Ra' by done. simplify_eq.
  rewrite Hf1 in Hf1'. injection Hf1' as <-.
  rewrite Hf2 in Hf2'. injection Hf2' as <-.
  rewrite Hf3 in Hf3'. injection Hf3' as Ef.
  rewrite Ht1 in Ht1'. injection Ht1' as <-.
  rewrite Ht2 in Ht2'. injection Ht2' as Et.
  rewrite Ha1 in Ha1'. injection Ha1' as Ea.
  rewrite <- Ef, <- Et, <- Ea, HM in HM'. injection HM' as EM.
  done.
Qed.

Lemma load_data_master_without_mangrove_witness :
  load_data ex_store = Ok (Some (returned ex_store), None)
  ∧ load_data (<[mangrove_path := Table []]> ex_store)
    = Ok (Some (returned (<[mangrove_path := Table []]> ex_store)), None)
  ∧ master (returned (<[mangrove_path := Table []]> ex_store))
    = master (returned ex_store).
Proof.
  assert (H' : load_data (<[mangrove_path := Table []]> ex_store)
               = Ok (Some (returned (<[mangrove_path := Table []]> ex_store)),
                     None)) by (vm_compute; reflexivity).
  split; [exact ex_store_returned|]. split; [exact H'|].
  apply (load_data_master_without_mangrove ex_store
           (<[mangrove_path := Table []]> ex_store)
           (returned ex_store) _); [|exact ex_store_returned|exact H'].
  intros path Hp. by apply lookup_insert_ne.
Defined.

(** ** Reconciling names *)

Lemma lstrip_spaces l s : spaces l → lstrip (l ++ s) = lstrip s.
Proof. induction 1 as [|c l Hc _ IH]; simpl; [done|]. by rewrite Hc. Qed.

Lemma lstrip_all_spaces l : spaces l → lstrip l = [].
Proof. intros H. rewrite <- (app_nil_r l). by rewrite lstrip_spaces. Qed.

(** [strip] finds the one trimmed string with white space around it. *)
Lemma strip_unique l x r :
  spaces l → spaces r → trimmed x → strip (l ++ x ++ r) = x.
Proof.
  intros Hl Hr [Hh Hla]. unfold strip, rstrip. rewrite lstrip_spaces by done.
  destruct x as [|c x].
  - simpl. by rewrite (lstrip_all_spaces r).
  - assert (Hc : is_space c = false) by (by apply Hh).
    cbn [app lstrip]. rewrite Hc.
    change (c :: x ++ r) with ((c :: x) ++ r).
    rewrite rev_app_distr, lstrip_spaces
      by (rewrite rev_alt; by apply Forall_reverse).
    rewrite lstrip_id; [apply rev_involutive|].
    intros d. rewrite head_rev. apply Hla.
Qed.

Lemma strip_spaces l s r :
  spaces l → spaces r → strip (l ++ s ++ r) = strip s.
Proof.
  intros Hl Hr. destruct (strip_split s) as (l' & r' & E & Hl' & Hr').
  rewrite E at 1.
  replace (l ++ (l' ++ strip s ++ r') ++ r)
    with ((l ++ l') ++ strip s ++ (r' ++ r))
    by (by rewrite <- !app_assoc).
  apply strip_unique; [by apply Forall_app|by apply Forall_app|].
  apply strip_trimmed.
Qed.

Lemma is_space_ascii_lower c : is_space (ascii_lower c) = is_space c.
Proof.
  unfold ascii_lower, is_upper_ascii, between.
  destruct (_ && _) eqn:Hu; [|done].
  apply andb_true_iff in Hu as [H1 H2]. apply N.leb_le in H1, H2.
  assert (Hc : ∀ d, (0x41 ≤ d ≤ 0x7A)%N → is_space d = false).
  { intros d Hd. unfold is_space, between.
    repeat match goal with
           | |- context [(?a <=? ?b)%N] =>
               destruct (N.leb_spec a b); try lia
           | |- context [(?a =? ?b)%N] =>
               destruct (N.eqb_spec a b); try lia
           end; reflexivity. }
  rewrite !Hc by lia. done.
Qed.

Lemma lstrip_lower s :
  map ascii_lower (lstrip s) = lstrip (map ascii_lower s).
Proof.
  induction s as [|c s IH]; [done|]. simpl.
  rewrite is_space_ascii_lower. by destruct (is_space c).
Qed.

Lemma strip_lower s : map ascii_lower (strip s) = strip (map ascii_lower s).
Proof.
  unfold strip, rstrip.
  by rewrite map_rev, lstrip_lower, map_rev, lstrip_lower.
Qed.

Lemma title_step_lower b c :
  title_step b (ascii_lower c) = title_step b c
  ∧ is_cased (ascii_lower c) = is_cased c.
Proof.
  unfold ascii_lower. destruct (is_upper_ascii c) eqn:Hu; [|done].
  unfold title_step, to_lower, to_title, is_cased. rewrite Hu.
  unfold is_upper_ascii, is_lower_ascii, between in *.
  apply andb_true_iff in Hu as [H1 H2]. apply N.leb_le in H1, H2.
  assert (c + 32 - 32 = c)%N as E by lia.
  repeat match goal with
         | |- context [(?a <=? ?b)%N] => destruct (N.leb_spec a b); try lia
         | |- context [(?a =? ?b)%N] => destruct (N.eqb_spec a b); try lia
         end; simpl; rewrite ?E; by destruct b.
Qed.

Lemma do_title_lower b s : do_title b (map ascii_lower s) = do_title b s.
Proof.
  revert b. induction s as [|c s IH]; intros b; [done|].
  cbn [map]. rewrite !do_title_cons.
  destruct (title_step_lower b c) as [-> ->]. by rewrite IH.
Qed.

(** Names that differ in the case of their letters, or in the white space
    around them, are normalized to one Region. *)
Theorem clean_state_name_reconciles :
  (∀ s t, ascii_str s = true → ascii_str t = true →
          map ascii_lower s = map ascii_lower t →
          clean_state_name (VStr s) = clean_state_name (VStr t))
  ∧ (∀ l s r, spaces l → spaces r →
              clean_state_name (VStr (l ++ s ++ r))
              = clean_state_name (VStr s)).
Proof.
  split.
  - intros s t _ _ E. rewrite !clean_state_name_str.
    assert (Ht : title (strip s) = title (strip t)).
    { unfold title. rewrite <- (do_title_lower false (strip s)).
      rewrite <- (do_title_lower false (strip t)).
      by rewrite !strip_lower, E. }
    by rewrite Ht.
  - intros l s r Hl Hr. rewrite !clean_state_name_str.
    by rewrite strip_spaces.
Qed.

Lemma clean_state_name_reconciles_witness :
  clean_state_name (VStr (u "ANDHRA pradesh"))
  = clean_state_name (VStr (u "Andhra Pradesh"))
  ∧ clean_state_name (VStr (u "  " ++ u "Sikkim" ++ u " "))
    = clean_state_name (VStr (u "Sikkim")).
Proof.
  split.
  - apply (proj1 clean_state_name_reconciles); reflexivity.
  - apply (proj2 clean_state_name_reconciles (u "  ") (u "Sikkim") (u " "));
      repeat constructor.
Defined.

(** ** The alias table *)

Lemma variants_eq : variants = [u "A & N Islands"; u "Andaman & Nicobar"].
Proof. vm_compute. reflexivity. Qed.

(** The alias table is closed under the normalizer: every key, normalized,
    gives its canonical name, and no variant spelling is ever returned as a
    Region, whatever the input. *)
Theorem clean_state_name_no_variant :
  (∀ k v, (k, v) ∈ replacements_items → clean_state_name (VStr k) = Ok v)
  ∧ (∀ x name, clean_state_name x = Ok name → name ∉ variants).
Proof.
  split.
  - intros k v H. unfold replacements_items in H.
    repeat (apply elem_of_cons in H as [[= -> ->]|H];
            [vm_compute; reflexivity|]).
    by apply elem_of_nil in H.
  - intros x name H Hin. rewrite variants_eq in Hin.
    unfold clean_state_name in H. destruct (isna x).
    { injection H as <-.
      repeat (apply elem_of_cons in Hin as [Hin|Hin]; [by vm_compute in Hin|]).
      by apply elem_of_nil in Hin. }
    destruct x as [| | | |s]; try done. injection H as <-.
    unfold get_or in Hin.
    destruct (replacements !! title (strip s)) as [v|] eqn:E; cbn [default] in Hin.
    + apply replacements_lookup in E. unfold replacements_items in E.
      repeat (apply elem_of_cons in E as [[= _ ->]|E];
              [repeat (apply elem_of_cons in Hin as [Hin|Hin];
                       [by vm_compute in Hin|]);
               by apply elem_of_nil in Hin|]).
      by apply elem_of_nil in E.
    + assert (Hk : ∀ k, k ∈ [u "A & N Islands"; u "Andaman & Nicobar"] →
                        ∃ v, replacements !! k = Some v).
      { intros k Hk.
        repeat (apply elem_of_cons in Hk as [->|Hk];
                [exists (u "Andaman & Nicobar Islands");
                 apply replacements_lookup;
                 apply (bool_decide_unpack _); vm_compute; exact I|]).
        by apply elem_of_nil in Hk. }
      destruct (Hk _ Hin) as [v Hv]. congruence.
Qed.

Lemma clean_state_name_no_variant_witness :
  clean_state_name (VStr (u "Andaman & Nicobar"))
  = Ok (u "Andaman & Nicobar Islands")
  ∧ u "Andaman & Nicobar Islands" ∉ variants.
Proof.
  split.
  - apply (proj1 clean_state_name_no_variant).
    apply (bool_decide_unpack _). vm_compute. exact I.
  - apply (proj2 clean_state_name_no_variant (VStr (u " a & n islands "))).
    vm_compute. reflexivity.
Defined.

(** ** Grouped digits *)

Lemma is_digit_range c : is_digit c = true ↔ (0x30 ≤ c ≤ 0x39)%N.
Proof.
  unfold is_digit, between. rewrite andb_true_iff, !N.leb_le. tauto.
Qed.

Lemma span_digits_all ds : digits ds → span_digits ds = (ds, []).
Proof.
  induction 1 as [|c ds Hc _ IH]; [done|]. simpl. by rewrite Hc, IH.
Qed.

Lemma digits_value_snoc ds c :
  digits_value (ds ++ [c]) = (10 * digits_value ds + (Z.of_N c - 48))%Z.
Proof. unfold digits_value. by rewrite fold_left_app. Qed.

Lemma digits_value_nonneg ds : digits ds → (0 ≤ digits_value ds)%Z.
Proof.
  induction ds as [|c ds IH] using rev_ind; [done|].
  intros [H Hc]%Forall_app. apply Forall_cons in Hc as [Hc _].
  apply is_digit_range in Hc. rewrite digits_value_snoc.
  specialize (IH H). lia.
Qed.

Lemma of_decimal_int n :
  (0 ≤ n)%Z → of_decimal false n 0 = float_of_int n.
Proof.
  intros Hn. destruct n as [|p|p]; [done| |lia].
  unfold of_decimal, float_of_int, binary_normalize.
  change (Z.to_pos (10 ^ 0)) with 1%positive. by rewrite Pos.mul_1_r.
Qed.

Lemma digits2_pos_iter p k :
  digits2_pos (Pos.iter xO p k) = (digits2_pos p + k)%positive.
Proof.
  induction k as [|k IH] using Pos.peano_ind.
  - simpl. lia.
  - rewrite Pos.iter_succ. simpl. rewrite IH. lia.
Qed.

Lemma Zpos_iter p k : Zpos (Pos.iter xO p k) = (Zpos p * 2 ^ Zpos k)%Z.
Proof.
  induction k as [|k IH] using Pos.peano_ind.
  - simpl. lia.
  - rewrite Pos.iter_succ.
    change (Zpos (Pos.iter xO p k)~0) with (2 * Zpos (Pos.iter xO p k))%Z.
    rewrite IH, Pos2Z.inj_succ.
    rewrite Z.pow_succ_r by lia. lia.
Qed.

Lemma digits2_pos_bound p :
  (2 ^ (Zpos (digits2_pos p) - 1) ≤ Zpos p < 2 ^ Zpos (digits2_pos p))%Z.
Proof.
  induction p as [p IH|p IH|]; cbn [digits2_pos].
  - rewrite Pos2Z.inj_succ. change (Zpos p~1) with (2 * Zpos p + 1)%Z.
    replace (Z.succ (Zpos (digits2_pos p)) - 1)%Z
      with (Z.succ (Zpos (digits2_pos p) - 1))%Z by lia.
    rewrite !Z.pow_succ_r by lia. lia.
  - rewrite Pos2Z.inj_succ. change (Zpos p~0) with (2 * Zpos p)%Z.
    replace (Z.succ (Zpos (digits2_pos p)) - 1)%Z
      with (Z.succ (Zpos (digits2_pos p) - 1))%Z by lia.
    rewrite !Z.pow_succ_r by lia. lia.
  - simpl. lia.
Qed.

(** A mantissa of 53 bits with an exponent in range is not rounded. *)
Lemma binary_round_aux_exact m e :
  Zpos (digits2_pos m) = 53%Z → (-1074 ≤ e ≤ 971)%Z →
  binary_round_aux prec emax false (Zpos m) e loc_Exact
  = S754_finite false m e.
Proof.
  intros Hd He. unfold binary_round_aux.
  assert (Hs : shr_fexp prec emax (Zpos m) e loc_Exact
               = ({| shr_m := Zpos m; shr_r := false; shr_s := false |}, e)).
  { unfold shr_fexp, Zdigits2. rewrite Hd.
    unfold fexp, emin, prec, emax.
    replace (Z.max (53 + e - 53) (3 - 1024 - 53) - e)%Z with 0%Z by lia.
    done. }
  rewrite Hs. cbn [shr_m loc_of_shr_record round_nearest_even]. rewrite Hs.
  cbn [shr_m]. unfold prec, emax.
  destruct (Z.leb_spec e (1024 - 53)); [done|lia].
Qed.

(** [float(n)] for an integer below [2^53] is [n] itself. *)
Lemma float_of_int_exact n :
  (0 < n < 2 ^ 53)%Z →
  ∃ m e, float_of_int n = S754_finite false m e
         ∧ (e ≤ 0)%Z ∧ (Zpos m = n * 2 ^ (- e))%Z.
Proof.
  intros Hn. destruct n as [|p|p]; [lia| |lia].
  unfold float_of_int, binary_normalize, binary_round.
  pose proof (digits2_pos_bound p) as Hb.
  assert (Hd : (Zpos (digits2_pos p) ≤ 53)%Z).
  { destruct (Z.le_gt_cases (Zpos (digits2_pos p)) 53) as [|Hgt]; [done|].
    assert (2 ^ 53 ≤ 2 ^ (Zpos (digits2_pos p) - 1))%Z
      by (apply Z.pow_le_mono_r; lia).
    lia. }
  unfold shl_align, fexp, emin, prec, emax.
  replace (Z.max (Zpos (digits2_pos p) + 0 - 53) (3 - 1024 - 53) - 0)%Z
    with (Zpos (digits2_pos p) - 53)%Z by lia.
  destruct (Zpos (digits2_pos p) - 53)%Z as [|k|k] eqn:Ek; [|lia|].
  - exists p, 0%Z. rewrite binary_round_aux_exact by lia.
    split; [done|]. split; [done|]. simpl. lia.
  - replace (Z.max (Zpos (digits2_pos p) + 0 - 53) (3 - 1024 - 53))%Z
      with (Zneg k) by lia.
    exists (Pos.iter xO p k), (Zneg k).
    rewrite binary_round_aux_exact.
    + split; [done|]. split; [done|]. by rewrite Zpos_iter.
    + rewrite digits2_pos_iter. lia.
    + lia.
Qed.

Lemma c_isspace_range c :
  c_isspace c = true ↔ (9 ≤ c ≤ 13)%N ∨ c = 32%N.
Proof.
  unfold c_isspace, between.
  rewrite orb_true_iff, andb_true_iff, !N.leb_le, N.eqb_eq. tauto.
Qed.

Lemma remove_underscores_none prev t :
  Forall (fun c => c ≠ 0x5F%N) t → prev ≠ 0x5F%N →
  remove_underscores prev t = Some t.
Proof.
  intros H. revert prev. induction H as [|c t Hc _ IH]; intros prev Hp.
  - simpl. by destruct (N.eqb_spec prev 0x5F).
  - cbn [remove_underscores]. destruct (N.eqb_spec c 0x5F); [done|].
    destruct (N.eqb_spec prev 0x5F); [done|]. cbn [andb].
    by rewrite IH.
Qed.

Lemma c_lstrip_cspaces l x : cspaces l → c_lstrip (l ++ x) = c_lstrip x.
Proof. induction 1 as [|c l Hc _ IH]; simpl; [done|]. by rewrite Hc. Qed.

Lemma c_lstrip_id x :
  (∀ c, head x = Some c → c_isspace c = false) → c_lstrip x = x.
Proof. destruct x as [|c x]; [done|]. simpl. intros H. by rewrite (H c). Qed.

Lemma digit_not_cspace c : is_digit c = true → c_isspace c = false.
Proof.
  intros Hc%is_digit_range. destruct (c_isspace c) eqn:E; [|done].
  apply c_isspace_range in E. lia.
Qed.

Lemma binary_round_aux_opp m e l :
  binary_round_aux prec emax true m e l
  = SFopp (binary_round_aux prec emax false m e l).
Proof.
  unfold binary_round_aux. destruct (shr_fexp prec emax m e l) as [mrs e'].
  destruct (shr_fexp prec emax _ e' loc_Exact) as [mrs' e''].
  destruct (shr_m mrs'); [done| |done]. by destruct (_ <=? _)%Z.
Qed.

Lemma of_decimal_signed neg n :
  (0 ≤ n)%Z →
  of_decimal neg n 0
  = if neg then SFopp (float_of_int n) else float_of_int n.
Proof.
  intros Hn. destruct neg; [|by apply of_decimal_int].
  destruct n as [|p|p]; [done| |lia].
  unfold of_decimal, float_of_int, binary_normalize, binary_round.
  change (Z.to_pos (10 ^ 0)) with 1%positive. rewrite Pos.mul_1_r.
  destruct (shl_align _ _ _). apply binary_round_aux_opp.
Qed.

(** [float] of an integer in decimal digits, with its sign and the white
    space around it. *)
Lemma float_of_str_integer (l sg : str) (neg : bool) (ds r : str) :
  cspaces l → cspaces r → (sg, neg) ∈ signs → ds ≠ [] → digits ds →
  float_of_str (l ++ sg ++ ds ++ r)
  = Some (if neg then SFopp (float_of_int (digits_value ds))
          else float_of_int (digits_value ds)).
Proof.
  intros Hl Hr Hsg Hne Hd.
  assert (Hsign : Forall (fun c => c = 0x2B%N ∨ c = 0x2D%N) sg
                  ∧ take_sign (sg ++ ds) = (neg, ds)).
  { destruct ds as [|d ds0]; [done|].
    apply Forall_cons in Hd as Hd'. destruct Hd' as [Hd0 _].
    apply is_digit_range in Hd0. unfold signs in Hsg.
    repeat (apply elem_of_cons in Hsg as [[= -> ->]|Hsg]).
    - split; [constructor|]. simpl.
      destruct (N.eqb_spec d 0x2D); [lia|].
      destruct (N.eqb_spec d 0x2B); [lia|done].
    - split; [repeat constructor; by left|done].
    - split; [repeat constructor; by right|done].
    - by apply elem_of_nil in Hsg. }
  destruct Hsign as [Hsgc Hts].
  assert (Hchars : Forall (fun c => (c < 128)%N ∧ c ≠ 0x5F%N)
                     (l ++ sg ++ ds ++ r)).
  { repeat apply Forall_app_2.
    - eapply Forall_impl; [exact Hl|]. intros c Hc%c_isspace_range. simpl. lia.
    - eapply Forall_impl; [exact Hsgc|]. simpl. lia.
    - eapply Forall_impl; [exact Hd|]. intros c Hc%is_digit_range. simpl. lia.
    - eapply Forall_impl; [exact Hr|]. intros c Hc%c_isspace_range. simpl. lia. }
  unfold float_of_str. rewrite transform_to_ascii_id.
  2:{ unfold ascii_str. apply forallb_forall. intros c Hc.
      rewrite Forall_forall in Hchars. apply list_elem_of_In in Hc.
      apply N.ltb_lt. by apply Hchars. }
  rewrite remove_underscores_none; [|by eapply Forall_impl; [exact Hchars|];
    intros c [_ ?]|done].
  cbn [mbind option_bind]. unfold float_from_string_inner.
  assert (Hcore : rev (c_lstrip (rev (c_lstrip (l ++ sg ++ ds ++ r))))
                  = sg ++ ds).
  { rewrite c_lstrip_cspaces by done.
    rewrite (c_lstrip_id (sg ++ ds ++ r)).
    - rewrite app_assoc, rev_app_distr, c_lstrip_cspaces
        by (rewrite rev_alt; by apply Forall_reverse).
      rewrite (c_lstrip_id (rev (sg ++ ds))); [apply rev_involutive|].
      intros c. rewrite head_rev, last_app.
      destruct (last ds) as [d|] eqn:Ed.
      + intros [= <-]. apply digit_not_cspace.
        rewrite Forall_forall in Hd. apply Hd.
        apply last_Some_elem_of in Ed. done.
      + by apply last_None in Ed.
    - intros c. destruct sg as [|c0 sg0].
      + simpl. destruct ds as [|d ds0]; [done|]. simpl. intros [= <-].
        apply digit_not_cspace. by apply Forall_cons in Hd as [? _].
      + simpl. intros [= <-]. apply Forall_cons in Hsgc as [Hc0 _].
        destruct (c_isspace c0) eqn:E; [|done].
        apply c_isspace_range in E. lia. }
  rewrite Hcore.
  destruct (sg ++ ds) as [|c0 core] eqn:Ecore.
  { apply app_eq_nil in Ecore as [_ ->]. done. }
  rewrite <- Ecore in Hts. rewrite <- Ecore. unfold strtod.
  rewrite Hts, (span_digits_all _ Hd). cbn [app parse_exponent length].
  rewrite app_nil_r. destruct ds as [|d ds0]; [done|].
  by rewrite of_decimal_signed by (by apply digits_value_nonneg).
Qed.

(** The text of an integer (decimal digits, with an optional sign, white
    space around it and commas anywhere) is coerced to the float of that
    integer, which below [2^53] is the integer itself: no digit is lost and
    the sign is kept. *)
Theorem clean_numeric_grouped_digits (s l sg : str) (neg : bool) (ds r : str) :
  remove_char 0x2C s = l ++ sg ++ ds ++ r →
  cspaces l → cspaces r → (sg, neg) ∈ signs → ds ≠ [] → digits ds →
  clean_numeric (VStr s)
  = VFloat (if neg then SFopp (float_of_int (digits_value ds))
            else float_of_int (digits_value ds))
  ∧ (digits_value ds = 0%Z → clean_numeric (VStr s) = VFloat (S754_zero neg))
  ∧ ((0 < digits_value ds < 2 ^ 53)%Z →
     ∃ m e, clean_numeric (VStr s) = VFloat (S754_finite neg m e)
            ∧ (e ≤ 0)%Z ∧ (Zpos m = digits_value ds * 2 ^ (- e))%Z).
Proof.
  intros Hs Hl Hr Hsg Hne Hd.
  rewrite clean_numeric_str, Hs, (float_of_str_integer l sg neg ds r) by done.
  split; [done|]. split.
  - intros ->. by destruct neg.
  - intros Hn. destruct (float_of_int_exact _ Hn) as (m & e & -> & He & Hm).
    exists m, e. by destruct neg.
Qed.

Lemma clean_numeric_grouped_digits_witness :
  ∃ m e, clean_numeric (VStr (u " -2,75,069 "))
         = VFloat (S754_finite true m e)
         ∧ (e ≤ 0)%Z ∧ (Zpos m = 275069 * 2 ^ (- e))%Z.
Proof.
  apply (clean_numeric_grouped_digits (u " -2,75,069 ") (u " ") (u "-") true
           (u "275069") (u " ")).
  - reflexivity.
  - repeat constructor.
  - repeat constructor.
  - apply elem_of_cons. right. apply elem_of_cons. right.
    apply elem_of_cons. by left.
  - done.
  - repeat constructor.
  - vm_compute. split; reflexivity.
Defined.

(** ** The cache of [get_data] *)

Lemma get_data_runs_cached v stores :
  get_data_runs (Some v) stores = replicate (length stores) (Ok v).
Proof. induction stores as [|fs stores IH]; simpl; [done|]. by rewrite IH. Qed.

(** Starting from an empty cache the calls of [get_data] that raise come
    first, each raising what [load_data] raises on the
    files of that run; the first call that returns returns what [load_data]
    returns on the files of its run, and every later call returns that
    same value, whatever the files have become: the message of a missing
    file too is returned again when the file is there. *)
Theorem get_data_cached stores i v :
  get_data_runs None stores !! i = Some (Ok v) →
  ∃ k fs,
    (k ≤ i)%nat ∧ stores !! k = Some fs ∧ load_data fs = Ok v
    ∧ (∀ j fs', (j < k)%nat → stores !! j = Some fs' →
                ∃ e, load_data fs' = Raise e
                     ∧ get_data_runs None stores !! j = Some (Raise e))
    ∧ ∀ j, (k ≤ j < length stores)%nat →
           get_data_runs None stores !! j = Some (Ok v).
Proof.
  revert i. induction stores as [|fs stores IH]; intros i; [done|].
  cbn [get_data_runs get_data].
  destruct (load_data fs) as [v0|e] eqn:E.
  - rewrite get_data_runs_cached. intros Hi.
    assert (v0 = v) as ->.
    { destruct i as [|i]; simpl in Hi; [by injection Hi|].
      apply lookup_replicate in Hi as [Hi _]. by injection Hi. }
    exists 0, fs. split; [lia|]. split; [done|]. split; [done|].
    split; [intros j fs' Hj; lia|].
    intros j Hj. destruct j as [|j]; [done|]. simpl.
    apply lookup_replicate. split; [done|]. simpl in Hj. lia.
  - destruct i as [|i]; [done|]. simpl. intros Hi.
    destruct (IH i Hi) as (k & fs0 & Hk & Hfs & Hload & Hbefore & Hafter).
    exists (S k), fs0. split; [lia|]. split; [done|]. split; [done|].
    split.
    + intros j fs' Hj Hs. destruct j as [|j].
      * simpl in Hs. injection Hs as <-. by exists e.
      * simpl in *. apply (Hbefore j fs'); [lia|done].
    + intros j Hj. destruct j as [|j]; [lia|]. simpl in *.
      apply Hafter. lia.
Qed.

Lemma get_data_cached_witness :
  get_data_runs None [delete forest_path ex_store; ex_store] !! 1
  = Some (Ok (None, Some ("Error loading file: " +:+ strerror forest_path)))
  ∧ ∃ tb, load_data ex_store = Ok (Some tb, None).
Proof.
  assert (H : get_data_runs None [delete forest_path ex_store; ex_store] !! 0
              = Some (Ok (None, Some ("Error loading file: "
                                      +:+ strerror forest_path))))
    by reflexivity.
  destruct (get_data_cached _ _ _ H) as (k & fs & Hk & _ & _ & _ & Hafter).
  split; [|eexists; exact ex_store_returned].
  apply Hafter. simpl. lia.
Defined.

(** ** The map check *)

(** A missing source file, when the files before it were read. *)
Lemma load_data_missing fs (before after : list string) path :
  sources = before ++ path :: after →
  (∀ q, q ∈ before → ∃ df, fs !! q = Some (Table df)) →
  fs !! path = None →
  load_data fs = Ok (None, Some ("Error loading file: " +:+ strerror path)).
Proof.
  intros Hsrc Hbefore Hpath. unfold sources in Hsrc.
  assert (Hread : ∀ q, q ∈ before → ∃ df, read_csv fs q = Ok df).
  { intros q Hq. destruct (Hbefore q Hq) as [df Hdf]. exists df.
    unfold read_csv. by rewrite Hdf. }
  assert (Hmiss : read_csv fs path = Raise (FileNotFoundError path)).
  { unfold read_csv. by rewrite Hpath. }
  clear Hbefore. unfold load_data, load_datasets.
  destruct before as [|b1 [|b2 [|b3 [|b4 before]]]]; simplify_eq/=.
  - by rewrite Hmiss.
  - destruct (Hread forest_path ltac:(by left)) as [? ->].
    by rewrite Hmiss.
  - destruct (Hread forest_path ltac:(by left)) as [? ->].
    destruct (Hread tree_path ltac:(by right; left)) as [? ->].
    by rewrite Hmiss.
  - destruct (Hread forest_path ltac:(by left)) as [? ->].
    destruct (Hread tree_path ltac:(by right; left)) as [? ->].
    destruct (Hread mangrove_path ltac:(by right; right; left)) as [? ->].
    by rewrite Hmiss.
  - by destruct before.
Qed.

(** The map check drops the message of [load_data]: with a source file
    missing it ends in the TypeError of subscripting [None], before any
    name has been compared. *)
Theorem debug_map_missing_file fs (before after : list string) path features :
  sources = before ++ path :: after →
  (∀ q, q ∈ before → ∃ df, fs !! q = Some (Table df)) →
  fs !! path = None →
  debug_map fs features = Fails TypeError.
Proof.
  intros Hsrc Hbefore Hpath. unfold debug_map.
  by rewrite (load_data_missing _ _ _ _ Hsrc Hbefore Hpath).
Qed.

Lemma debug_map_missing_file_witness :
  sources = [forest_path; tree_path] ++ mangrove_path :: [agro_path]
  ∧ debug_map (delete mangrove_path ex_store) [] = Fails TypeError.
Proof.
  split; [reflexivity|].
  apply (debug_map_missing_file _ [forest_path; tree_path] [agro_path]
           mangrove_path); [reflexivity| |reflexivity].
  intros q Hq.
  repeat (apply elem_of_cons in Hq as [->|Hq]; [eexists; reflexivity|]).
  by apply elem_of_nil in Hq.
Defined.

Lemma elem_of_feature_states features r :
  r ∈ feature_states features
  ↔ ∃ props name, props ∈ features ∧ feature_name props = Some name
                  ∧ r = VStr name.
Proof.
  unfold feature_states. rewrite elem_of_list_to_set, list_elem_of_omap.
  split.
  - intros (props & Hin & Hr). destruct (feature_name props) as [name|] eqn:E;
      [|done]. injection Hr as <-. eauto.
  - intros (props & name & Hin & E & ->). exists props. by rewrite E.
Qed.



(** ** The map layer and the drill-down *)

Lemma kept_from_elem i mask p :
  p ∈ kept_from i mask ↔ (i ≤ p)%nat ∧ mask !! (p - i)%nat = Some true.
Proof.
  revert i. induction mask as [|b mask IH]; intros i; simpl.
  - split; [by intros ?%elem_of_nil|by intros [_ ?]].
  - rewrite elem_of_app, IH. split.
    + intros [H|[Hle Hl]].
      * destruct b; [|by apply elem_of_nil in H].
        apply list_elem_of_singleton in H as ->.
        split; [lia|]. by replace (i - i) with 0 by lia.
      * split; [lia|]. by replace (p - i) with (S (p - S i)) by lia.
    + intros [Hle Hl]. destruct (decide (p = i)) as [->|Hne].
      * replace (i - i) with 0 in Hl by lia. simpl in Hl.
        injection Hl as ->. left. by left.
      * right. split; [lia|].
        by replace (p - i) with (S (p - S i)) in Hl by lia.
Qed.

Lemma kept_from_head i mask p :
  head (kept_from i mask) = Some p →
  (i ≤ p)%nat ∧ mask !! (p - i)%nat = Some true
  ∧ ∀ q, (i ≤ q < p)%nat → mask !! (q - i)%nat = Some false.
Proof.
  revert i. induction mask as [|b mask IH]; intros i; simpl; [done|].
  destruct b; simpl.
  - intros [= <-]. split; [lia|]. replace (i - i) with 0 by lia.
    split; [done|]. intros q Hq. lia.
  - intros H. destruct (IH _ H) as (Hle & Hp & Hq). split; [lia|].
    split; [by replace (p - i) with (S (p - S i)) by lia|].
    intros q Hr. destruct (decide (q = i)) as [->|Hne].
    + by replace (i - i) with 0 by lia.
    + replace (q - i) with (S (q - S i)) by lia. apply Hq. lia.
Qed.

Lemma get_col_mask_rows mask col df :
  get_col col (mask_rows mask df)
  = s ← get_col col df; Ok (omap (s !!.) (kept_from 0 mask)).
Proof.
  unfold mask_rows.
  apply (get_col_map (fun s => omap (s !!.) (kept_from 0 mask))).
Qed.

Lemma columns_mask_rows mask df : columns (mask_rows mask df) = columns df.
Proof. unfold mask_rows, columns. by rewrite <- list_fmap_compose. Qed.

Lemma kept_from_nil i mask :
  kept_from i mask = [] ↔ Forall (fun b => b = false) mask.
Proof.
  revert i. induction mask as [|b mask IH]; intros i; simpl.
  - split; [constructor|done].
  - rewrite Forall_cons. destruct b; simpl.
    + split; [done|]. by intros [? _].
    + rewrite IH. tauto.
Qed.

Lemma rectangular_elem df cs :
  rectangular df = true → cs ∈ df → length cs.2 = len df.
Proof.
  unfold rectangular. rewrite forallb_forall. intros H Hin.
  apply Nat.eqb_eq, H. by apply list_elem_of_In.
Qed.



Lemma omap_lookup_total (s : Series) idx j :
  Forall (fun i => (i < length s)%nat) idx →
  omap (s !!.) idx !! j = idx !! j ≫= (s !!.).
Proof.
  intros H. revert j. induction H as [|i idx Hi _ IH]; intros j; [done|].
  destruct (lookup_lt_is_Some_2 s i Hi) as [v Hv].
  cbn [omap list_omap]. rewrite Hv. destruct j as [|j]; simpl; [done|].
  apply IH.
Qed.

Lemma kept_from_bound i mask :
  Forall (fun p => (p < i + length mask)%nat) (kept_from i mask).
Proof.
  apply Forall_forall. intros p [Hle Hp]%kept_from_elem.
  apply lookup_lt_Some in Hp. lia.
Qed.

Lemma rename_absent old new df :
  old ∉ columns df → rename old new df = df.
Proof.
  induction df as [|[c s] df IH]; [done|]. simpl.
  intros [Hc Hdf]%not_elem_of_cons. rewrite decide_False by done.
  by rewrite IH.
Qed.

Lemma rename_app old new l1 l2 :
  rename old new (l1 ++ l2) = rename old new l1 ++ rename old new l2.
Proof. unfold rename. apply map_app. Qed.

Lemma set_col_app_r col s l1 s0 :
  col ∉ columns l1 →
  set_col col s (l1 ++ [(col, s0)]) = l1 ++ [(col, s)].
Proof.
  induction l1 as [|[c s1] l1 IH]; simpl.
  - intros _. by rewrite decide_True.
  - intros [Hc Hl]%not_elem_of_cons. rewrite decide_False by done.
    by rewrite IH.
Qed.

Lemma columns_take_rows df idx :
  columns (map (fun cs : string * Series => (cs.1, take cs.2 idx)) df)
  = columns df.
Proof. unfold columns. by rewrite <- list_fmap_compose. Qed.

(** The map layer in closed form. *)
Lemma mangrove_layer_closed master_df df_mangrove rm my ms mv :
  get_col "State" master_df = Ok rm →
  "value" ∉ columns master_df → "Mangroves (2023)" ∉ columns master_df →
  get_col "year" df_mangrove = Ok my →
  get_col "State" df_mangrove = Ok ms →
  get_col "value" df_mangrove = Ok mv →
  let kept := kept_from 0 (map (fun v => eq_int v 2023) my) in
  let ks := omap (ms !!.) kept in
  let kv := omap (mv !!.) kept in
  mangrove_layer master_df df_mangrove
  = Ok (map (fun cs => (cs.1, take cs.2 (left_indexer rm ks))) master_df
        ++ [("Mangroves (2023)",
             fill_series (VInt 0) (reindex kv (right_indexer rm ks)))]).
Proof.
  intros Hrm Hv Hl Hmy Hms Hmv kept ks kv. unfold mangrove_layer.
  rewrite Hmy. run_bind.
  rewrite (proj2 (has_column_not_elem _ _) Hl). cbn [negb].
  rewrite (select2 "State" "value" _ ks kv)
    by (rewrite get_col_mask_rows; by rewrite ?Hms, ?Hmv).
  run_bind. unfold merge_left. rewrite Hrm. run_bind.
  cbn [get_col]. rewrite decide_True by done. run_bind.
  rewrite !filter_cons, filter_nil.
  rewrite decide_False by (intros H; by apply H).
  rewrite decide_True by done. cbn [map app fst snd].
  fold (left_indexer rm ks). fold (right_indexer rm ks).
  rewrite rename_app, rename_absent by (by rewrite columns_take_rows).
  unfold rename. cbn [map fst snd]. rewrite decide_True by done.
  rewrite get_col_app_r by (by rewrite columns_take_rows).
  cbn [get_col]. rewrite decide_True by done. run_bind.
  by rewrite set_col_app_r by (by rewrite columns_take_rows).
Qed.

(** The map layer gives every master row its Region's mangrove cover of
    2023: the value of a mangrove row of that Region and year, or zero
    when there is none.  No Region is lost, none is added, and no cell of
    the layer is a missing value. *)
Theorem mangrove_layer_spec master_df df_mangrove rm my ms mv :
  get_col "State" master_df = Ok rm →
  "value" ∉ columns master_df → "Mangroves (2023)" ∉ columns master_df →
  rectangular df_mangrove = true →
  get_col "year" df_mangrove = Ok my →
  get_col "State" df_mangrove = Ok ms →
  get_col "value" df_mangrove = Ok mv →
  Forall (fun v => is_str v = true) rm →
  Forall (fun v => is_str v = true) ms →
  ∃ L rl layer,
    mangrove_layer master_df df_mangrove = Ok L
    ∧ columns L = columns master_df ++ ["Mangroves (2023)"]
    ∧ get_col "State" L = Ok rl
    ∧ (∀ r, r ∈ rl ↔ r ∈ rm)
    ∧ get_col "Mangroves (2023)" L = Ok layer
    ∧ length layer = length rl
    ∧ (∀ v, v ∈ layer → isna v = false)
    ∧ ∀ p k, rl !! p = Some k →
        ((∀ i y, ms !! i = Some k → my !! i = Some y →
                 eq_int y 2023 = false)
         ∧ ∃ z, layer !! p = Some z ∧ is_zero z = true)
        ∨ (∃ i y, ms !! i = Some k ∧ my !! i = Some y
                  ∧ eq_int y 2023 = true
                  ∧ ∀ v, mv !! i = Some v →
                      ∃ z, layer !! p = Some z ∧ carried v z).
Proof.
  intros Hrm Hv Hl Hrect Hmy Hms Hmv _ _.
  pose proof (mangrove_layer_closed _ _ _ _ _ _ Hrm Hv Hl Hmy Hms Hmv) as Hc.
  cbn zeta in Hc.
  set (mask := map (fun v => eq_int v 2023) my) in *.
  set (kept := kept_from 0 mask) in *.
  set (ks := omap (ms !!.) kept) in *.
  set (kv := omap (mv !!.) kept) in *.
  pose proof (rectangular_get_col _ _ _ Hrect Hmy) as Ly.
  pose proof (rectangular_get_col _ _ _ Hrect Hms) as Ls.
  pose proof (rectangular_get_col _ _ _ Hrect Hmv) as Lv.
  assert (Hb : ∀ s : Series, length s = len df_mangrove →
                Forall (fun i => (i < length s)%nat) kept).
  { intros s Hs. eapply Forall_impl; [apply kept_from_bound|].
    intros i. simpl. unfold mask. rewrite length_map. lia. }
  assert (Hks : ∀ j, ks !! j = kept !! j ≫= (ms !!.))
    by (intros j; by apply omap_lookup_total, Hb).
  assert (Hkv : ∀ j, kv !! j = kept !! j ≫= (mv !!.))
    by (intros j; by apply omap_lookup_total, Hb).
  assert (Hkept : ∀ i, i ∈ kept ↔ ∃ y, my !! i = Some y ∧ eq_int y 2023 = true).
  { intros i. unfold kept. rewrite kept_from_elem.
    replace (i - 0) with i by lia. unfold mask. rewrite list_lookup_fmap.
    split.
    - intros [_ H]. destruct (my !! i) as [y|]; [|done]. simpl in H.
      injection H as H. eauto.
    - intros (y & -> & Hy). simpl. split; [lia|by rewrite Hy]. }
  eexists _, (take rm (left_indexer rm ks)),
    (fill_series (VInt 0) (reindex kv (right_indexer rm ks))).
  split; [exact Hc|]. split.
  { unfold columns. rewrite fmap_app, <- list_fmap_compose. done. }
  split.
  { apply get_col_app_l.
    rewrite (get_col_map (fun s => take s (left_indexer rm ks))).
    by rewrite Hrm. }
  split.
  { intros r. pose proof (take_left_keys [] rm ks) as Hx.
    cbn [app length] in Hx. unfold left_indexer, left_join_indexers.
    rewrite Hx. apply elem_of_expand. }
  split.
  { rewrite get_col_app_r by (by rewrite columns_take_rows).
    cbn [get_col]. by rewrite decide_True. }
  split.
  { rewrite length_fill_series, length_reindex, length_take.
    unfold left_indexer, right_indexer. by rewrite !length_map. }
  split.
  { intros v [Hz|[_ ?]]%fill_series_elem; [|done]. unfold is_zero in Hz.
    apply orb_true_iff in Hz as [Hz|Hz]; apply bool_decide_eq_true in Hz;
      by subst v. }
  intros p k Hk.
  destruct (join_row rm ks p k Hk) as (i0 & oj & _ & Hm & _ & R).
  destruct (R kv) as (g & Hg & E).
  destruct (fill_series_filled _ _ _ E) as (z & Hz & Hfill).
  destruct oj as [j|]; simpl in *.
  - right. rewrite Hks in Hm.
    destruct (kept !! j) as [i|] eqn:Hj; [|done]. simpl in Hm.
    assert (Hi : i ∈ kept) by (by eapply list_elem_of_lookup_2).
    apply Hkept in Hi as (y & Hy & Hy2). exists i, y.
    repeat (split; [done|]). intros v Hvi. exists z. split; [done|].
    rewrite Hkv, Hj in Hfill. simpl in Hfill. rewrite Hvi in Hfill.
    by eapply carried_cell.
  - left. split.
    + intros i y Hi Hy. destruct (eq_int y 2023) eqn:Ey; [|done].
      assert (Hin : i ∈ kept) by (apply Hkept; eauto).
      apply list_elem_of_lookup in Hin as [j Hj].
      destruct Hm. apply list_elem_of_lookup. exists j.
      by rewrite Hks, Hj.
    + exists z. split; [done|]. destruct Hg as [-> | ->]; exact Hfill.
Qed.

Lemma mangrove_layer_spec_witness :
  ∃ L, mangrove_layer (master (returned ex_store))
         (mangrove (returned ex_store)) = Ok L
       ∧ columns L
         = ["State"; "Recorded Forest Area - Total"; "Geographical Area";
            "Tree Cover - Area"; "Precipitation_mm"; "Mangroves (2023)"].
Proof.
  destruct (mangrove_layer_spec (master (returned ex_store))
              (mangrove (returned ex_store))
              [cell "Andhra Pradesh"; cell "Sikkim"]
              [VInt 2023] [cell "Andhra Pradesh"] [VInt 405])
    as (L & rl & layer & HL & Hcols & _); try reflexivity.
  - apply (bool_decide_unpack _). vm_compute. exact I.
  - apply (bool_decide_unpack _). vm_compute. exact I.
  - repeat constructor.
  - repeat constructor.
  - exists L. split; [exact HL|]. rewrite Hcols. reflexivity.
Defined.
